(** * pyth-client price model: a shallow embedding of [pc/ext] and of the
    replay driver of [pctest/test_price_model.hpp].

    Conventions of the embedding.
    - [timestamp] ([uint64_t]), [nsecs] and [price_val] ([int64_t]) and
      [size_t] are integers of [Z]; every conversion and every operation
      that can leave the range is written with its wrap-around ([to_u64],
      [to_i64]).  Signed overflow is read as two's complement wrap.
    - [price_interval] ([double]) is the kernel's binary64 [float]; [std::max]
      and [std::min] are the comparisons of the C++ library, [std::sqrt] is
      the IEEE square root.  [std::log] is not part of the repository and is
      a parameter of the candle model.
    - [PC_ASSERT] throws; throwing code returns in [result]. *)

From Stdlib Require Import ZArith List Lia Bool String.
From Stdlib Require Uint63.
From Stdlib Require Import Floats.
Import ListNotations.

Local Open Scope Z_scope.

(** ** Machine integers *)

Definition to_u64 (x : Z) : Z := x mod 2 ^ 64.

Definition to_i64 (x : Z) : Z := (x + 2 ^ 63) mod 2 ^ 64 - 2 ^ 63.

Definition is_u64 (x : Z) : Prop := 0 <= x < 2 ^ 64.

Definition is_i64 (x : Z) : Prop := - 2 ^ 63 <= x < 2 ^ 63.

(** ** pc/ext/timestamp.hpp *)

Definition timestamp := Z.
Definition nsecs := Z.

Definition NS_PER_US : nsecs := 1000.
Definition NS_PER_MS : nsecs := NS_PER_US * 1000.
Definition NS_PER_SEC : nsecs := NS_PER_MS * 1000.
Definition NS_PER_MIN : nsecs := NS_PER_SEC * 60.
Definition NS_PER_HOUR : nsecs := NS_PER_MIN * 60.
Definition NS_PER_DAY : nsecs := NS_PER_HOUR * 24.
Definition NS_PER_YEAR : nsecs := NS_PER_DAY * 365.

Definition as_ns (ts : timestamp) : nsecs := to_i64 ts.

Definition add_time (ts : timestamp) (ns : nsecs) : timestamp :=
  to_u64 (to_i64 (as_ns ts + ns)).

Definition diff_times (ts1 ts2 : timestamp) : nsecs :=
  to_i64 (as_ns ts1 - as_ns ts2).

(** [/] on [int64_t] truncates toward zero: [Z.quot]. *)
Definition floor_time (ts : timestamp) (interval : nsecs) : timestamp :=
  to_u64 (to_i64 (to_i64 (Z.quot (as_ns ts) interval) * interval)).

(** ** Floating point: [double] *)

Definition price_val := Z.
Definition price_interval := float.

(** [static_cast< double >( int64_t )]: round to nearest, ties to even.  The
    primitive conversion takes a 63-bit magnitude; the sign is put back and
    [INT64_MIN], a power of two, is exact. *)
Definition as_interval (x : Z) : price_interval :=
  if x <? 0 then
    if x =? - 2 ^ 63 then (- Z.ldexp 1 63)%float
    else (- of_uint63 (Uint63.of_Z (- x)))%float
  else of_uint63 (Uint63.of_Z x).

(** [0.01] and [0.00001] are not binary64 numbers; the literals below are
    the doubles a C++ compiler reads them as. *)
Definition double_0_01 : float := 0x1.47ae147ae147bp-7%float.
Definition double_0_00001 : float := 0x1.4f8b588e368f1p-17%float.

(** [std::max( a, b )] is [( a < b ) ? b : a]; [std::min( a, b )] is
    [( b < a ) ? b : a]. *)
Definition fmax (a b : float) : float := if (a <? b)%float then b else a.
Definition fmin (a b : float) : float := if (b <? a)%float then b else a.

(** ** pc/ext/verify.hpp: [PC_ASSERT] throws an [assertion_error] *)

Inductive exception : Type :=
| assertion_error (expr : string)
| length_error.

Inductive result (A : Type) : Type :=
| Ok (a : A)
| Throw (e : exception).

Arguments Ok {A} a.
Arguments Throw {A} e.

Definition bind {A B : Type} (r : result A) (k : A -> result B) : result B :=
  match r with
  | Ok a => k a
  | Throw e => Throw e
  end.

Notation "x <- r ;; k" := (bind r (fun x => k))
  (at level 61, r at next level, right associativity).
Notation "' p <- r ;; k" := (bind r (fun x => let p := x in k))
  (at level 61, p pattern, r at next level, right associativity).
Notation "r ;;; k" := (bind r (fun _ => k))
  (at level 61, right associativity).

Definition PC_ASSERT (b : bool) (expr : string) : result unit :=
  if b then Ok tt else Throw (assertion_error expr).

Definition value_or {A : Type} (o : option A) (d : A) : A :=
  match o with
  | Some a => a
  | None => d
  end.

(** ** [std::vector]: [operator[]] and assignment through it.  Out of range
    the C++ is undefined; here a read gives the default and a write does
    nothing, and the models below are shown never to get there. *)

Definition vget {A : Type} (d : A) (v : list A) (i : Z) : A :=
  nth (Z.to_nat i) v d.

Fixpoint list_set {A : Type} (v : list A) (n : nat) (x : A) : list A :=
  match v, n with
  | [], _ => []
  | _ :: t, O => x :: t
  | h :: t, S n' => h :: list_set t n' x
  end.

Definition vset {A : Type} (v : list A) (i : Z) (x : A) : list A :=
  list_set v (Z.to_nat i) x.

(** [std::vector< T >::max_size()] for the 8-byte elements of the candle
    model on an LP64 libstdc++: [PTRDIFF_MAX / 8].  [resize] beyond it throws
    [std::length_error].  Below it [resize] throws [std::bad_alloc] when the
    machine cannot give the memory; that is outside the model, which is of
    a machine that has it: what holds of any constructor that returned is
    proved with its return as a hypothesis, not concluded from the
    arguments. *)
Definition VECTOR_MAX_SIZE : Z := 2 ^ 60 - 1.

(** ** pc/ext/price_model.hpp: trades, estimates, ranges and the interface *)

Record price_time : Type := { price_ : price_val; time_ : timestamp }.

Record price_estimate : Type := { est_price_ : price_val; conf_ : price_interval }.

Module price_range.

Record t : Type := { high_ : price_val; low_ : price_val }.

Definition open (p : price_val) : t := {| high_ := p; low_ := p |}.

Definition add_price (p : price_val) (r : t) : t :=
  {| high_ := Z.max (high_ r) p; low_ := Z.min (low_ r) p |}.

Definition interval (r : t) : price_interval :=
  (as_interval (to_i64 (high_ r - low_ r)) / 2)%float.

End price_range.

(** [trade_tracker< std::optional< price_interval > >]: the two virtual
    methods, on a state of the implementation's choice. *)
Class volatility_model (V : Type) : Type := {
  vol_add_trade : price_time -> V -> result V;
  vol_eval_at_time : timestamp -> V -> result (option price_interval * V)
}.

(** ** pc/ext/candle_model.cpp *)

Module candle_model.

Definition DEFAULT_LOOKBACK : Z := 20.
Definition DEFAULT_DURATION : nsecs := NS_PER_MIN * 1.

Record t : Type := {
  capacity_ : Z;
  candle_ns_ : nsecs;
  count_ : Z;
  front_ : Z;
  starts_ : list timestamp;
  highs_ : list price_interval;
  lows_ : list price_interval
}.

Definition new (lookback : option Z) (candle_ns : option nsecs) : result t :=
  let capacity := to_u64 (1 + value_or lookback DEFAULT_LOOKBACK) in
  let candle_ns := value_or candle_ns DEFAULT_DURATION in
  PC_ASSERT (capacity >? 1) "capacity_ > 1" ;;;
  PC_ASSERT (candle_ns >? 0) "candle_ns_ > 0" ;;;
  if capacity >? VECTOR_MAX_SIZE then Throw length_error else
  Ok {| capacity_ := capacity;
        candle_ns_ := candle_ns;
        count_ := 0;
        front_ := 0;
        starts_ := repeat 0 (Z.to_nat capacity);
        highs_ := repeat 0%float (Z.to_nat capacity);
        lows_ := repeat 0%float (Z.to_nat capacity) |}.

(** The block under [// Prepend new candle.] *)
Definition prepend (price : price_interval) (start : timestamp) (m : t) : t :=
  let front := to_u64 (front_ m + capacity_ m - 1) mod capacity_ m in
  {| capacity_ := capacity_ m;
     candle_ns_ := candle_ns_ m;
     count_ := Z.min (to_u64 (count_ m + 1)) (capacity_ m);
     front_ := front;
     starts_ := vset (starts_ m) front start;
     highs_ := vset (highs_ m) front price;
     lows_ := vset (lows_ m) front price |}.

(** The two assignments after the assertion. *)
Definition widen (price : price_interval) (m : t) : t :=
  {| capacity_ := capacity_ m;
     candle_ns_ := candle_ns_ m;
     count_ := count_ m;
     front_ := front_ m;
     starts_ := starts_ m;
     highs_ := vset (highs_ m) (front_ m)
                 (fmax (vget 0%float (highs_ m) (front_ m)) price);
     lows_ := vset (lows_ m) (front_ m)
                (fmin (vget 0%float (lows_ m) (front_ m)) price) |}.

Definition add_trade (trade : price_time) (m : t) : result t :=
  let price := as_interval (price_ trade) in
  let start := floor_time (time_ trade) (candle_ns_ m) in
  let m1 :=
    if (count_ m =? 0) || (start >? vget 0 (starts_ m) (front_ m))
    then prepend price start m
    else m in
  PC_ASSERT (start =? vget 0 (starts_ m1) (front_ m1))
            "start == starts_[ front_ ]" ;;;
  Ok (widen price m1).

Section Eval.

(** [std::log] on [double], from the C library. *)
Variable std_log : float -> float.

(** One turn of the loop of [eval_volatility] at index [i]. *)
Definition eval_pair (m : t) (i : Z) (acc : price_interval * price_interval)
  : result (price_interval * price_interval) :=
  let '(numer, denom) := acc in
  let cur := to_u64 (front_ m + i) mod capacity_ m in
  let prev := to_u64 (cur + 1) mod capacity_ m in
  let max_high := fmax (vget 0%float (highs_ m) cur) (vget 0%float (highs_ m) prev) in
  let min_low := fmin (vget 0%float (lows_ m) cur) (vget 0%float (lows_ m) prev) in
  let log_ratio := std_log (max_high / min_low)%float in
  PC_ASSERT (0 <? min_low)%float "min_low > 0" ;;;
  PC_ASSERT (min_low <=? max_high)%float "min_low <= max_high" ;;;
  let numer := (numer + log_ratio * log_ratio)%float in
  let prev_start := vget 0 (starts_ m) prev in
  let cur_end := add_time (vget 0 (starts_ m) cur) (candle_ns_ m) in
  PC_ASSERT (cur_end >? prev_start) "cur_end > prev_start" ;;;
  let denom := (denom + as_interval (diff_times cur_end prev_start))%float in
  Ok (numer, denom).

(** [for ( size_t i = 0; i + 1 < count_; ++i )]: [n] turns from [i]. *)
Fixpoint eval_loop (m : t) (n : nat) (i : Z)
  (acc : price_interval * price_interval)
  : result (price_interval * price_interval) :=
  match n with
  | O => Ok acc
  | S n' => acc' <- eval_pair m i acc ;; eval_loop m n' (i + 1) acc'
  end.

Definition eval_volatility (m : t) : result (option price_interval) :=
  PC_ASSERT (count_ m <=? capacity_ m) "count_ <= capacity_" ;;;
  if count_ m <? capacity_ m then Ok None else
  ' (numer, denom) <- eval_loop m (Z.to_nat (count_ m - 1)) 0 (0, 0)%float ;;
  let denom := (denom * (std_log 2 * 4))%float in
  let ns_per_year := as_interval NS_PER_YEAR in
  Ok (Some (sqrt (numer / denom * ns_per_year)))%float.

Definition eval_at_time (_ : timestamp) (m : t)
  : result (option price_interval * t) :=
  v <- eval_volatility m ;; Ok (v, m).

Definition tracker : volatility_model t :=
  {| vol_add_trade := add_trade; vol_eval_at_time := eval_at_time |}.

End Eval.

End candle_model.

(** ** pc/ext/price_model.cpp *)

Module standard_price_model.

Definition DEFAULT_TIMEOUT : nsecs := NS_PER_SEC * 60.
Definition DEFAULT_MIN_SLOT : nsecs := NS_PER_MS * 500.
Definition DEFAULT_MIN_INTERVAL : price_interval := double_0_01.
Definition DEFAULT_VOLATILITY : price_interval := 1%float.

Section Model.

Context {V : Type} (VM : volatility_model V).

Record t : Type := {
  volatility_model_ : V;
  min_interval_ : price_interval;
  init_volatility_ : price_interval;
  timeout_ns_ : nsecs;
  min_slot_ns_ : nsecs;
  last_trade_ : option price_time;
  range_since_eval_ : option price_range.t
}.

(** The constructor, given the volatility model it is to own (the caller's,
    or the default [candle_model] made by [new_default] below). *)
Definition new (vol_model : V)
  (min_conf_interval : option price_interval) (timeout min_slot_ns : option nsecs)
  (init_volatility : option price_interval) : result t :=
  let min_interval := value_or min_conf_interval DEFAULT_MIN_INTERVAL in
  let init_volatility := value_or init_volatility DEFAULT_VOLATILITY in
  let timeout_ns := value_or timeout DEFAULT_TIMEOUT in
  let min_slot_ns := value_or min_slot_ns DEFAULT_MIN_SLOT in
  PC_ASSERT (0 <=? min_interval)%float "min_interval_ >= 0" ;;;
  PC_ASSERT (0 <=? init_volatility)%float "init_volatility_ >= 0" ;;;
  PC_ASSERT (min_slot_ns >=? 0) "min_slot_ns_ >= 0" ;;;
  PC_ASSERT (min_slot_ns <? timeout_ns) "min_slot_ns_ < timeout_ns_" ;;;
  Ok {| volatility_model_ := vol_model;
        min_interval_ := min_interval;
        init_volatility_ := init_volatility;
        timeout_ns_ := timeout_ns;
        min_slot_ns_ := min_slot_ns;
        last_trade_ := None;
        range_since_eval_ := None |}.

Definition set_volatility_model (v : V) (m : t) : t :=
  {| volatility_model_ := v;
     min_interval_ := min_interval_ m;
     init_volatility_ := init_volatility_ m;
     timeout_ns_ := timeout_ns_ m;
     min_slot_ns_ := min_slot_ns_ m;
     last_trade_ := last_trade_ m;
     range_since_eval_ := range_since_eval_ m |}.

Definition set_last_trade (lt : option price_time) (m : t) : t :=
  {| volatility_model_ := volatility_model_ m;
     min_interval_ := min_interval_ m;
     init_volatility_ := init_volatility_ m;
     timeout_ns_ := timeout_ns_ m;
     min_slot_ns_ := min_slot_ns_ m;
     last_trade_ := lt;
     range_since_eval_ := range_since_eval_ m |}.

Definition set_range_since_eval (r : option price_range.t) (m : t) : t :=
  {| volatility_model_ := volatility_model_ m;
     min_interval_ := min_interval_ m;
     init_volatility_ := init_volatility_ m;
     timeout_ns_ := timeout_ns_ m;
     min_slot_ns_ := min_slot_ns_ m;
     last_trade_ := last_trade_ m;
     range_since_eval_ := r |}.

Definition add_trade (trade : price_time) (m : t) : result t :=
  let price := price_ trade in
  v <- vol_add_trade trade (volatility_model_ m) ;;
  let m := set_volatility_model v m in
  let range :=
    match range_since_eval_ m with
    | None => price_range.open price
    | Some r => r
    end in
  let m := set_range_since_eval (Some (price_range.add_price price range)) m in
  Ok (set_last_trade (Some trade) m).

Definition eval_at_time (now : timestamp) (m : t)
  : result (option price_estimate * t) :=
  match last_trade_ m with
  | None => Ok (None, m)
  | Some last_trade =>
    let ns_since_trade := diff_times now (time_ last_trade) in
    PC_ASSERT (ns_since_trade >=? 0) "ns_since_trade >= 0" ;;;
    if ns_since_trade >? timeout_ns_ m then Ok (None, m) else
    ' (yearly_vol, v) <- vol_eval_at_time now (volatility_model_ m) ;;
    let m := set_volatility_model v m in
    let years_since_trade :=
      (as_interval (Z.max ns_since_trade (min_slot_ns_ m))
       / as_interval NS_PER_YEAR)%float in
    let conf_interval :=
      (value_or yearly_vol (init_volatility_ m)
       * sqrt years_since_trade
       * as_interval (price_ last_trade))%float in
    let conf_interval := fmax conf_interval (min_interval_ m) in
    match range_since_eval_ m with
    | Some range =>
      let conf_interval := fmax conf_interval (price_range.interval range) in
      Ok (Some {| est_price_ := price_ last_trade; conf_ := conf_interval |},
          set_range_since_eval None m)
    | None =>
      Ok (Some {| est_price_ := price_ last_trade; conf_ := conf_interval |}, m)
    end
  end.

End Model.

Arguments t V : clear implicits.

End standard_price_model.

(** ** pctest/test_price_model_unit.cpp: the stub volatility model *)

Module stub_volatility_model.

Record t : Type := { vol_ : option price_interval }.

Definition eval_at_time (_ : timestamp) (m : t)
  : result (option price_interval * t) := Ok (vol_ m, m).

Definition add_trade (_ : price_time) (m : t) : result t := Ok m.

Definition tracker : volatility_model t :=
  {| vol_add_trade := add_trade; vol_eval_at_time := eval_at_time |}.

End stub_volatility_model.

(** ** pctest/test_price_model.hpp: the replay driver *)

Module price_model_test.

(** A call the driver makes on the model: a trade fed, or an evaluation with
    what it returned. *)
Inductive event : Type :=
| ev_trade (trade : price_time)
| ev_eval (now : timestamp) (actual : result (option price_estimate)).

Record t : Type := {
  trade_times_ : option (list timestamp);
  trade_prices_ : option (list price_val);
  eval_times_ : option (list timestamp);
  eval_prices_ : option (list price_val);
  eval_intervals_ : option (list price_interval);
  min_interval_ : option price_interval;
  init_volatility_ : option price_interval;
  timeout_ns_ : option nsecs;
  min_slot_ns_ : option nsecs;
  candle_ns_ : option nsecs;
  lookback_candles_ : option Z;
  conf_tolerance_ : option price_interval
}.

Definition has_value {A : Type} (o : option A) : bool :=
  match o with
  | Some _ => true
  | None => false
  end.

(** [column< T >::size()] and [begin()[ i ]] of a column that is there. *)
Definition size {A : Type} (c : option (list A)) : Z :=
  Z.of_nat (List.length (value_or c [])).

Definition at_ {A : Type} (d : A) (c : option (list A)) (i : Z) : A :=
  vget d (value_or c []) i.

Definition validate_args (a : t) : result unit :=
  PC_ASSERT (has_value (trade_times_ a) && has_value (trade_prices_ a))
            "trade_times_ && trade_prices_" ;;;
  PC_ASSERT (has_value (eval_times_ a) && has_value (eval_prices_ a)
             && has_value (eval_intervals_ a))
            "eval_times_ && eval_prices_ && eval_intervals_" ;;;
  PC_ASSERT (size (trade_times_ a) =? size (trade_prices_ a))
            "trade_times_->size() == trade_prices_->size()" ;;;
  PC_ASSERT (size (eval_times_ a) =? size (eval_prices_ a))
            "eval_times_->size() == eval_prices_->size()" ;;;
  PC_ASSERT (size (eval_times_ a) =? size (eval_intervals_ a))
            "eval_times_->size() == eval_intervals_->size()" ;;;
  PC_ASSERT (0 <=? value_or (init_volatility_ a) 0)%float
            "init_volatility_.value_or( 0 ) >= 0" ;;;
  PC_ASSERT (0 <=? value_or (min_interval_ a) 0)%float
            "min_interval_.value_or( 0 ) >= 0" ;;;
  PC_ASSERT (value_or (min_slot_ns_ a) 0 >=? 0)
            "min_slot_ns_.value_or( 0 ) >= 0" ;;;
  PC_ASSERT (value_or (timeout_ns_ a) 1 >? 0)
            "timeout_ns_.value_or( 1 ) > 0" ;;;
  PC_ASSERT (value_or (candle_ns_ a) 1 >? 0)
            "candle_ns_.value_or( 1 ) > 0" ;;;
  PC_ASSERT (value_or (lookback_candles_ a) 1 >? 0)
            "lookback_candles_.value_or( 1 ) > 0" ;;;
  PC_ASSERT (0 <=? value_or (conf_tolerance_ a) 0)%float
            "conf_tolerance_.value_or( 0 ) >= 0".

(** [for ( size_t i = 1; i < count; ++i ) body( i )]: [n] turns from [i]. *)
Fixpoint for_range (n : nat) (i : Z) (body : Z -> result unit) : result unit :=
  match n with
  | O => Ok tt
  | S n' => body i ;;; for_range n' (i + 1) body
  end.

Section Run.

Context {V : Type} (VM : volatility_model V).

(** [make_vol_model] is virtual: the candle model by default, the stub in the
    unit test. *)
Variable make_vol_model : t -> result V.

Definition make_price_model (a : t) : result (standard_price_model.t V) :=
  v <- make_vol_model a ;;
  standard_price_model.new v (min_interval_ a) (timeout_ns_ a)
    (min_slot_ns_ a) (init_volatility_ a).

Record state : Type := {
  model : standard_price_model.t V;
  eval_idx : Z;
  trade_idx : Z
}.

Inductive action : Type := feed_trade | evaluate | stop.

Variable a : t.

Definition trade_count : Z := size (trade_prices_ a).
Definition eval_count : Z := size (eval_prices_ a).
Definition conf_tol : price_interval := value_or (conf_tolerance_ a) double_0_00001.

Definition eval_time (s : state) : timestamp :=
  if eval_idx s <? eval_count
  then at_ 0 (eval_times_ a) (eval_idx s)
  else 2 ^ 64 - 1.

Definition trade_at (i : Z) : price_time :=
  {| price_ := at_ 0 (trade_prices_ a) i; time_ := at_ 0 (trade_times_ a) i |}.

(** The conditions of the [if] / [else if] / [else] of the loop body. *)
Definition next_action (s : state) : action :=
  if (trade_idx s <? trade_count)
     && (eval_time s >? at_ 0 (trade_times_ a) (trade_idx s))
  then feed_trade
  else if eval_idx s <? eval_count then evaluate
  else stop.

(** The comparison of an evaluation with the expected columns. *)
Definition check_eval (s : state) (actual : option price_estimate) : result unit :=
  let expected_price := at_ 0 (eval_prices_ a) (eval_idx s) in
  let expected_conf := at_ 0%float (eval_intervals_ a) (eval_idx s) in
  match actual with
  | Some est =>
    PC_ASSERT (est_price_ est =? expected_price)
              "actual->price_ == expected_price" ;;;
    PC_ASSERT (expected_conf * (1 - conf_tol) <=? conf_ est)%float
              "actual->conf_ >= expected_conf * ( 1 - conf_tol )" ;;;
    PC_ASSERT (conf_ est <=? expected_conf * (1 + conf_tol))%float
              "actual->conf_ <= expected_conf * ( 1 + conf_tol )"
  | None =>
    PC_ASSERT (expected_price =? 0) "expected_price == 0" ;;;
    PC_ASSERT (expected_conf =? 0)%float "expected_conf == 0"
  end.

(** [while ( true )]: the calls made on the model, in order, and how the loop
    ended ([None]: the fuel ran out before the [break]). *)
Fixpoint loop (fuel : nat) (s : state) : list event * option (result state) :=
  match fuel with
  | O => ([], None)
  | S fuel' =>
    match next_action s with
    | feed_trade =>
      let trade := trade_at (trade_idx s) in
      match standard_price_model.add_trade VM trade (model s) with
      | Ok m =>
        let '(evs, r) :=
          loop fuel' {| model := m; eval_idx := eval_idx s;
                        trade_idx := trade_idx s + 1 |} in
        (ev_trade trade :: evs, r)
      | Throw e => ([ev_trade trade], Some (Throw e))
      end
    | evaluate =>
      let now := eval_time s in
      match standard_price_model.eval_at_time VM now (model s) with
      | Ok (actual, m) =>
        match check_eval s actual with
        | Ok _ =>
          let '(evs, r) :=
            loop fuel' {| model := m; eval_idx := eval_idx s + 1;
                          trade_idx := trade_idx s |} in
          (ev_eval now (Ok actual) :: evs, r)
        | Throw e => ([ev_eval now (Ok actual)], Some (Throw e))
        end
      | Throw e => ([ev_eval now (Throw e)], Some (Throw e))
      end
    | stop => ([], Some (Ok s))
    end
  end.

(** Every turn but the last advances one of the two indices. *)
Definition enough_fuel : nat := S (Z.to_nat (trade_count + eval_count)).

Definition check_columns : result unit :=
  for_range (Z.to_nat (trade_count - 1)) 1 (fun i =>
    PC_ASSERT (at_ 0 (trade_times_ a) (i - 1) <=? at_ 0 (trade_times_ a) i)
              "trade_times[ i - 1 ] <= trade_times[ i ]") ;;;
  for_range (Z.to_nat (eval_count - 1)) 1 (fun i =>
    PC_ASSERT (at_ 0 (eval_times_ a) (i - 1) <=? at_ 0 (eval_times_ a) i)
              "eval_times[ i - 1 ] <= eval_times[ i ]" ;;;
    PC_ASSERT (0 <=? at_ 0%float (eval_intervals_ a) i)%float
              "eval_confs[ i ] >= 0").

Definition initial (m : standard_price_model.t V) : state :=
  {| model := m; eval_idx := 0; trade_idx := 0 |}.

(** [run()], with the calls it made on the model. *)
Definition run : list event * option (result unit) :=
  match (validate_args a ;;; check_columns ;;; make_price_model a) with
  | Throw e => ([], Some (Throw e))
  | Ok m =>
    match loop enough_fuel (initial m) with
    | (evs, Some (Ok s)) =>
      (evs, Some (PC_ASSERT (trade_idx s =? trade_count)
                            "trade_idx == trade_count" ;;;
                  PC_ASSERT (eval_idx s =? eval_count)
                            "eval_idx == eval_count"))
    | (evs, Some (Throw e)) => (evs, Some (Throw e))
    | (evs, None) => (evs, None)
    end
  end.

End Run.

Arguments state V : clear implicits.

(** The default [make_vol_model]. *)
Definition make_candle_model (a : t) : result candle_model.t :=
  candle_model.new (lookback_candles_ a) (candle_ns_ a).

End price_model_test.

(** ** A logarithm to run examples with

    The theorems below hold for every [std_log]; the closed examples need one
    that computes.  [ln_series] splits the argument into mantissa and
    exponent and sums the series of [2 * atanh((m - 1) / (m + 1))]; it agrees
    with the C library's [log] to the last digit or so. *)

Definition LN2 : float := 0x1.62e42fefa39efp-1%float.
Definition SQRT_HALF : float := 0x1.6a09e667f3bcdp-1%float.

Fixpoint atanh_series (n : nat) (k : Z) (t2 : float) : float :=
  match n with
  | O => 0%float
  | S n' => (1 / as_interval k + t2 * atanh_series n' (k + 2) t2)%float
  end.

Definition ln_series (x : float) : float :=
  if (x <? 0)%float then nan
  else if (x =? 0)%float then neg_infinity
  else if (x =? infinity)%float then infinity
  else if negb (x =? x)%float then x
  else
    let '(m, e) := Z.frexp x in
    let '(m, e) :=
      if (m <? SQRT_HALF)%float then ((m * 2)%float, e - 1) else (m, e) in
    let t := ((m - 1) / (m + 1))%float in
    (as_interval e * LN2 + 2 * t * atanh_series 14 1 (t * t))%float.

(** ** The words of the specification *)

(** What the spec means by "greatest multiple of [interval] that is [<= ts]". *)
Definition greatest_multiple_le (r ts interval : Z) : Prop :=
  (exists k, r = k * interval) /\ r <= ts /\
  forall k, k * interval <= ts -> k * interval <= r.

(** A candle of the ring, and the ring read from the newest candle (the
    front) to the oldest. *)
Record candle : Type := {
  start : timestamp;
  high : price_interval;
  low : price_interval
}.

Definition nth_newest (m : candle_model.t) (i : Z) : candle :=
  let k := (candle_model.front_ m + i) mod candle_model.capacity_ m in
  {| start := vget 0 (candle_model.starts_ m) k;
     high := vget 0%float (candle_model.highs_ m) k;
     low := vget 0%float (candle_model.lows_ m) k |}.

Definition front_candle (m : candle_model.t) : candle := nth_newest m 0.

(** What the constructor sets up and every method keeps: the three vectors
    have [capacity_] slots, [front_] is one of them, [count_] is at most
    [capacity_]. *)
Record ring_wf (m : candle_model.t) : Prop := {
  wf_capacity : 1 < candle_model.capacity_ m <= VECTOR_MAX_SIZE;
  wf_candle_ns : 0 < candle_model.candle_ns_ m;
  wf_count : 0 <= candle_model.count_ m <= candle_model.capacity_ m;
  wf_front : 0 <= candle_model.front_ m < candle_model.capacity_ m;
  wf_starts : Z.of_nat (List.length (candle_model.starts_ m)) = candle_model.capacity_ m;
  wf_highs : Z.of_nat (List.length (candle_model.highs_ m)) = candle_model.capacity_ m;
  wf_lows : Z.of_nat (List.length (candle_model.lows_ m)) = candle_model.capacity_ m
}.

(** "Candle starts are strictly decreasing from front to back." *)
Definition starts_decreasing (m : candle_model.t) : Prop :=
  forall i j, 0 <= i -> i < j -> j < candle_model.count_ m ->
    start (nth_newest m j) < start (nth_newest m i).

(** "[low <= high] holds for every stored candle", in [double]. *)
Definition lows_below_highs (m : candle_model.t) : Prop :=
  forall i, 0 <= i < candle_model.count_ m ->
    (low (nth_newest m i) <=? high (nth_newest m i))%float = true.

(** The front candle covers the bucket of the latest trade, if any. *)
Definition front_covers (m : candle_model.t) (latest : option price_time) : Prop :=
  match latest with
  | None => candle_model.count_ m = 0
  | Some trade =>
    0 < candle_model.count_ m /\
    start (front_candle m) = floor_time (time_ trade) (candle_model.candle_ns_ m)
  end.

(** A sequence of [add_trade] calls, stopping at the first that throws. *)
Fixpoint add_trades (trades : list price_time) (m : candle_model.t)
  : result candle_model.t :=
  match trades with
  | [] => Ok m
  | trade :: rest => m' <- candle_model.add_trade trade m ;; add_trades rest m'
  end.

(** The latest trade of a sequence. *)
Fixpoint latest_trade (trades : list price_time) : option price_time :=
  match trades with
  | [] => None
  | trade :: rest =>
    match latest_trade rest with
    | Some later => Some later
    | None => Some trade
    end
  end.

(** Trades in monotone order: no trade is earlier than the one before it. *)
Fixpoint monotone_from (t0 : timestamp) (trades : list price_time) : Prop :=
  match trades with
  | [] => True
  | trade :: rest => t0 <= time_ trade /\ monotone_from (time_ trade) rest
  end.

Definition monotone (trades : list price_time) : Prop := monotone_from 0 trades.

(** Trades with times below [2^63]: the ones that the cast [as_ns] to the
    signed [nsecs] keeps. *)
Definition signed_times (trades : list price_time) : Prop :=
  Forall (fun trade => time_ trade < 2 ^ 63) trades.

(** The number of distinct candle buckets among the trades. *)
Definition buckets (candle_ns : nsecs) (trades : list price_time) : list timestamp :=
  map (fun trade => floor_time (time_ trade) candle_ns) trades.

Definition distinct_buckets (candle_ns : nsecs) (trades : list price_time) : Z :=
  Z.of_nat (List.length (nodup Z.eq_dec (buckets candle_ns trades))).

(** The adjacent pairs [(cur, prev)] for [i = 0 .. count-2], [cur] the
    [i]-th newest candle and [prev] the [(i+1)]-th newest. *)
Definition adjacent_pairs (m : candle_model.t) : list (candle * candle) :=
  map (fun i => (nth_newest m (Z.of_nat i), nth_newest m (Z.of_nat i + 1)))
      (seq 0 (Z.to_nat (candle_model.count_ m - 1))).

(** A sum of doubles, added in the order of the list from [0]. *)
Definition fsum (l : list float) : float := fold_left PrimFloat.add l 0%float.

Section VolatilitySpec.

Variable std_log : float -> float.

(** [ln( max( cur.high, prev.high ) / min( cur.low, prev.low ) )], squared. *)
Definition log_ratio_squared (p : candle * candle) : float :=
  let '(cur, prev) := p in
  let log_ratio := std_log (fmax (high cur) (high prev) / fmin (low cur) (low prev))%float in
  (log_ratio * log_ratio)%float.

(** [cur.start + candle_duration_ns - prev.start], a count of nanoseconds,
    with the sum and the difference of the time primitives. *)
Definition span_ns (candle_ns : nsecs) (p : candle * candle) : float :=
  let '(cur, prev) := p in
  as_interval (diff_times (add_time (start cur) candle_ns) (start prev)).

(** The three requirements of the loop on a pair. *)
Definition pair_ok (candle_ns : nsecs) (p : candle * candle) : bool :=
  let '(cur, prev) := p in
  let min_low := fmin (low cur) (low prev) in
  let max_high := fmax (high cur) (high prev) in
  (0 <? min_low)%float && (min_low <=? max_high)%float
  && (add_time (start cur) candle_ns >? start prev).

(** [sqrt( numer / denom * NS_PER_YEAR )] with [denom] multiplied by
    [4 * ln 2]. *)
Definition parkinson_volatility (m : candle_model.t) : float :=
  let numer := fsum (map log_ratio_squared (adjacent_pairs m)) in
  let denom := fsum (map (span_ns (candle_model.candle_ns_ m)) (adjacent_pairs m)) in
  let denom := (denom * (4 * std_log 2))%float in
  sqrt (numer / denom * as_interval NS_PER_YEAR)%float.

End VolatilitySpec.

(** The driver's calls, read back: the trades among them, the model they
    leave, and what an evaluation observes on a model. *)
Fixpoint zrange (i : Z) (n : nat) : list Z :=
  match n with
  | O => []
  | S n' => i :: zrange (i + 1) n'
  end.

Definition all_trades (a : price_model_test.t) : list price_time :=
  map (price_model_test.trade_at a)
      (zrange 0 (Z.to_nat (price_model_test.trade_count a))).

Fixpoint trades_of (evs : list price_model_test.event) : list price_time :=
  match evs with
  | [] => []
  | price_model_test.ev_trade trade :: rest => trade :: trades_of rest
  | price_model_test.ev_eval _ _ :: rest => trades_of rest
  end.

Section Replay.

Context {V : Type} (VM : volatility_model V).

Fixpoint replay (evs : list price_model_test.event) (m : standard_price_model.t V)
  : result (standard_price_model.t V) :=
  match evs with
  | [] => Ok m
  | price_model_test.ev_trade trade :: rest =>
    m' <- standard_price_model.add_trade VM trade m ;; replay rest m'
  | price_model_test.ev_eval now _ :: rest =>
    ' (_, m') <- standard_price_model.eval_at_time VM now m ;; replay rest m'
  end.

Definition observe (now : timestamp) (m : standard_price_model.t V)
  : result (option price_estimate) :=
  ' (actual, _) <- standard_price_model.eval_at_time VM now m ;; Ok actual.

End Replay.

(** The confidence of a re-evaluation as the specification writes it:
    [max( vol * sqrt( years ) * |price|, min_interval )]. *)
Definition reevaluation_conf (vol : price_interval) (ns_since_trade min_slot_ns : nsecs)
  (price : price_val) (min_interval : price_interval) : price_interval :=
  let years := (as_interval (Z.max ns_since_trade min_slot_ns)
                / as_interval NS_PER_YEAR)%float in
  fmax (vol * sqrt years * as_interval (Z.abs price))%float min_interval.

(** The model a default-constructed [standard_price_model] is: a default
    [candle_model] under the default configuration. *)
Definition default_price_model : result (standard_price_model.t candle_model.t) :=
  c <- candle_model.new None None ;;
  standard_price_model.new c None None None None.

(** ** Sequences of calls on the price model *)

Section Feeding.

Context {V : Type} (VM : volatility_model V).

(** A sequence of [add_trade] calls on the price model, stopping at the
    first that throws. *)
Fixpoint feed_trades (trades : list price_time) (m : standard_price_model.t V)
  : result (standard_price_model.t V) :=
  match trades with
  | [] => Ok m
  | trade :: rest =>
    m' <- standard_price_model.add_trade VM trade m ;; feed_trades rest m'
  end.

End Feeding.

(** A range widened with a list of prices, in order. *)
Definition add_prices (prices : list price_val) (r : price_range.t) : price_range.t :=
  fold_left (fun r p => price_range.add_price p r) prices r.

(** ** The ring as a summary of the trades *)

(** The candles of the ring, newest first. *)
Definition ring_candles (m : candle_model.t) : list candle :=
  map (nth_newest m) (zrange 0 (Z.to_nat (candle_model.count_ m))).

(** One more trade on the candle of the bucket [b]: a trade of another
    bucket leaves it, the first trade of [b] opens it, a later one widens it
    with [std::max] and [std::min]. *)
Definition summarize_step (candle_ns : nsecs) (b : timestamp)
  (acc : option candle) (trade : price_time) : option candle :=
  if floor_time (time_ trade) candle_ns =? b then
    let p := as_interval (price_ trade) in
    Some match acc with
         | None => {| start := b; high := p; low := p |}
         | Some c => {| start := b; high := fmax (high c) p; low := fmin (low c) p |}
         end
  else acc.

(** The candle of the bucket [b] over a sequence of trades. *)
Definition summarize (candle_ns : nsecs) (b : timestamp) (trades : list price_time)
  : option candle :=
  fold_left (summarize_step candle_ns b) trades None.

(** The [n] most recent distinct buckets of a sequence of trades, the
    latest first. *)
Definition recent_buckets (candle_ns : nsecs) (trades : list price_time) (n : Z)
  : list timestamp :=
  firstn (Z.to_nat n) (rev (nodup Z.eq_dec (buckets candle_ns trades))).

(** What the ring holds of the trades fed so far. *)
Record contents_inv (m : candle_model.t) (seen : list price_time) : Prop := {
  cont_starts :
    map start (ring_candles m)
    = recent_buckets (candle_model.candle_ns_ m) seen (candle_model.capacity_ m);
  cont_candles :
    forall i, 0 <= i < candle_model.count_ m ->
      summarize (candle_model.candle_ns_ m) (start (nth_newest m i)) seen
      = Some (nth_newest m i);
  cont_last :
    seen = [] \/
    exists older, buckets (candle_model.candle_ns_ m) seen
                  = older ++ [start (front_candle m)]
}.

(** The first requirement of the loop of [eval_volatility] on a pair:
    [min_low > 0]. *)
Definition lows_positive (p : candle * candle) : bool :=
  let '(cur, prev) := p in (0 <? fmin (low cur) (low prev))%float.

(** The range that [add_trade] widens: the one since the last evaluation,
    or one opened at the price of the trade. *)
Definition range_or_open {V : Type} (m : standard_price_model.t V) (p : price_val)
  : price_range.t :=
  match standard_price_model.range_since_eval_ m with
  | Some r => r
  | None => price_range.open p
  end.

Definition range_ordered {V : Type} (m : standard_price_model.t V) : Prop :=
  match standard_price_model.range_since_eval_ m with
  | Some r => price_range.low_ r <= price_range.high_ r
  | None => True
  end.

(** ** The driver's comparison, read back *)

(** The evaluations among the driver's calls, with what they returned. *)
Fixpoint evals_of (evs : list price_model_test.event)
  : list (timestamp * result (option price_estimate)) :=
  match evs with
  | [] => []
  | price_model_test.ev_trade _ :: rest => evals_of rest
  | price_model_test.ev_eval now actual :: rest => (now, actual) :: evals_of rest
  end.

(** What the comparison of the [j]-th evaluation accepts: the expected price
    and the expected confidence within the relative tolerance for an
    estimate, the pair [(0, 0)] for none. *)
Definition expected_ok (a : price_model_test.t) (j : Z) (actual : option price_estimate)
  : Prop :=
  let expected_price := price_model_test.at_ 0 (price_model_test.eval_prices_ a) j in
  let expected_conf := price_model_test.at_ 0%float (price_model_test.eval_intervals_ a) j in
  match actual with
  | Some est =>
    est_price_ est = expected_price /\
    (expected_conf * (1 - price_model_test.conf_tol a) <=? conf_ est)%float = true /\
    (conf_ est <=? expected_conf * (1 + price_model_test.conf_tol a))%float = true
  | None =>
    expected_price = 0 /\ (expected_conf =? 0)%float = true
  end.

(** The [j]-th evaluation of a run that passed: at the [j]-th time of the
    column, returning something the comparison accepts. *)
Definition eval_passed (a : price_model_test.t) (j : Z)
  (ev : timestamp * result (option price_estimate)) : Prop :=
  exists actual,
    ev = (price_model_test.at_ 0 (price_model_test.eval_times_ a) j, Ok actual) /\
    expected_ok a j actual.

(** How the call [last], made in the state [m] as the [j]-th evaluation or as
    a trade, made the run fail with [e]: the model threw [e], or the
    comparison did not accept what the evaluation returned. *)
Definition call_failed {V : Type} (VM : volatility_model V) (a : price_model_test.t)
  (m : standard_price_model.t V) (j : Z) (last : price_model_test.event) (e : exception)
  : Prop :=
  match last with
  | price_model_test.ev_trade trade =>
    standard_price_model.add_trade VM trade m = Throw e
  | price_model_test.ev_eval now (Throw e') =>
    e' = e /\ standard_price_model.eval_at_time VM now m = Throw e
  | price_model_test.ev_eval now (Ok actual) =>
    (exists m', standard_price_model.eval_at_time VM now m = Ok (actual, m')) /\
    ~ expected_ok a j actual
  end.

(** ** Predicates and readings used by the proofs *)

Definition cmp_le (c : option comparison) : bool :=
  match c with Some Lt | Some Eq => true | _ => false end.
Definition cmp_lt (c : option comparison) : bool :=
  match c with Some Lt => true | _ => false end.

Record ring_inv (m : candle_model.t) (latest : option price_time) : Prop := {
  inv_wf : ring_wf m;
  inv_decreasing : starts_decreasing m;
  inv_lows_highs : lows_below_highs m;
  inv_front : front_covers m latest
}.

Definition or_latest (later latest : option price_time) : option price_time :=
  match later with
  | Some trade => Some trade
  | None => latest
  end.

(** What the count of the ring has to do with the trades fed so far. *)
Record count_inv (m : candle_model.t) (seen : list price_time) : Prop := {
  cnt_count :
    candle_model.count_ m =
    Z.min (distinct_buckets (candle_model.candle_ns_ m) seen) (candle_model.capacity_ m);
  cnt_below :
    forall b, In b (buckets (candle_model.candle_ns_ m) seen) ->
              b <= start (front_candle m);
  cnt_front :
    seen <> [] -> In (start (front_candle m)) (buckets (candle_model.candle_ns_ m) seen)
}.

Definition pair_at (m : candle_model.t) (k : nat) : candle * candle :=
  (nth_newest m (Z.of_nat k), nth_newest m (Z.of_nat k + 1)).

Section Turn.

Context {V : Type} (VM : volatility_model V).
Variable a : price_model_test.t.

(** One turn of the loop. *)
Inductive turn (fuel : nat) (s : price_model_test.state V)
  (evs : list price_model_test.event)
  (r : option (result (price_model_test.state V))) : Prop :=
| turn_fed (m : standard_price_model.t V) (evs' : list price_model_test.event) :
    price_model_test.next_action a s = price_model_test.feed_trade ->
    standard_price_model.add_trade VM
      (price_model_test.trade_at a (price_model_test.trade_idx s))
      (price_model_test.model s) = Ok m ->
    price_model_test.loop VM a fuel
      {| price_model_test.model := m;
         price_model_test.eval_idx := price_model_test.eval_idx s;
         price_model_test.trade_idx := price_model_test.trade_idx s + 1 |} = (evs', r) ->
    evs = price_model_test.ev_trade
            (price_model_test.trade_at a (price_model_test.trade_idx s)) :: evs' ->
    turn fuel s evs r
| turn_evaluated (actual : option price_estimate) (m : standard_price_model.t V)
    (evs' : list price_model_test.event) :
    price_model_test.next_action a s = price_model_test.evaluate ->
    standard_price_model.eval_at_time VM (price_model_test.eval_time a s)
      (price_model_test.model s) = Ok (actual, m) ->
    price_model_test.loop VM a fuel
      {| price_model_test.model := m;
         price_model_test.eval_idx := price_model_test.eval_idx s + 1;
         price_model_test.trade_idx := price_model_test.trade_idx s |} = (evs', r) ->
    evs = price_model_test.ev_eval (price_model_test.eval_time a s) (Ok actual) :: evs' ->
    turn fuel s evs r
| turn_last_trade :
    price_model_test.next_action a s = price_model_test.feed_trade ->
    evs = [price_model_test.ev_trade
             (price_model_test.trade_at a (price_model_test.trade_idx s))] ->
    turn fuel s evs r
| turn_last_eval :
    price_model_test.next_action a s = price_model_test.evaluate ->
    evs = [price_model_test.ev_eval (price_model_test.eval_time a s)
             (observe VM (price_model_test.eval_time a s) (price_model_test.model s))] ->
    turn fuel s evs r
| turn_stop :
    evs = [] -> turn fuel s evs r.

End Turn.

(** ** Inputs and states of the examples *)

(** Scenario 5 of the specification: [lookback = 2], three trades in three
    distinct one-minute buckets. *)
Definition warm_up_trades : list price_time :=
  [ {| price_ := 100; time_ := 5 * NS_PER_SEC |};
    {| price_ := 104; time_ := 70 * NS_PER_SEC |};
    {| price_ := 101; time_ := 130 * NS_PER_SEC |} ].

Definition fresh_ring_3 : candle_model.t :=
  {| candle_model.capacity_ := 3;
     candle_model.candle_ns_ := NS_PER_MIN;
     candle_model.count_ := 0;
     candle_model.front_ := 0;
     candle_model.starts_ := [0; 0; 0];
     candle_model.highs_ := [0; 0; 0]%float;
     candle_model.lows_ := [0; 0; 0]%float |}.

Definition warm_ring : candle_model.t :=
  Eval vm_compute in
    match add_trades warm_up_trades fresh_ring_3 with
    | Ok m => m
    | Throw _ => fresh_ring_3
    end.

(** A ring of two candles, filled by two trades at price 0 a minute apart. *)
Definition fresh_ring_2 : candle_model.t :=
  {| candle_model.capacity_ := 2;
     candle_model.candle_ns_ := NS_PER_MIN;
     candle_model.count_ := 0;
     candle_model.front_ := 0;
     candle_model.starts_ := [0; 0];
     candle_model.highs_ := [0; 0]%float;
     candle_model.lows_ := [0; 0]%float |}.

Definition zero_trades : list price_time :=
  [ {| price_ := 0; time_ := 0 |}; {| price_ := 0; time_ := NS_PER_MIN |} ].


Definition result_or {A : Type} (r : result A) (d : A) : A :=
  match r with
  | Ok a => a
  | Throw _ => d
  end.

Definition idle_model (c : candle_model.t) : standard_price_model.t candle_model.t :=
  {| standard_price_model.volatility_model_ := c;
     standard_price_model.min_interval_ := standard_price_model.DEFAULT_MIN_INTERVAL;
     standard_price_model.init_volatility_ := standard_price_model.DEFAULT_VOLATILITY;
     standard_price_model.timeout_ns_ := standard_price_model.DEFAULT_TIMEOUT;
     standard_price_model.min_slot_ns_ := standard_price_model.DEFAULT_MIN_SLOT;
     standard_price_model.last_trade_ := None;
     standard_price_model.range_since_eval_ := None |}.

Definition feed (trades : list price_time) (m : standard_price_model.t candle_model.t)
  : result (standard_price_model.t candle_model.t) :=
  fold_left
    (fun r trade =>
       m <- r ;; standard_price_model.add_trade (candle_model.tracker ln_series) trade m)
    trades (Ok m).

(** The default model after the trade [(100, 0)]. *)
Definition primed_model : standard_price_model.t candle_model.t :=
  Eval vm_compute in
    result_or (m0 <- default_price_model ;; feed [ {| price_ := 100; time_ := 0 |} ] m0)
              (idle_model fresh_ring_2).

(** ... and after its evaluation at time 0. *)
Definition drained_model : standard_price_model.t candle_model.t :=
  Eval vm_compute in
    result_or
      (' (_, m) <- standard_price_model.eval_at_time
                     (candle_model.tracker ln_series) 0 primed_model ;; Ok m)
      primed_model.

(** The model over a ring of two candles after two trades at price 0 a
    minute apart. *)
Definition zero_price_model : standard_price_model.t candle_model.t :=
  Eval vm_compute in
    result_or (m0 <- standard_price_model.new fresh_ring_2 None None None None ;;
               feed zero_trades m0)
              (idle_model fresh_ring_2).

(** The default model after the trade [(100, 10)]: the trade [(90, 5)] is
    older and falls in the same one-minute bucket. *)
Definition late_model : standard_price_model.t candle_model.t :=
  Eval vm_compute in
    result_or (m0 <- default_price_model ;; feed [ {| price_ := 100; time_ := 10 |} ] m0)
              (idle_model fresh_ring_2).

(** The default model after the trade [(-100, 0)], and after its evaluation
    at time 0. *)
Definition short_model : standard_price_model.t candle_model.t :=
  Eval vm_compute in
    result_or (m0 <- default_price_model ;; feed [ {| price_ := -100; time_ := 0 |} ] m0)
              (idle_model fresh_ring_2).

Definition short_model_drained : standard_price_model.t candle_model.t :=
  Eval vm_compute in
    result_or
      (' (_, m) <- standard_price_model.eval_at_time
                     (candle_model.tracker ln_series) 0 short_model ;; Ok m)
      short_model.

(** A run with a tie: trades at 1 s and 2 s, one evaluation at 2 s.  The
    expected confidence is the one the model gives. *)
Definition tie_test : price_model_test.t :=
  {| price_model_test.trade_times_ := Some [1 * NS_PER_SEC; 2 * NS_PER_SEC];
     price_model_test.trade_prices_ := Some [100; 110];
     price_model_test.eval_times_ := Some [2 * NS_PER_SEC];
     price_model_test.eval_prices_ := Some [100];
     price_model_test.eval_intervals_ := Some [0x1.23c0fe14394d6p-6%float];
     price_model_test.min_interval_ := None;
     price_model_test.init_volatility_ := None;
     price_model_test.timeout_ns_ := None;
     price_model_test.min_slot_ns_ := None;
     price_model_test.candle_ns_ := None;
     price_model_test.lookback_candles_ := None;
     price_model_test.conf_tolerance_ := None |}.

(** [test_empty] of the unit test: empty columns, the stub volatility
    model without a volatility. *)
Definition empty_test : price_model_test.t :=
  {| price_model_test.trade_times_ := Some [];
     price_model_test.trade_prices_ := Some [];
     price_model_test.eval_times_ := Some [];
     price_model_test.eval_prices_ := Some [];
     price_model_test.eval_intervals_ := Some [];
     price_model_test.min_interval_ := None;
     price_model_test.init_volatility_ := None;
     price_model_test.timeout_ns_ := None;
     price_model_test.min_slot_ns_ := None;
     price_model_test.candle_ns_ := None;
     price_model_test.lookback_candles_ := None;
     price_model_test.conf_tolerance_ := None |}.

Definition make_stub (vol : option price_interval) (_ : price_model_test.t)
  : result stub_volatility_model.t :=
  Ok {| stub_volatility_model.vol_ := vol |}.

(** The model evaluated at 0, then fed two more trades of the same minute. *)
Definition refed_trades : list price_time :=
  [ {| price_ := 104; time_ := 10 |}; {| price_ := 98; time_ := 20 |} ].

Definition refed_model : standard_price_model.t candle_model.t :=
  Eval vm_compute in
    result_or (feed_trades (candle_model.tracker ln_series) refed_trades drained_model)
              drained_model.



(** The run with a tie, with an expected price the model does not give. *)
Definition failing_test : price_model_test.t :=
  {| price_model_test.trade_times_ := Some [1 * NS_PER_SEC; 2 * NS_PER_SEC];
     price_model_test.trade_prices_ := Some [100; 110];
     price_model_test.eval_times_ := Some [2 * NS_PER_SEC];
     price_model_test.eval_prices_ := Some [101];
     price_model_test.eval_intervals_ := Some [0x1.23c0fe14394d6p-6%float];
     price_model_test.min_interval_ := None;
     price_model_test.init_volatility_ := None;
     price_model_test.timeout_ns_ := None;
     price_model_test.min_slot_ns_ := None;
     price_model_test.candle_ns_ := None;
     price_model_test.lookback_candles_ := None;
     price_model_test.conf_tolerance_ := None |}.

(** The arguments [--lookback 2 --candle-secs 60 --min-slot-ms 500
    --timeout-ms 60000] over the columns of the run with a tie. *)
Definition explicit_test : price_model_test.t :=
  {| price_model_test.trade_times_ := Some [1 * NS_PER_SEC; 2 * NS_PER_SEC];
     price_model_test.trade_prices_ := Some [100; 110];
     price_model_test.eval_times_ := Some [2 * NS_PER_SEC];
     price_model_test.eval_prices_ := Some [100];
     price_model_test.eval_intervals_ := Some [0x1.23c0fe14394d6p-6%float];
     price_model_test.min_interval_ := None;
     price_model_test.init_volatility_ := None;
     price_model_test.timeout_ns_ := Some (60000 * NS_PER_MS);
     price_model_test.min_slot_ns_ := Some (500 * NS_PER_MS);
     price_model_test.candle_ns_ := Some (60 * NS_PER_SEC);
     price_model_test.lookback_candles_ := Some 2;
     price_model_test.conf_tolerance_ := None |}.

(** Two trades in monotone order at and after [2^63], where the cast to
    [nsecs] gives negative times, and the ring of two candles after the
    first of them. *)
Definition wrap_trades : list price_time :=
  [ {| price_ := 100; time_ := 2 ^ 63 |}; {| price_ := 100; time_ := 2 ^ 64 - 2 |} ].

Definition wrap_ring : candle_model.t :=
  Eval vm_compute in
    result_or (add_trades [ {| price_ := 100; time_ := 2 ^ 63 |} ] fresh_ring_2)
              fresh_ring_2.

(** ** Comparison of doubles

    [<?] and [<=?] on [float] are specified by [SFcompare] on the decoded
    number; the order facts the candle model needs follow by cases. *)

Ltac cmp_step :=
  match goal with
  | H : context [Pos.compare_cont Eq ?a ?b] |- _ =>
      change (Pos.compare_cont Eq a b) with (Pos.compare a b) in *
  | |- context [Pos.compare_cont Eq ?a ?b] =>
      change (Pos.compare_cont Eq a b) with (Pos.compare a b) in *
  | H : context [Z.compare ?a ?b] |- _ => destruct (Z.compare_spec a b)
  | H : context [Pos.compare ?a ?b] |- _ => destruct (Pos.compare_spec a b)
  | |- context [Z.compare ?a ?b] => destruct (Z.compare_spec a b)
  | |- context [Pos.compare ?a ?b] => destruct (Pos.compare_spec a b)
  end; subst; simpl in *; try discriminate; try reflexivity; try (exfalso; lia).

Ltac sf_cases :=
  simpl; intros; try discriminate; try reflexivity;
  repeat match goal with s : bool |- _ => destruct s end;
  simpl in *; try discriminate; try reflexivity;
  repeat cmp_step.

Lemma SFcompare_le_lt_trans (a b c : spec_float) :
  cmp_le (SFcompare a b) = true -> cmp_lt (SFcompare b c) = true ->
  cmp_lt (SFcompare a c) = true.
Proof.
  destruct a as [sa|sa| |sa ma ea], b as [sb|sb| |sb mb eb], c as [sc|sc| |sc mc ec];
    sf_cases.
Qed.

Lemma SFcompare_lt_le_trans (a b c : spec_float) :
  cmp_lt (SFcompare a b) = true -> cmp_le (SFcompare b c) = true ->
  cmp_lt (SFcompare a c) = true.
Proof.
  destruct a as [sa|sa| |sa ma ea], b as [sb|sb| |sb mb eb], c as [sc|sc| |sc mc ec];
    sf_cases.
Qed.

Lemma SFcompare_refl (a : spec_float) : a <> S754_nan -> cmp_le (SFcompare a a) = true.
Proof.
  destruct a as [sa|sa| |sa ma ea]; sf_cases. congruence.
Qed.

Lemma iter_pos_preserves {A : Type} (P : A -> Prop) (f : A -> A) :
  (forall x, P x -> P (f x)) -> forall n x, P x -> P (iter_pos f n x).
Proof.
  intros Hf. induction n as [n IH|n IH|]; intros x Hx; simpl; auto.
Qed.

Lemma shr_1_nonneg (mrs : shr_record) : 0 <= shr_m mrs -> 0 <= shr_m (shr_1 mrs).
Proof.
  destruct mrs as [m r s]. simpl.
  destruct m as [|p|p]; [|destruct p|]; simpl; lia.
Qed.

Lemma shr_fexp_nonneg (m e : Z) (l : location) :
  0 <= m -> 0 <= shr_m (fst (shr_fexp prec emax m e l)).
Proof.
  intros Hm. unfold shr_fexp, shr.
  assert (H0 : 0 <= shr_m (shr_record_of_loc m l)).
  { destruct l as [|[]]; simpl; assumption. }
  destruct (fexp prec emax (Zdigits2 m + e) - e) as [|p|p]; simpl; try assumption.
  apply (iter_pos_preserves (fun r => 0 <= shr_m r)); [apply shr_1_nonneg|assumption].
Qed.

Lemma round_nearest_even_nonneg (m : Z) (l : location) :
  0 <= m -> 0 <= round_nearest_even m l.
Proof.
  intros Hm. destruct l as [|[]]; simpl; try assumption; try lia.
  destruct (Z.even m); lia.
Qed.

Lemma binary_round_aux_not_nan (sx : bool) (mx ex : Z) (lx : location) :
  0 <= mx -> binary_round_aux prec emax sx mx ex lx <> S754_nan.
Proof.
  intros Hm. unfold binary_round_aux.
  pose proof (shr_fexp_nonneg mx ex lx Hm) as H1.
  destruct (shr_fexp prec emax mx ex lx) as [mrs' e']. simpl in H1.
  pose proof (shr_fexp_nonneg _ e' loc_Exact
                (round_nearest_even_nonneg _ (loc_of_shr_record mrs') H1)) as H2.
  destruct (shr_fexp prec emax _ e' loc_Exact) as [mrs'' e'']. simpl in H2.
  destruct (shr_m mrs'') as [|p|p]; try discriminate; [|lia].
  destruct (e'' <=? emax - prec); discriminate.
Qed.

Lemma binary_normalize_not_nan (m : Z) :
  0 <= m -> binary_normalize prec emax m 0 false <> S754_nan.
Proof.
  intros Hm. destruct m as [|p|p]; simpl; try discriminate; [|lia].
  unfold binary_round. destruct (shl_align _ _ _) as [mz ez].
  apply binary_round_aux_not_nan. lia.
Qed.

Lemma of_uint63_not_nan (n : Uint63.int) : Prim2SF (of_uint63 n) <> S754_nan.
Proof.
  rewrite of_uint63_spec. apply binary_normalize_not_nan.
  pose proof (Uint63.to_Z_bounded n). lia.
Qed.

Lemma opp_not_nan (x : float) : Prim2SF x <> S754_nan -> Prim2SF (- x) <> S754_nan.
Proof.
  rewrite opp_spec. destruct (Prim2SF x); simpl; congruence.
Qed.

Lemma as_interval_not_nan (x : Z) : Prim2SF (as_interval x) <> S754_nan.
Proof.
  unfold as_interval. destruct (x <? 0); [destruct (x =? - 2 ^ 63)|].
  - vm_compute. discriminate.
  - apply opp_not_nan, of_uint63_not_nan.
  - apply of_uint63_not_nan.
Qed.

Lemma leb_cmp (x y : float) : (x <=? y)%float = cmp_le (SFcompare (Prim2SF x) (Prim2SF y)).
Proof. rewrite leb_spec. reflexivity. Qed.

Lemma ltb_cmp (x y : float) : (x <? y)%float = cmp_lt (SFcompare (Prim2SF x) (Prim2SF y)).
Proof. rewrite ltb_spec. reflexivity. Qed.

Lemma cmp_lt_le (c : option comparison) : cmp_lt c = true -> cmp_le c = true.
Proof. destruct c as [[]|]; simpl; congruence. Qed.

Lemma leb_refl (x : float) : Prim2SF x <> S754_nan -> (x <=? x)%float = true.
Proof. intros H. rewrite leb_cmp. apply SFcompare_refl, H. Qed.

Lemma as_interval_leb_refl (x : Z) : (as_interval x <=? as_interval x)%float = true.
Proof. apply leb_refl, as_interval_not_nan. Qed.

(** Widening a well-ordered candle with a number keeps it well ordered. *)
Lemma widen_keeps_order (lo hi p : float) :
  (lo <=? hi)%float = true -> (p <=? p)%float = true ->
  (fmin lo p <=? fmax hi p)%float = true.
Proof.
  intros Hlh Hp. unfold fmin, fmax.
  destruct (hi <? p)%float eqn:E1; destruct (p <? lo)%float eqn:E2; try assumption.
  - rewrite leb_cmp in *. rewrite ltb_cmp in *.
    apply cmp_lt_le. eapply SFcompare_le_lt_trans; eassumption.
  - rewrite leb_cmp in *. rewrite ltb_cmp in *.
    apply cmp_lt_le. eapply SFcompare_lt_le_trans; eassumption.
Qed.

(** ** Vectors *)

Lemma length_list_set {A : Type} (v : list A) (n : nat) (x : A) :
  List.length (list_set v n x) = List.length v.
Proof.
  revert n. induction v as [|h t IH]; intros [|n]; simpl; auto.
Qed.

Lemma nth_list_set_eq {A : Type} (v : list A) (n : nat) (x d : A) :
  (n < List.length v)%nat -> nth n (list_set v n x) d = x.
Proof.
  revert n. induction v as [|h t IH]; intros [|n] H; simpl in *; try lia; auto.
  apply IH. lia.
Qed.

Lemma nth_list_set_neq {A : Type} (v : list A) (n k : nat) (x d : A) :
  n <> k -> nth k (list_set v n x) d = nth k v d.
Proof.
  revert n k. induction v as [|h t IH]; intros [|n] [|k] H; simpl; auto; try lia.
Qed.

Lemma length_vset {A : Type} (v : list A) (i : Z) (x : A) :
  List.length (vset v i x) = List.length v.
Proof. apply length_list_set. Qed.

Lemma vget_vset_eq {A : Type} (d : A) (v : list A) (i : Z) (x : A) :
  0 <= i < Z.of_nat (List.length v) -> vget d (vset v i x) i = x.
Proof.
  intros H. unfold vget, vset. apply nth_list_set_eq. lia.
Qed.

Lemma vget_vset_neq {A : Type} (d : A) (v : list A) (i j : Z) (x : A) :
  0 <= i -> 0 <= j -> i <> j -> vget d (vset v i x) j = vget d v j.
Proof.
  intros Hi Hj H. unfold vget, vset. apply nth_list_set_neq. lia.
Qed.

Lemma mod_wrap (x c : Z) :
  0 < c -> 0 <= x < 2 * c -> x mod c = if x <? c then x else x - c.
Proof.
  intros Hc Hx. destruct (Z.ltb_spec x c).
  - apply Z.mod_small. lia.
  - symmetry. apply (Z.mod_unique x c 1 (x - c)); lia.
Qed.

(** ** Time primitives: properties *)

Lemma to_i64_id (x : Z) : is_i64 x -> to_i64 x = x.
Proof.
  unfold is_i64, to_i64. intros H. rewrite Z.mod_small; lia.
Qed.

Lemma to_u64_id (x : Z) : is_u64 x -> to_u64 x = x.
Proof.
  unfold is_u64, to_u64. intros H. apply Z.mod_small; lia.
Qed.

Lemma as_ns_small (ts : Z) : 0 <= ts < 2 ^ 63 -> as_ns ts = ts.
Proof.
  intros H. apply to_i64_id. unfold is_i64. lia.
Qed.

Lemma floor_time_small (ts interval : Z) :
  0 <= ts < 2 ^ 63 -> 0 < interval ->
  floor_time ts interval = ts - ts mod interval.
Proof.
  intros Hts Hi. unfold floor_time. rewrite (as_ns_small ts) by lia.
  rewrite Z.quot_div_nonneg by lia.
  pose proof (Z.div_mod ts interval ltac:(lia)) as Hdm.
  pose proof (Z.mod_pos_bound ts interval Hi) as Hm.
  assert (Hq : 0 <= ts / interval <= ts).
  { split; [apply Z.div_pos; lia|].
    apply Z.div_le_upper_bound; [lia|].
    assert (0 <= (interval - 1) * ts) by (apply Z.mul_nonneg_nonneg; lia). lia. }
  rewrite (to_i64_id (ts / interval)) by (unfold is_i64; lia).
  assert (Hp : ts / interval * interval = ts - ts mod interval) by lia.
  rewrite Hp, to_i64_id by (unfold is_i64; lia).
  apply to_u64_id. unfold is_u64. lia.
Qed.

(** C7, as the claim states it, fails above the signed range: the timestamp
    [2^63 + 1] is floored on the interval 2 to [2^63 + 2], which is above it. *)
Lemma floor_time_greatest_multiple_counterexample :
  is_u64 (2 ^ 63 + 1) /\ 0 < 2 /\
  floor_time (2 ^ 63 + 1) 2 = 2 ^ 63 + 2 /\
  ~ greatest_multiple_le (floor_time (2 ^ 63 + 1) 2) (2 ^ 63 + 1) 2.
Proof.
  assert (E : floor_time (2 ^ 63 + 1) 2 = 2 ^ 63 + 2) by (vm_compute; reflexivity).
  repeat split; try (unfold is_u64; lia); try exact E.
  rewrite E. intros (_ & H & _). lia.
Qed.

(** C7 (amended): for every timestamp below [2^63], the range on which the
    cast [as_ns] keeps the value, and every interval [> 0], [floor_time]
    yields the greatest multiple of the interval that is [<= ts]. *)
Theorem floor_time_greatest_multiple (ts interval : Z) :
  0 <= ts < 2 ^ 63 -> 0 < interval ->
  greatest_multiple_le (floor_time ts interval) ts interval.
Proof.
  intros Hts Hi. rewrite floor_time_small by assumption.
  pose proof (Z.div_mod ts interval ltac:(lia)) as Hdm.
  pose proof (Z.mod_pos_bound ts interval Hi) as Hm.
  repeat split.
  - exists (ts / interval). lia.
  - lia.
  - intros k Hk.
    assert (k <= ts / interval) by (apply Z.div_le_lower_bound; lia).
    nia.
Qed.

Lemma floor_time_greatest_multiple_witness :
  greatest_multiple_le (floor_time 125 60) 125 60.
Proof.
  apply (floor_time_greatest_multiple 125 60); lia.
Defined.

(** ** The candle ring *)

Ltac wf_facts H :=
  let C := fresh "Hcap" in let N := fresh "Hns" in let K := fresh "Hcount" in
  let F := fresh "Hfront" in let S := fresh "Hstarts" in let G := fresh "Hhighs" in
  let L := fresh "Hlows" in
  pose proof (wf_capacity _ H) as C; pose proof (wf_candle_ns _ H) as N;
  pose proof (wf_count _ H) as K; pose proof (wf_front _ H) as F;
  pose proof (wf_starts _ H) as S; pose proof (wf_highs _ H) as G;
  pose proof (wf_lows _ H) as L; unfold VECTOR_MAX_SIZE in C;
  unfold timestamp, price_interval in *.

Lemma length_repeat_Z {A : Type} (x : A) (n : Z) :
  0 <= n -> Z.of_nat (List.length (repeat x (Z.to_nat n))) = n.
Proof. intros H. rewrite repeat_length. lia. Qed.

Lemma new_ok (lookback : option Z) (candle_ns : option nsecs) (m : candle_model.t) :
  candle_model.new lookback candle_ns = Ok m ->
  ring_wf m /\ candle_model.count_ m = 0 /\
  candle_model.capacity_ m = to_u64 (1 + value_or lookback candle_model.DEFAULT_LOOKBACK) /\
  candle_model.candle_ns_ m = value_or candle_ns candle_model.DEFAULT_DURATION.
Proof.
  unfold candle_model.new, PC_ASSERT.
  set (cap := to_u64 _). set (ns := value_or candle_ns _).
  destruct (Z.gtb_spec cap 1) as [Hc|Hc]; simpl; [|discriminate].
  destruct (Z.gtb_spec ns 0) as [Hn|Hn]; simpl; [|discriminate].
  destruct (Z.gtb_spec cap VECTOR_MAX_SIZE) as [Hv|Hv]; [discriminate|].
  intros E. injection E as <-. simpl.
  repeat split; simpl; try lia; apply length_repeat_Z; lia.
Qed.

Lemma prepend_front (m : candle_model.t) (p : price_interval) (s : timestamp) :
  ring_wf m ->
  candle_model.front_ (candle_model.prepend p s m) =
  if candle_model.front_ m =? 0 then candle_model.capacity_ m - 1
  else candle_model.front_ m - 1.
Proof.
  intros H. wf_facts H. simpl.
  rewrite to_u64_id by (unfold is_u64; lia).
  rewrite mod_wrap by lia.
  destruct (Z.eqb_spec (candle_model.front_ m) 0);
    destruct (Z.ltb_spec (candle_model.front_ m + candle_model.capacity_ m - 1)
                (candle_model.capacity_ m)); lia.
Qed.

Lemma prepend_count (m : candle_model.t) (p : price_interval) (s : timestamp) :
  ring_wf m ->
  candle_model.count_ (candle_model.prepend p s m) =
  Z.min (candle_model.count_ m + 1) (candle_model.capacity_ m).
Proof.
  intros H. wf_facts H. simpl. rewrite to_u64_id by (unfold is_u64; lia). reflexivity.
Qed.

Lemma prepend_wf (m : candle_model.t) (p : price_interval) (s : timestamp) :
  ring_wf m -> ring_wf (candle_model.prepend p s m).
Proof.
  intros H. pose proof (prepend_front m p s H) as Hf.
  pose proof (prepend_count m p s H) as Hc. wf_facts H.
  constructor; rewrite ?Hf, ?Hc; simpl; rewrite ?length_vset;
    unfold VECTOR_MAX_SIZE, timestamp, price_interval in *; try lia.
  destruct (Z.eqb_spec (candle_model.front_ m) 0); lia.
Qed.

Lemma widen_wf (m : candle_model.t) (p : price_interval) :
  ring_wf m -> ring_wf (candle_model.widen p m).
Proof.
  intros H. wf_facts H.
  constructor; simpl; rewrite ?length_vset;
    unfold VECTOR_MAX_SIZE, timestamp, price_interval in *; lia.
Qed.

(** The slot of the [i]-th newest candle, for [i] within the ring. *)
Lemma slot_wrap (m : candle_model.t) (i : Z) :
  ring_wf m -> 0 <= i < candle_model.capacity_ m ->
  (candle_model.front_ m + i) mod candle_model.capacity_ m =
  if candle_model.front_ m + i <? candle_model.capacity_ m
  then candle_model.front_ m + i
  else candle_model.front_ m + i - candle_model.capacity_ m.
Proof.
  intros H Hi. wf_facts H. apply mod_wrap; lia.
Qed.

Lemma prepend_nth_newest_0 (m : candle_model.t) (p : price_interval) (s : timestamp) :
  ring_wf m ->
  nth_newest (candle_model.prepend p s m) 0 = {| start := s; high := p; low := p |}.
Proof.
  intros H. pose proof (prepend_wf m p s H) as H'.
  pose proof (prepend_front m p s H) as Hf. wf_facts H.
  unfold nth_newest. rewrite (slot_wrap _ 0 H') by (simpl; lia).
  rewrite Hf. change (candle_model.capacity_ (candle_model.prepend p s m))
    with (candle_model.capacity_ m).
  set (f := if candle_model.front_ m =? 0 then _ else _).
  assert (Hr : 0 <= f < candle_model.capacity_ m)
    by (subst f; destruct (Z.eqb_spec (candle_model.front_ m) 0); lia).
  replace (if f + 0 <? candle_model.capacity_ m then f + 0
           else f + 0 - candle_model.capacity_ m) with f
    by (destruct (Z.ltb_spec (f + 0) (candle_model.capacity_ m)); lia).
  simpl. rewrite to_u64_id by (unfold is_u64; lia).
  rewrite mod_wrap by lia.
  replace (if candle_model.front_ m + candle_model.capacity_ m - 1 <? candle_model.capacity_ m
           then candle_model.front_ m + candle_model.capacity_ m - 1
           else candle_model.front_ m + candle_model.capacity_ m - 1 - candle_model.capacity_ m)
    with f.
  2:{ subst f. destruct (Z.eqb_spec (candle_model.front_ m) 0);
        destruct (Z.ltb_spec (candle_model.front_ m + candle_model.capacity_ m - 1)
                    (candle_model.capacity_ m)); lia. }
  clearbody f. rewrite !vget_vset_eq by lia. reflexivity.
Qed.

Lemma prepend_nth_newest_succ (m : candle_model.t) (p : price_interval) (s : timestamp)
  (i : Z) :
  ring_wf m -> 1 <= i < candle_model.capacity_ m ->
  nth_newest (candle_model.prepend p s m) i = nth_newest m (i - 1).
Proof.
  intros H Hi. pose proof (prepend_wf m p s H) as H'.
  pose proof (prepend_front m p s H) as Hf. wf_facts H.
  unfold nth_newest. rewrite (slot_wrap _ i H') by (simpl; lia).
  rewrite (slot_wrap m (i - 1) H) by lia. rewrite Hf.
  change (candle_model.capacity_ (candle_model.prepend p s m))
    with (candle_model.capacity_ m).
  set (f := if candle_model.front_ m =? 0 then _ else _).
  set (k := if f + i <? _ then _ else _).
  set (k' := if candle_model.front_ m + (i - 1) <? _ then _ else _).
  assert (Hk : k = k' /\ 0 <= k < candle_model.capacity_ m /\ k <> f
               /\ 0 <= f < candle_model.capacity_ m).
  { subst k k' f. destruct (Z.eqb_spec (candle_model.front_ m) 0);
      repeat match goal with
             | |- context [?a <? ?b] => destruct (Z.ltb_spec a b)
             end; lia. }
  destruct Hk as (<- & Hk & Hne & Hfr).
  simpl. rewrite to_u64_id by (unfold is_u64; lia).
  rewrite mod_wrap by lia.
  replace (if candle_model.front_ m + candle_model.capacity_ m - 1 <? candle_model.capacity_ m
           then candle_model.front_ m + candle_model.capacity_ m - 1
           else candle_model.front_ m + candle_model.capacity_ m - 1 - candle_model.capacity_ m)
    with f.
  2:{ subst f. destruct (Z.eqb_spec (candle_model.front_ m) 0);
        destruct (Z.ltb_spec (candle_model.front_ m + candle_model.capacity_ m - 1)
                    (candle_model.capacity_ m)); lia. }
  clearbody f k. rewrite !vget_vset_neq by lia. reflexivity.
Qed.

Lemma widen_nth_newest_0 (m : candle_model.t) (p : price_interval) :
  ring_wf m ->
  nth_newest (candle_model.widen p m) 0 =
  {| start := start (front_candle m);
     high := fmax (high (front_candle m)) p;
     low := fmin (low (front_candle m)) p |}.
Proof.
  intros H. wf_facts H. unfold front_candle, nth_newest. simpl.
  rewrite Z.add_0_r, Z.mod_small by lia.
  rewrite !vget_vset_eq by lia. reflexivity.
Qed.

Lemma widen_nth_newest_other (m : candle_model.t) (p : price_interval) (i : Z) :
  ring_wf m -> 1 <= i < candle_model.capacity_ m ->
  nth_newest (candle_model.widen p m) i = nth_newest m i.
Proof.
  intros H Hi. wf_facts H. unfold nth_newest. simpl.
  rewrite (slot_wrap m i H) by lia.
  set (k := if _ <? _ then _ else _).
  assert (Hk : 0 <= k < candle_model.capacity_ m /\ k <> candle_model.front_ m).
  { subst k. destruct (Z.ltb_spec (candle_model.front_ m + i) (candle_model.capacity_ m)); lia. }
  clearbody k. rewrite !vget_vset_neq by lia. reflexivity.
Qed.

Lemma front_slot (m : candle_model.t) :
  ring_wf m ->
  vget 0 (candle_model.starts_ m) (candle_model.front_ m) = start (front_candle m).
Proof.
  intros H. wf_facts H. unfold front_candle, nth_newest. simpl.
  rewrite Z.add_0_r, Z.mod_small by lia. reflexivity.
Qed.

Lemma fmax_same (p : float) : fmax p p = p.
Proof. unfold fmax. destruct (p <? p)%float; reflexivity. Qed.

Lemma fmin_same (p : float) : fmin p p = p.
Proof. unfold fmin. destruct (p <? p)%float; reflexivity. Qed.

(** The two ways [add_trade] returns: a new front candle, or the front
    candle widened. *)
Lemma add_trade_cases (trade : price_time) (m m' : candle_model.t) :
  ring_wf m -> candle_model.add_trade trade m = Ok m' ->
  ((candle_model.count_ m = 0 \/
    start (front_candle m) < floor_time (time_ trade) (candle_model.candle_ns_ m)) /\
   m' = candle_model.widen (as_interval (price_ trade))
          (candle_model.prepend (as_interval (price_ trade))
             (floor_time (time_ trade) (candle_model.candle_ns_ m)) m)) \/
  (candle_model.count_ m <> 0 /\
   floor_time (time_ trade) (candle_model.candle_ns_ m) = start (front_candle m) /\
   m' = candle_model.widen (as_interval (price_ trade)) m).
Proof.
  intros H E. unfold candle_model.add_trade in E. rewrite (front_slot m H) in E.
  set (p := as_interval (price_ trade)) in *.
  set (s := floor_time (time_ trade) (candle_model.candle_ns_ m)) in *.
  destruct (Z.eqb_spec (candle_model.count_ m) 0) as [Hc|Hc]; cbn [orb] in E.
  - left. destruct (PC_ASSERT _ _); cbn [bind] in E; [|discriminate].
    injection E as <-. auto.
  - destruct (Z.gtb_spec s (start (front_candle m))) as [Hs|Hs].
    + left. destruct (PC_ASSERT _ _); cbn [bind] in E; [|discriminate].
      injection E as <-. split; [right; lia|reflexivity].
    + right. rewrite (front_slot m H) in E. unfold PC_ASSERT in E.
      destruct (Z.eqb_spec s (start (front_candle m))) as [Hq|Hq]; cbn [bind] in E;
        [|discriminate].
      injection E as <-. auto.
Qed.

(** [add_trade] returns when the trade does not fall before the front. *)
Lemma add_trade_returns (trade : price_time) (m : candle_model.t) :
  ring_wf m ->
  candle_model.count_ m = 0 \/
    start (front_candle m) <= floor_time (time_ trade) (candle_model.candle_ns_ m) ->
  exists m', candle_model.add_trade trade m = Ok m'.
Proof.
  intros H Hs. unfold candle_model.add_trade. rewrite (front_slot m H).
  set (p := as_interval (price_ trade)).
  set (s := floor_time (time_ trade) (candle_model.candle_ns_ m)) in *.
  assert (Hnew : PC_ASSERT
            (s =? vget 0 (candle_model.starts_ (candle_model.prepend p s m))
                    (candle_model.front_ (candle_model.prepend p s m)))
            "start == starts_[ front_ ]" = Ok tt).
  { rewrite (front_slot _ (prepend_wf m p s H)). unfold front_candle.
    rewrite prepend_nth_newest_0 by assumption. simpl. rewrite Z.eqb_refl. reflexivity. }
  destruct (Z.eqb_spec (candle_model.count_ m) 0) as [Hc|Hc]; cbn [orb].
  - rewrite Hnew. cbn [bind]. eauto.
  - destruct (Z.gtb_spec s (start (front_candle m))) as [Hg|Hg].
    + rewrite Hnew. cbn [bind]. eauto.
    + rewrite (front_slot m H). unfold PC_ASSERT.
      assert (Hq : s = start (front_candle m)) by (destruct Hs; lia).
      rewrite <- Hq, Z.eqb_refl. cbn [bind]. eauto.
Qed.

Lemma add_trade_inv (trade : price_time) (latest : option price_time)
  (m m' : candle_model.t) :
  ring_inv m latest -> candle_model.add_trade trade m = Ok m' ->
  ring_inv m' (Some trade).
Proof.
  intros [Hwf Hdec Hlh Hfr] E.
  pose proof (add_trade_cases trade m m' Hwf E) as Hcases.
  set (p := as_interval (price_ trade)) in *.
  set (s := floor_time (time_ trade) (candle_model.candle_ns_ m)) in *.
  pose proof Hwf as Hwf0. wf_facts Hwf0.
  destruct Hcases as [[Hnew ->]|(Hc & Hs & ->)].
  - (* a new front candle *)
    pose proof (prepend_wf m p s Hwf) as Hwf1.
    pose proof (prepend_count m p s Hwf) as Hcnt.
    assert (H0 : nth_newest (candle_model.widen p (candle_model.prepend p s m)) 0
                 = {| start := s; high := p; low := p |}).
    { rewrite widen_nth_newest_0 by assumption. unfold front_candle.
      rewrite prepend_nth_newest_0 by assumption. simpl.
      rewrite fmax_same, fmin_same. reflexivity. }
    assert (HS : forall i, 1 <= i < candle_model.capacity_ m ->
                 nth_newest (candle_model.widen p (candle_model.prepend p s m)) i
                 = nth_newest m (i - 1)).
    { intros i Hi. rewrite widen_nth_newest_other by (assumption || (simpl; lia)).
      apply prepend_nth_newest_succ; assumption. }
    assert (Hcnt' : candle_model.count_ (candle_model.widen p (candle_model.prepend p s m))
                    = Z.min (candle_model.count_ m + 1) (candle_model.capacity_ m))
      by exact Hcnt.
    constructor.
    + apply widen_wf, Hwf1.
    + intros i j Hi Hij Hj. rewrite Hcnt' in Hj.
      rewrite (HS j) by lia.
      destruct (Z.eq_dec i 0) as [->|Hne].
      * rewrite H0. cbn [start high low].
        destruct Hnew as [Hz|Hlt]; [lia|].
        destruct (Z.eq_dec (j - 1) 0) as [->|Hj1]; [exact Hlt|].
        unfold front_candle in Hlt.
        pose proof (Hdec 0 (j - 1)). lia.
      * rewrite (HS i) by lia. apply Hdec; lia.
    + intros i Hi. rewrite Hcnt' in Hi.
      destruct (Z.eq_dec i 0) as [->|Hne].
      * rewrite H0. cbn [start high low]. apply as_interval_leb_refl.
      * rewrite (HS i) by lia. apply Hlh. lia.
    + unfold front_covers. split; [rewrite Hcnt'; lia|].
      unfold front_candle. rewrite H0. reflexivity.
  - (* the front candle widened *)
    assert (H0 : nth_newest (candle_model.widen p m) 0
                 = {| start := s; high := fmax (high (front_candle m)) p;
                      low := fmin (low (front_candle m)) p |}).
    { rewrite widen_nth_newest_0 by assumption. rewrite Hs. reflexivity. }
    assert (HS : forall i, 1 <= i < candle_model.capacity_ m ->
                 nth_newest (candle_model.widen p m) i = nth_newest m i).
    { intros i Hi. apply widen_nth_newest_other; assumption. }
    constructor.
    + apply widen_wf, Hwf.
    + intros i j Hi Hij Hj. simpl in Hj. rewrite (HS j) by lia.
      destruct (Z.eq_dec i 0) as [->|Hne].
      * rewrite H0. cbn [start high low]. rewrite Hs. apply (Hdec 0 j); lia.
      * rewrite (HS i) by lia. apply Hdec; lia.
    + intros i Hi. simpl in Hi.
      destruct (Z.eq_dec i 0) as [->|Hne].
      * rewrite H0. cbn [start high low]. apply widen_keeps_order;
          [apply (Hlh 0); lia|apply as_interval_leb_refl].
      * rewrite (HS i) by lia. apply Hlh. lia.
    + unfold front_covers. split; [simpl; lia|].
      unfold front_candle. rewrite H0. reflexivity.
Qed.

(** ** Sequences of trades on the candle model *)

Lemma add_trades_inv (rest : list price_time) :
  forall (m m' : candle_model.t) (latest : option price_time),
  ring_inv m latest -> add_trades rest m = Ok m' ->
  ring_inv m' (or_latest (latest_trade rest) latest).
Proof.
  induction rest as [|trade rest IH]; intros m m' latest Hinv E; simpl in E.
  - injection E as <-. exact Hinv.
  - destruct (candle_model.add_trade trade m) as [m1|e] eqn:E1; simpl in E; [|discriminate].
    pose proof (IH m1 m' (Some trade) (add_trade_inv _ _ _ _ Hinv E1) E) as H.
    simpl. destruct (latest_trade rest); exact H.
Qed.

Lemma floor_time_monotone (t1 t2 interval : Z) :
  0 <= t1 -> t1 <= t2 -> t2 < 2 ^ 63 -> 0 < interval ->
  floor_time t1 interval <= floor_time t2 interval.
Proof.
  intros H1 H12 H2 Hi. rewrite !floor_time_small by lia.
  pose proof (Z.div_mod t1 interval ltac:(lia)).
  pose proof (Z.div_mod t2 interval ltac:(lia)).
  pose proof (Z.div_le_mono t1 t2 interval Hi H12).
  nia.
Qed.

Lemma add_trades_returns (rest : list price_time) :
  forall (m : candle_model.t) (latest : option price_time) (t0 : timestamp),
  ring_inv m latest -> 0 <= t0 ->
  (forall trade, latest = Some trade -> 0 <= time_ trade <= t0) ->
  monotone_from t0 rest -> signed_times rest ->
  exists m', add_trades rest m = Ok m'.
Proof.
  induction rest as [|trade rest IH]; intros m latest t0 Hinv Ht0 Hlat Hmono Hsigned;
    simpl.
  - eauto.
  - destruct Hmono as [Ht Hmono].
    apply Forall_cons_iff in Hsigned. destruct Hsigned as [Ht63 Hsigned].
    destruct (add_trade_returns trade m (inv_wf _ _ Hinv)) as [m1 E1].
    { pose proof (inv_front _ _ Hinv) as Hf. pose proof (inv_wf _ _ Hinv) as Hwf.
      wf_facts Hwf. unfold front_covers in Hf.
      destruct latest as [prev|]; [right|left; exact Hf].
      destruct Hf as [_ ->]. specialize (Hlat prev eq_refl).
      apply floor_time_monotone; lia. }
    rewrite E1. simpl.
    apply (IH m1 (Some trade) (time_ trade)); auto.
    + eapply add_trade_inv; eassumption.
    + lia.
    + intros x [= <-]. lia.
Qed.

Lemma new_inv (lookback : option Z) (candle_ns : option nsecs) (m0 : candle_model.t) :
  candle_model.new lookback candle_ns = Ok m0 -> ring_inv m0 None.
Proof.
  intros E. destruct (new_ok _ _ _ E) as (Hwf & Hc & _).
  constructor; try assumption.
  - intros i j Hi Hij Hj. lia.
  - intros i Hi. lia.
Qed.

(** ** Counting the buckets seen *)

Lemma nodup_snoc_fresh (x : Z) (l : list Z) :
  ~ In x l ->
  List.length (nodup Z.eq_dec (l ++ [x])) = S (List.length (nodup Z.eq_dec l)).
Proof.
  induction l as [|a l IH]; intros Hx; simpl; [reflexivity|].
  assert (Ha : a <> x) by (intros ->; apply Hx; left; reflexivity).
  assert (Hl : ~ In x l) by (intros H; apply Hx; right; exact H).
  destruct (in_dec Z.eq_dec a (l ++ [x])) as [Hin|Hin];
    destruct (in_dec Z.eq_dec a l) as [Hin'|Hin']; simpl; auto.
  - apply in_app_or in Hin. destruct Hin as [Hin|[Hin|[]]]; congruence.
  - exfalso. apply Hin, in_or_app. left. exact Hin'.
Qed.

Lemma nodup_snoc_seen (x : Z) (l : list Z) :
  In x l ->
  List.length (nodup Z.eq_dec (l ++ [x])) = List.length (nodup Z.eq_dec l).
Proof.
  induction l as [|a l IH]; intros Hx; simpl; [destruct Hx|].
  destruct (in_dec Z.eq_dec a (l ++ [x])) as [Hin|Hin];
    destruct (in_dec Z.eq_dec a l) as [Hin'|Hin']; simpl.
  - apply IH. destruct Hx as [->|Hx]; assumption.
  - apply in_app_or in Hin. destruct Hin as [Hin|[Hin|[]]]; [contradiction|].
    subst a. apply nodup_snoc_fresh. exact Hin'.
  - exfalso. apply Hin, in_or_app. left. exact Hin'.
  - destruct Hx as [->|Hx].
    + exfalso. apply Hin, in_or_app. right. left. reflexivity.
    + f_equal. apply IH. exact Hx.
Qed.

Lemma buckets_snoc (candle_ns : nsecs) (seen : list price_time) (trade : price_time) :
  buckets candle_ns (seen ++ [trade]) =
  buckets candle_ns seen ++ [floor_time (time_ trade) candle_ns].
Proof. unfold buckets. rewrite map_app. reflexivity. Qed.

Lemma add_trade_frame (trade : price_time) (m m' : candle_model.t) :
  ring_wf m -> candle_model.add_trade trade m = Ok m' ->
  candle_model.candle_ns_ m' = candle_model.candle_ns_ m /\
  candle_model.capacity_ m' = candle_model.capacity_ m.
Proof.
  intros H E. destruct (add_trade_cases _ _ _ H E) as [[_ ->]|(_ & _ & ->)];
    split; reflexivity.
Qed.

Lemma distinct_zero (candle_ns : nsecs) (seen : list price_time) :
  distinct_buckets candle_ns seen = 0 -> seen = [].
Proof.
  unfold distinct_buckets, buckets. destruct seen as [|x l]; [reflexivity|].
  simpl. intros H.
  destruct (in_dec Z.eq_dec (floor_time (time_ x) candle_ns)
              (map (fun trade => floor_time (time_ trade) candle_ns) l)) as [Hin|Hin].
  - exfalso. apply (nodup_In Z.eq_dec) in Hin.
    destruct (nodup Z.eq_dec _); [destruct Hin|simpl in H; lia].
  - simpl in H. lia.
Qed.

Lemma add_trade_count (trade : price_time) (latest : option price_time)
  (seen : list price_time) (m m' : candle_model.t) :
  ring_inv m latest -> count_inv m seen ->
  candle_model.add_trade trade m = Ok m' ->
  count_inv m' (seen ++ [trade]).
Proof.
  intros Hinv [Hcnt Hbelow Hfront] E.
  pose proof (inv_wf _ _ Hinv) as Hwf.
  destruct (add_trade_frame _ _ _ Hwf E) as [Hns Hcap].
  pose proof (inv_front _ _ (add_trade_inv _ _ _ _ Hinv E)) as [Hpos Hstart].
  rewrite Hns in Hstart.
  pose proof (add_trade_cases _ _ _ Hwf E) as Hcases.
  set (s := floor_time (time_ trade) (candle_model.candle_ns_ m)) in *.
  wf_facts Hwf.
  assert (Hd0 : 0 <= distinct_buckets (candle_model.candle_ns_ m) seen)
    by (unfold distinct_buckets; lia).
  constructor; rewrite ?Hns, ?Hcap, ?buckets_snoc; fold s.
  - unfold distinct_buckets in *. rewrite buckets_snoc. fold s.
    destruct Hcases as [[Hnew ->]|(Hc & Hs & ->)].
    + assert (Hfresh : ~ In s (buckets (candle_model.candle_ns_ m) seen)).
      { intros Hin. destruct Hnew as [Hz|Hlt].
        - rewrite Hz in Hcnt.
          assert (Hnil : seen = []) by (apply (distinct_zero (candle_model.candle_ns_ m));
                                        unfold distinct_buckets; lia).
          subst seen. destruct Hin.
        - apply Hbelow in Hin. lia. }
      rewrite nodup_snoc_fresh by assumption.
      change (candle_model.count_ (candle_model.widen _ (candle_model.prepend _ s m)))
        with (candle_model.count_ (candle_model.prepend (as_interval (price_ trade)) s m)).
      rewrite prepend_count by assumption. lia.
    + assert (Hseen : seen <> []).
      { intros ->. unfold buckets in Hcnt. simpl in Hcnt. lia. }
      rewrite nodup_snoc_seen by (rewrite Hs; apply Hfront, Hseen).
      simpl. exact Hcnt.
  - intros b Hin. rewrite Hstart.
    apply in_app_or in Hin. destruct Hin as [Hin|[<-|[]]]; [|lia].
    destruct Hcases as [[[Hz|Hlt] _]|(_ & Hs & _)];
      try (apply Hbelow in Hin; lia).
    rewrite Hz in Hcnt.
    assert (Hnil : seen = []) by (apply (distinct_zero (candle_model.candle_ns_ m)); lia).
    subst seen. destruct Hin.
  - intros _. rewrite Hstart. apply in_or_app. right. left. reflexivity.
Qed.

Lemma add_trades_count (rest : list price_time) :
  forall (m m' : candle_model.t) (latest : option price_time) (seen : list price_time),
  ring_inv m latest -> count_inv m seen -> add_trades rest m = Ok m' ->
  count_inv m' (seen ++ rest).
Proof.
  induction rest as [|trade rest IH]; intros m m' latest seen Hinv Hcnt E; simpl in E.
  - injection E as <-. rewrite app_nil_r. exact Hcnt.
  - destruct (candle_model.add_trade trade m) as [m1|e] eqn:E1; simpl in E; [|discriminate].
    replace (seen ++ trade :: rest) with ((seen ++ [trade]) ++ rest)
      by (rewrite <- app_assoc; reflexivity).
    apply (IH m1 m' (Some trade)).
    + eapply add_trade_inv; eassumption.
    + eapply add_trade_count; eassumption.
    + exact E.
Qed.

Lemma new_count_inv (lookback : option Z) (candle_ns : option nsecs) (m0 : candle_model.t) :
  candle_model.new lookback candle_ns = Ok m0 -> count_inv m0 [].
Proof.
  intros E. destruct (new_ok _ _ _ E) as (Hwf & Hc & _). wf_facts Hwf.
  constructor.
  - rewrite Hc. unfold distinct_buckets. simpl. lia.
  - intros b [].
  - intros H. congruence.
Qed.

Section CandleEval.

Variable std_log : float -> float.

(** The warm-up test of [eval_volatility]. *)
Lemma eval_volatility_absent (m : candle_model.t) :
  ring_wf m ->
  candle_model.eval_volatility std_log m = Ok None <->
  candle_model.count_ m < candle_model.capacity_ m.
Proof.
  intros H. wf_facts H. unfold candle_model.eval_volatility, PC_ASSERT.
  destruct (Z.leb_spec (candle_model.count_ m) (candle_model.capacity_ m)); [|lia].
  cbn [bind].
  destruct (Z.ltb_spec (candle_model.count_ m) (candle_model.capacity_ m)).
  - split; auto.
  - split; [|lia]. intros E.
    destruct (candle_model.eval_loop _ _ _ _ _) as [[numer denom]|e];
      cbn [bind] in E; discriminate.
Qed.

Lemma eval_at_time_absent (now : timestamp) (m : candle_model.t) :
  candle_model.eval_at_time std_log now m = Ok (None, m) <->
  candle_model.eval_volatility std_log m = Ok None.
Proof.
  unfold candle_model.eval_at_time.
  destruct (candle_model.eval_volatility std_log m) as [[v|]|e]; cbn [bind];
    split; intros E; try discriminate; reflexivity.
Qed.

(** C2: feed the candle model any sequence of trades.  A monotone one
    whose times are below [2^63] is taken whole: no call throws.  After any
    sequence that was taken whole, [eval_volatility], and [eval_at_time] at
    whatever timestamp, return an absent optional if and only if fewer than
    [lookback + 1] distinct candle buckets have been seen.  (From [2^63] on
    the buckets of a monotone sequence may go back, and the trade is
    refused: see the counterexample.) *)
Theorem volatility_absent_iff_warming_up
  (lookback : option Z) (candle_ns : option nsecs)
  (trades : list price_time) (m0 : candle_model.t) :
  0 <= value_or lookback candle_model.DEFAULT_LOOKBACK < 2 ^ 64 ->
  candle_model.new lookback candle_ns = Ok m0 ->
  (monotone trades -> signed_times trades ->
   exists m, add_trades trades m0 = Ok m) /\
  (forall m, add_trades trades m0 = Ok m ->
     let seen := distinct_buckets
                   (value_or candle_ns candle_model.DEFAULT_DURATION) trades in
     let needed := value_or lookback candle_model.DEFAULT_LOOKBACK + 1 in
     (candle_model.eval_volatility std_log m = Ok None <-> seen < needed) /\
     (forall now,
        candle_model.eval_at_time std_log now m = Ok (None, m) <-> seen < needed)).
Proof.
  intros Hlb Enew. pose proof (new_inv _ _ _ Enew) as Hinv.
  split.
  - intros Hmono Hsigned.
    apply (add_trades_returns trades m0 None 0); auto; try lia.
    intros trade [=].
  - intros m E seen needed.
    pose proof (add_trades_inv trades m0 m None Hinv E) as Hinv'.
    pose proof (add_trades_count trades m0 m None [] Hinv (new_count_inv _ _ _ Enew) E)
      as [Hcnt _ _].
    simpl in Hcnt.
    destruct (new_ok _ _ _ Enew) as (Hwf0 & _ & Hcap0 & Hns0).
    assert (Hframe : forall l a b, ring_wf a -> add_trades l a = Ok b ->
              candle_model.candle_ns_ b = candle_model.candle_ns_ a /\
              candle_model.capacity_ b = candle_model.capacity_ a /\ ring_wf b).
    { induction l as [|x l IH]; intros a b Ha Eab; simpl in Eab.
      - injection Eab as <-. auto.
      - destruct (candle_model.add_trade x a) as [a1|e] eqn:E1; simpl in Eab;
          [|discriminate].
        destruct (add_trade_frame _ _ _ Ha E1) as [<- <-].
        assert (Ha1 : ring_wf a1).
        { destruct (add_trade_cases _ _ _ Ha E1) as [[_ ->]|(_ & _ & ->)];
            auto using widen_wf, prepend_wf. }
        apply IH; assumption. }
    destruct (Hframe trades m0 m Hwf0 E) as (Hns & Hcap & Hwf).
    rewrite Hns, Hns0 in Hcnt. fold seen in Hcnt.
    assert (Hneeded : candle_model.capacity_ m = needed).
    { rewrite Hcap, Hcap0. subst needed. wf_facts Hwf0. rewrite Hcap0 in Hcap1.
      unfold to_u64 in *.
      destruct (Z.eq_dec (value_or lookback candle_model.DEFAULT_LOOKBACK) (2 ^ 64 - 1))
        as [Heq|Hne].
      - rewrite Heq in Hcap1.
        change ((1 + (2 ^ 64 - 1)) mod 2 ^ 64) with 0 in Hcap1. lia.
      - rewrite Z.mod_small by lia. lia. }
    assert (Hiff : candle_model.count_ m < candle_model.capacity_ m <-> seen < needed).
    { rewrite Hcnt, Hneeded. lia. }
    split.
    + rewrite eval_volatility_absent by assumption. exact Hiff.
    + intros now. rewrite eval_at_time_absent, eval_volatility_absent by assumption.
      exact Hiff.
Qed.

End CandleEval.

Lemma volatility_absent_iff_warming_up_witness :
  (monotone warm_up_trades -> signed_times warm_up_trades ->
   exists m, add_trades warm_up_trades fresh_ring_3 = Ok m) /\
  (forall m, add_trades warm_up_trades fresh_ring_3 = Ok m ->
     let seen := distinct_buckets
                   (value_or None candle_model.DEFAULT_DURATION) warm_up_trades in
     let needed := value_or (Some 2) candle_model.DEFAULT_LOOKBACK + 1 in
     (candle_model.eval_volatility ln_series m = Ok None <-> seen < needed) /\
     (forall now,
        candle_model.eval_at_time ln_series now m = Ok (None, m) <-> seen < needed)).
Proof.
  apply (volatility_absent_iff_warming_up ln_series (Some 2) None warm_up_trades
           fresh_ring_3).
  - simpl. lia.
  - reflexivity.
Defined.

(** The trades at [2^63] and [2^64 - 2] are in monotone order, but their
    buckets are [2^63 + 16854775808] and then [0]: the second trade is
    refused.  The ring the first trade leaves returns an absent volatility
    although the two trades have [lookback + 1 = 2] distinct buckets. *)
Lemma volatility_absent_iff_warming_up_counterexample :
  monotone wrap_trades /\
  Forall (fun trade => is_u64 (time_ trade)) wrap_trades /\
  candle_model.new (Some 1) None = Ok fresh_ring_2 /\
  add_trades wrap_trades fresh_ring_2
  = Throw (assertion_error "start == starts_[ front_ ]") /\
  add_trades [ {| price_ := 100; time_ := 2 ^ 63 |} ] fresh_ring_2 = Ok wrap_ring /\
  candle_model.add_trade {| price_ := 100; time_ := 2 ^ 64 - 2 |} wrap_ring
  = Throw (assertion_error "start == starts_[ front_ ]") /\
  candle_model.eval_volatility ln_series wrap_ring = Ok None /\
  buckets candle_model.DEFAULT_DURATION wrap_trades = [2 ^ 63 + 16854775808; 0] /\
  ~ distinct_buckets candle_model.DEFAULT_DURATION wrap_trades < 1 + 1.
Proof.
  split. { cbv [monotone monotone_from wrap_trades time_]. lia. }
  split. { repeat constructor; cbv [time_ is_u64]; lia. }
  split; [reflexivity|].
  split; [vm_compute; reflexivity|].
  split; [vm_compute; reflexivity|].
  split; [vm_compute; reflexivity|].
  split; [vm_compute; reflexivity|].
  split; [vm_compute; reflexivity|].
  vm_compute. discriminate.
Qed.


(** C4: feed the candle model any sequence of trades.  A monotone one
    whose times are below [2^63] is taken whole: no call throws (from
    [2^63] on a monotone trade may be refused, and the front candle is then
    not the bucket of the latest trade: see the counterexample).  After any
    sequence that was taken whole the candle
    starts are strictly decreasing from front to back, the front candle's
    start is [floor_time] of the latest trade's time on [candle_duration_ns],
    and [low <= high] holds for every stored candle. *)
Theorem candle_ring_invariants
  (lookback : option Z) (candle_ns : option nsecs)
  (trades : list price_time) (m0 : candle_model.t) :
  candle_model.new lookback candle_ns = Ok m0 ->
  (monotone trades -> signed_times trades ->
   exists m, add_trades trades m0 = Ok m) /\
  (forall m, add_trades trades m0 = Ok m ->
     starts_decreasing m /\
     front_covers m (latest_trade trades) /\
     lows_below_highs m).
Proof.
  intros Enew. pose proof (new_inv _ _ _ Enew) as Hinv.
  split.
  - intros Hmono Hsigned.
    apply (add_trades_returns trades m0 None 0); auto; try lia.
    intros trade [=].
  - intros m E.
    destruct (add_trades_inv trades m0 m None Hinv E) as [_ Hdec Hlh Hfr].
    repeat split; try assumption.
    destruct (latest_trade trades); exact Hfr.
Qed.

Lemma candle_ring_invariants_witness :
  (monotone warm_up_trades -> signed_times warm_up_trades ->
   exists m, add_trades warm_up_trades fresh_ring_3 = Ok m) /\
  (forall m, add_trades warm_up_trades fresh_ring_3 = Ok m ->
     starts_decreasing m /\
     front_covers m (latest_trade warm_up_trades) /\
     lows_below_highs m).
Proof.
  apply (candle_ring_invariants (Some 2) None warm_up_trades fresh_ring_3).
  reflexivity.
Defined.

(** The trades at [2^63] and [2^64 - 2] are in monotone order, but the
    second falls in the bucket [0], before the front candle's: it is
    refused, and the front candle stays at the bucket of the first trade,
    which is not the bucket of the latest trade. *)
Lemma candle_ring_invariants_counterexample :
  monotone wrap_trades /\
  Forall (fun trade => is_u64 (time_ trade)) wrap_trades /\
  candle_model.new (Some 1) None = Ok fresh_ring_2 /\
  add_trades wrap_trades fresh_ring_2
  = Throw (assertion_error "start == starts_[ front_ ]") /\
  add_trades [ {| price_ := 100; time_ := 2 ^ 63 |} ] fresh_ring_2 = Ok wrap_ring /\
  candle_model.add_trade {| price_ := 100; time_ := 2 ^ 64 - 2 |} wrap_ring
  = Throw (assertion_error "start == starts_[ front_ ]") /\
  start (front_candle wrap_ring) = 2 ^ 63 + 16854775808 /\
  floor_time (2 ^ 64 - 2) candle_model.DEFAULT_DURATION = 0 /\
  ~ front_covers wrap_ring (latest_trade wrap_trades).
Proof.
  split. { cbv [monotone monotone_from wrap_trades time_]. lia. }
  split. { repeat constructor; cbv [time_ is_u64]; lia. }
  split; [reflexivity|].
  split; [vm_compute; reflexivity|].
  split; [vm_compute; reflexivity|].
  split; [vm_compute; reflexivity|].
  split; [vm_compute; reflexivity|].
  split; [vm_compute; reflexivity|].
  intros [_ H]. vm_compute in H. discriminate H.
Qed.


(** ** The volatility formula *)

Lemma SFmul_comm (x y : spec_float) : SF64mul x y = SF64mul y x.
Proof.
  unfold SF64mul, SFmul.
  destruct x as [sx|sx| |sx mx ex], y as [sy|sy| |sy my ey];
    try reflexivity; try (rewrite xorb_comm; reflexivity).
  rewrite xorb_comm, Pos.mul_comm, Z.add_comm. reflexivity.
Qed.

Lemma fmul_comm (x y : float) : (x * y)%float = (y * x)%float.
Proof.
  apply Prim2SF_inj. rewrite !mul_spec. apply SFmul_comm.
Qed.

Section Volatility.

Variable std_log : float -> float.



Lemma adjacent_pairs_seq (m : candle_model.t) :
  adjacent_pairs m = map (pair_at m) (seq 0 (Z.to_nat (candle_model.count_ m - 1))).
Proof. reflexivity. Qed.


End Volatility.



(** The three warm-up trades give an annualised volatility of about 10.65. *)
Example warm_ring_volatility :
  add_trades warm_up_trades fresh_ring_3 = Ok warm_ring /\
  forallb (pair_ok NS_PER_MIN) (adjacent_pairs warm_ring) = true /\
  candle_model.eval_volatility ln_series warm_ring
  = Ok (Some (parkinson_volatility ln_series warm_ring)) /\
  (10.625 <? parkinson_volatility ln_series warm_ring)%float = true /\
  (parkinson_volatility ln_series warm_ring <? 10.75)%float = true.
Proof. vm_compute. repeat split; reflexivity. Qed.


(** ** The price model *)

Section PriceModel.

Context {V : Type} (VM : volatility_model V).

Lemma set_volatility_model_same (m : standard_price_model.t V) :
  standard_price_model.set_volatility_model
    (standard_price_model.volatility_model_ m) m = m.
Proof. destruct m. reflexivity. Qed.

Lemma set_range_none_same (m : standard_price_model.t V) :
  standard_price_model.range_since_eval_ m = None ->
  standard_price_model.set_range_since_eval None m = m.
Proof. destruct m. simpl. intros ->. reflexivity. Qed.

(** What the constructor checks, kept by every method (the fields are
    [const]). *)
Lemma new_config (v : V) (min_conf : option price_interval) (timeout min_slot : option nsecs)
  (init : option price_interval) (m : standard_price_model.t V) :
  standard_price_model.new v min_conf timeout min_slot init = Ok m ->
  0 <= standard_price_model.min_slot_ns_ m < standard_price_model.timeout_ns_ m /\
  standard_price_model.last_trade_ m = None /\
  standard_price_model.range_since_eval_ m = None.
Proof.
  unfold standard_price_model.new, PC_ASSERT.
  destruct (0 <=? _)%float; cbn [bind]; [|discriminate].
  destruct (0 <=? _)%float; cbn [bind]; [|discriminate].
  destruct (Z.geb_spec (value_or min_slot standard_price_model.DEFAULT_MIN_SLOT) 0);
    cbn [bind]; [|discriminate].
  destruct (Z.ltb_spec (value_or min_slot standard_price_model.DEFAULT_MIN_SLOT)
              (value_or timeout standard_price_model.DEFAULT_TIMEOUT));
    cbn [bind]; [|discriminate].
  intros [= <-]. simpl. repeat split; lia.
Qed.

(** C3: in every state with a last trade, an evaluation at a time more than
    [timeout_ns] after it returns no estimate and the state it leaves is the
    state it found: [range_since_eval] is kept, [last_trade] is unchanged, and
    the volatility model is as it was.  The result is the same for every
    volatility model, one whose query throws or mutates included: it is not
    queried.  ([0 <= timeout_ns_] is what the constructor asserts.) *)
Theorem stale_eval_changes_nothing (m : standard_price_model.t V) (now : timestamp) (last : price_time) :
  0 <= standard_price_model.timeout_ns_ m ->
  standard_price_model.last_trade_ m = Some last ->
  standard_price_model.timeout_ns_ m < diff_times now (time_ last) ->
  standard_price_model.eval_at_time VM now m = Ok (None, m).
Proof.
  intros Hto Hlast Hstale. unfold standard_price_model.eval_at_time, PC_ASSERT.
  rewrite Hlast.
  destruct (Z.geb_spec (diff_times now (time_ last)) 0); [|lia].
  cbn [bind].
  destruct (Z.gtb_spec (diff_times now (time_ last)) (standard_price_model.timeout_ns_ m));
    [reflexivity|lia].
Qed.

(** An evaluation within the timeout, given what the volatility query
    returns. *)
Lemma eval_at_time_fresh (m : standard_price_model.t V) (now : timestamp) (last : price_time)
  (vol : option price_interval) (v : V) :
  standard_price_model.last_trade_ m = Some last ->
  0 <= diff_times now (time_ last) <= standard_price_model.timeout_ns_ m ->
  vol_eval_at_time now (standard_price_model.volatility_model_ m) = Ok (vol, v) ->
  let years :=
    (as_interval (Z.max (diff_times now (time_ last)) (standard_price_model.min_slot_ns_ m))
     / as_interval NS_PER_YEAR)%float in
  let base :=
    fmax (value_or vol (standard_price_model.init_volatility_ m)
          * sqrt years * as_interval (price_ last))%float
         (standard_price_model.min_interval_ m) in
  standard_price_model.eval_at_time VM now m =
  Ok (Some {| est_price_ := price_ last;
              conf_ := match standard_price_model.range_since_eval_ m with
                       | Some range => fmax base (price_range.interval range)
                       | None => base
                       end |},
      standard_price_model.set_range_since_eval None
        (standard_price_model.set_volatility_model v m)).
Proof.
  intros Hlast Hel Hvol years base.
  unfold standard_price_model.eval_at_time, PC_ASSERT.
  rewrite Hlast.
  destruct (Z.geb_spec (diff_times now (time_ last)) 0); [|lia].
  cbn [bind].
  destruct (Z.gtb_spec (diff_times now (time_ last)) (standard_price_model.timeout_ns_ m));
    [lia|].
  rewrite Hvol. cbn [bind].
  destruct m as [v0 mi iv to ms lt [range|]]; reflexivity.
Qed.

Lemma eval_at_time_throws (m : standard_price_model.t V) (now : timestamp) (last : price_time) (e : exception) :
  standard_price_model.last_trade_ m = Some last ->
  0 <= diff_times now (time_ last) <= standard_price_model.timeout_ns_ m ->
  vol_eval_at_time now (standard_price_model.volatility_model_ m) = Throw e ->
  standard_price_model.eval_at_time VM now m = Throw e.
Proof.
  intros Hlast Hel Hvol.
  unfold standard_price_model.eval_at_time, PC_ASSERT.
  rewrite Hlast.
  destruct (Z.geb_spec (diff_times now (time_ last)) 0); [|lia].
  cbn [bind].
  destruct (Z.gtb_spec (diff_times now (time_ last)) (standard_price_model.timeout_ns_ m));
    [lia|].
  rewrite Hvol. reflexivity.
Qed.

(** An evaluation that returns an estimate was within the timeout, and its
    volatility query returned. *)
Lemma eval_at_time_some (m m1 : standard_price_model.t V) (now : timestamp) (last : price_time)
  (est : price_estimate) :
  standard_price_model.last_trade_ m = Some last ->
  standard_price_model.eval_at_time VM now m = Ok (Some est, m1) ->
  0 <= diff_times now (time_ last) <= standard_price_model.timeout_ns_ m /\
  exists vol v,
    vol_eval_at_time now (standard_price_model.volatility_model_ m) = Ok (vol, v).
Proof.
  intros Hlast E. unfold standard_price_model.eval_at_time, PC_ASSERT in E.
  rewrite Hlast in E.
  destruct (Z.geb_spec (diff_times now (time_ last)) 0); cbn [bind] in E; [|discriminate].
  destruct (Z.gtb_spec (diff_times now (time_ last)) (standard_price_model.timeout_ns_ m));
    [discriminate|].
  split; [lia|].
  destruct (vol_eval_at_time now _) as [[vol v]|e]; cbn [bind] in E; [eauto|discriminate].
Qed.

End PriceModel.

(** ** The price model over the candle model *)

Section CandlePriceModel.

Variable std_log : float -> float.

Lemma candle_query (now : timestamp) (c : candle_model.t) :
  vol_eval_at_time (volatility_model := candle_model.tracker std_log) now c =
  match candle_model.eval_volatility std_log c with
  | Ok vol => Ok (vol, c)
  | Throw e => Throw e
  end.
Proof.
  simpl. unfold candle_model.eval_at_time.
  destruct (candle_model.eval_volatility std_log c); reflexivity.
Qed.

(** C9 (amended): in every state in which [last_trade] is present,
    [0 <= diff_times( now, last_trade.time ) <= timeout_ns] and the candle
    model's [eval_volatility] does not throw, [eval_at_time( now )] returns
    an estimate whose price is [last_trade.price], and the only change of
    state is that [range_since_eval] is cleared: [last_trade], the candle
    model (its starts, highs, lows, front and count) and the configuration
    fields are unchanged.  When [eval_volatility] throws, so does
    [eval_at_time]. *)
Theorem fresh_eval_clears_only_range
  (m : standard_price_model.t candle_model.t) (now : timestamp) (last : price_time) :
  standard_price_model.last_trade_ m = Some last ->
  0 <= diff_times now (time_ last) <= standard_price_model.timeout_ns_ m ->
  (forall vol,
     candle_model.eval_volatility std_log (standard_price_model.volatility_model_ m) = Ok vol ->
     exists conf m',
       standard_price_model.eval_at_time (candle_model.tracker std_log) now m =
       Ok (Some {| est_price_ := price_ last; conf_ := conf |}, m') /\
       standard_price_model.range_since_eval_ m' = None /\
       standard_price_model.last_trade_ m' = standard_price_model.last_trade_ m /\
       standard_price_model.volatility_model_ m' = standard_price_model.volatility_model_ m /\
       standard_price_model.min_interval_ m' = standard_price_model.min_interval_ m /\
       standard_price_model.init_volatility_ m' = standard_price_model.init_volatility_ m /\
       standard_price_model.timeout_ns_ m' = standard_price_model.timeout_ns_ m /\
       standard_price_model.min_slot_ns_ m' = standard_price_model.min_slot_ns_ m) /\
  (forall e,
     candle_model.eval_volatility std_log (standard_price_model.volatility_model_ m) = Throw e ->
     standard_price_model.eval_at_time (candle_model.tracker std_log) now m = Throw e).
Proof.
  intros Hlast Hel. split.
  - intros vol Hvol.
    pose proof (eval_at_time_fresh (candle_model.tracker std_log) m now last vol
                  (standard_price_model.volatility_model_ m) Hlast Hel) as E.
    rewrite candle_query, Hvol in E. specialize (E eq_refl). cbv zeta in E.
    rewrite set_volatility_model_same in E.
    eexists. eexists. split; [exact E|]. repeat split.
  - intros e Hvol.
    apply (eval_at_time_throws (candle_model.tracker std_log) m now last e Hlast Hel).
    rewrite candle_query, Hvol. reflexivity.
Qed.

(** C10: in every state whose front candle is that of bucket [B], a trade
    [(p, t)] with [floor_time( t, candle_duration_ns ) = B] is taken by the
    candle model and by the price model without an assertion failure,
    whatever [t] is next to the previous trade's time: the front candle is
    widened with [p] and [last_trade] becomes [(p, t)]. *)
Theorem same_bucket_trade_accepted
  (m : standard_price_model.t candle_model.t) (p : price_val) (t : timestamp) :
  ring_wf (standard_price_model.volatility_model_ m) ->
  candle_model.count_ (standard_price_model.volatility_model_ m) <> 0 ->
  floor_time t (candle_model.candle_ns_ (standard_price_model.volatility_model_ m))
  = start (front_candle (standard_price_model.volatility_model_ m)) ->
  candle_model.add_trade {| price_ := p; time_ := t |}
    (standard_price_model.volatility_model_ m)
  = Ok (candle_model.widen (as_interval p) (standard_price_model.volatility_model_ m)) /\
  front_candle (candle_model.widen (as_interval p) (standard_price_model.volatility_model_ m))
  = {| start := start (front_candle (standard_price_model.volatility_model_ m));
       high := fmax (high (front_candle (standard_price_model.volatility_model_ m)))
                 (as_interval p);
       low := fmin (low (front_candle (standard_price_model.volatility_model_ m)))
                (as_interval p) |} /\
  exists m',
    standard_price_model.add_trade (candle_model.tracker std_log)
      {| price_ := p; time_ := t |} m = Ok m' /\
    standard_price_model.last_trade_ m' = Some {| price_ := p; time_ := t |} /\
    standard_price_model.volatility_model_ m'
    = candle_model.widen (as_interval p) (standard_price_model.volatility_model_ m).
Proof.
  set (c := standard_price_model.volatility_model_ m).
  intros Hwf Hcount Hbucket.
  assert (E : candle_model.add_trade {| price_ := p; time_ := t |} c
              = Ok (candle_model.widen (as_interval p) c)).
  { unfold candle_model.add_trade. cbn [price_ time_].
    rewrite (front_slot c Hwf), Hbucket.
    destruct (Z.eqb_spec (candle_model.count_ c) 0) as [|_]; [contradiction|].
    cbn [orb].
    destruct (Z.gtb_spec (start (front_candle c)) (start (front_candle c))); [lia|].
    unfold PC_ASSERT. rewrite (front_slot c Hwf), Z.eqb_refl. reflexivity. }
  split; [exact E|]. split.
  - apply widen_nth_newest_0. exact Hwf.
  - unfold standard_price_model.add_trade. cbn [vol_add_trade candle_model.tracker price_].
    fold c. rewrite E. cbn [bind]. eexists. split; [reflexivity|].
    split; reflexivity.
Qed.

(** C8 (amended): an evaluation at the same timestamp right after one that
    returned an estimate, with no trade in between, returns the same price
    and the confidence [max( vol * sqrt( years ) * price, min_interval )],
    without the term of the range, which the first evaluation cleared.  The
    price enters with its sign, as in the code; for a price that is not
    negative this is the [max( vol * sqrt( years ) * |price|, min_interval )]
    of the specification. *)
Theorem reevaluation_drops_range_term
  (m m1 : standard_price_model.t candle_model.t) (now : timestamp)
  (last : price_time) (est : price_estimate) :
  standard_price_model.last_trade_ m = Some last ->
  standard_price_model.eval_at_time (candle_model.tracker std_log) now m = Ok (Some est, m1) ->
  exists vol,
    candle_model.eval_volatility std_log (standard_price_model.volatility_model_ m) = Ok vol /\
    est_price_ est = price_ last /\
    let years :=
      (as_interval (Z.max (diff_times now (time_ last))
                          (standard_price_model.min_slot_ns_ m))
       / as_interval NS_PER_YEAR)%float in
    let conf :=
      fmax (value_or vol (standard_price_model.init_volatility_ m)
            * sqrt years * as_interval (price_ last))%float
           (standard_price_model.min_interval_ m) in
    standard_price_model.eval_at_time (candle_model.tracker std_log) now m1
    = Ok (Some {| est_price_ := est_price_ est; conf_ := conf |}, m1) /\
    (0 <= price_ last ->
     conf = reevaluation_conf (value_or vol (standard_price_model.init_volatility_ m))
              (diff_times now (time_ last)) (standard_price_model.min_slot_ns_ m)
              (price_ last) (standard_price_model.min_interval_ m)).
Proof.
  intros Hlast E1.
  destruct (eval_at_time_some _ m m1 now last est Hlast E1) as (Hel & vol & v & Hq).
  rewrite candle_query in Hq.
  destruct (candle_model.eval_volatility std_log _) as [vol'|e] eqn:Hvol; [|discriminate].
  injection Hq as -> <-.
  exists vol. split; [reflexivity|].
  pose proof (eval_at_time_fresh (candle_model.tracker std_log) m now last vol
                (standard_price_model.volatility_model_ m) Hlast Hel) as F1.
  rewrite candle_query, Hvol in F1. specialize (F1 eq_refl). cbv zeta in F1.
  rewrite set_volatility_model_same in F1.
  rewrite F1 in E1. injection E1 as <- <-.
  split; [reflexivity|].
  intros years conf. split.
  - pose proof (eval_at_time_fresh (candle_model.tracker std_log)
                  (standard_price_model.set_range_since_eval None m) now last vol
                  (standard_price_model.volatility_model_ m) Hlast Hel) as F2.
    cbn [standard_price_model.volatility_model_ standard_price_model.set_range_since_eval]
      in F2.
    rewrite candle_query, Hvol in F2. specialize (F2 eq_refl).
    rewrite F2. destruct m. reflexivity.
  - intros Hpos. subst conf years. unfold reevaluation_conf.
    rewrite Z.abs_eq by assumption. reflexivity.
Qed.

(** C6 (amended): with the default configuration, after the single trade
    [(100, 0)], [eval_at_time( 0 )] returns the price 100 and the confidence
    [max( min_interval, init_vol * sqrt( min_slot_ns / NS_PER_YEAR ) * 100 )],
    which is about 0.01259: the volatility term is above the floor of 0.01. *)
Theorem default_single_trade_estimate :
  exists m1 m2 est,
    (m0 <- default_price_model ;;
     standard_price_model.add_trade (candle_model.tracker std_log)
       {| price_ := 100; time_ := 0 |} m0) = Ok m1 /\
    standard_price_model.eval_at_time (candle_model.tracker std_log) 0 m1
    = Ok (Some est, m2) /\
    est_price_ est = 100 /\
    conf_ est =
    fmax standard_price_model.DEFAULT_MIN_INTERVAL
      (standard_price_model.DEFAULT_VOLATILITY
       * sqrt (as_interval standard_price_model.DEFAULT_MIN_SLOT / as_interval NS_PER_YEAR)
       * as_interval 100)%float /\
    conf_ est = 0x1.9c9a2fa764712p-7%float /\
    (standard_price_model.DEFAULT_MIN_INTERVAL <? conf_ est)%float = true /\
    (0.0125732421875 <? conf_ est)%float = true /\ (conf_ est <? 0.01263427734375)%float = true.
Proof.
  eexists. eexists. eexists.
  split; [vm_compute; reflexivity|].
  split; [vm_compute; reflexivity|].
  vm_compute. repeat split; reflexivity.
Qed.

End CandlePriceModel.

(** ** Examples on the default model *)

Example primed_model_reached :
  (m0 <- default_price_model ;; feed [ {| price_ := 100; time_ := 0 |} ] m0)
  = Ok primed_model.
Proof. vm_compute. reflexivity. Qed.

Lemma stale_eval_changes_nothing_witness :
  standard_price_model.eval_at_time (candle_model.tracker ln_series)
    (NS_PER_MIN + 1) primed_model
  = Ok (None, primed_model).
Proof.
  apply (stale_eval_changes_nothing (candle_model.tracker ln_series) primed_model
           (NS_PER_MIN + 1) {| price_ := 100; time_ := 0 |}).
  - vm_compute. discriminate.
  - reflexivity.
  - vm_compute. reflexivity.
Defined.

Lemma fresh_eval_clears_only_range_witness :
  (forall vol,
     candle_model.eval_volatility ln_series
       (standard_price_model.volatility_model_ primed_model) = Ok vol ->
     exists conf m',
       standard_price_model.eval_at_time (candle_model.tracker ln_series) 0 primed_model =
       Ok (Some {| est_price_ := 100; conf_ := conf |}, m') /\
       standard_price_model.range_since_eval_ m' = None /\
       standard_price_model.last_trade_ m' = standard_price_model.last_trade_ primed_model /\
       standard_price_model.volatility_model_ m'
       = standard_price_model.volatility_model_ primed_model /\
       standard_price_model.min_interval_ m'
       = standard_price_model.min_interval_ primed_model /\
       standard_price_model.init_volatility_ m'
       = standard_price_model.init_volatility_ primed_model /\
       standard_price_model.timeout_ns_ m' = standard_price_model.timeout_ns_ primed_model /\
       standard_price_model.min_slot_ns_ m'
       = standard_price_model.min_slot_ns_ primed_model) /\
  (forall e,
     candle_model.eval_volatility ln_series
       (standard_price_model.volatility_model_ primed_model) = Throw e ->
     standard_price_model.eval_at_time (candle_model.tracker ln_series) 0 primed_model
     = Throw e).
Proof.
  apply (fresh_eval_clears_only_range ln_series primed_model 0
           {| price_ := 100; time_ := 0 |}).
  - reflexivity.
  - vm_compute. split; discriminate.
Defined.

(** C9, as the claim states it, fails in a state whose candle ring is full
    and holds a price that is not positive: the last trade is there and the
    evaluation is at its time, and [eval_at_time] throws instead of returning
    an estimate. *)
Lemma fresh_eval_clears_only_range_counterexample :
  (c <- candle_model.new (Some 1) None ;;
   m0 <- standard_price_model.new c None None None None ;;
   feed zero_trades m0) = Ok zero_price_model /\
  standard_price_model.last_trade_ zero_price_model
  = Some {| price_ := 0; time_ := NS_PER_MIN |} /\
  diff_times NS_PER_MIN NS_PER_MIN = 0 /\
  0 <= standard_price_model.timeout_ns_ zero_price_model /\
  standard_price_model.eval_at_time (candle_model.tracker ln_series)
    NS_PER_MIN zero_price_model
  = Throw (assertion_error "min_low > 0").
Proof.
  vm_compute. repeat split; try reflexivity. discriminate.
Qed.

Lemma late_model_wf : ring_wf (standard_price_model.volatility_model_ late_model).
Proof.
  constructor; unfold VECTOR_MAX_SIZE; simpl; lia.
Qed.

Lemma same_bucket_trade_accepted_witness :
  candle_model.add_trade {| price_ := 90; time_ := 5 |}
    (standard_price_model.volatility_model_ late_model)
  = Ok (candle_model.widen (as_interval 90)
          (standard_price_model.volatility_model_ late_model)) /\
  front_candle (candle_model.widen (as_interval 90)
                  (standard_price_model.volatility_model_ late_model))
  = {| start := start (front_candle (standard_price_model.volatility_model_ late_model));
       high := fmax (high (front_candle (standard_price_model.volatility_model_ late_model)))
                 (as_interval 90);
       low := fmin (low (front_candle (standard_price_model.volatility_model_ late_model)))
                (as_interval 90) |} /\
  exists m',
    standard_price_model.add_trade (candle_model.tracker ln_series)
      {| price_ := 90; time_ := 5 |} late_model = Ok m' /\
    standard_price_model.last_trade_ m' = Some {| price_ := 90; time_ := 5 |} /\
    standard_price_model.volatility_model_ m'
    = candle_model.widen (as_interval 90)
        (standard_price_model.volatility_model_ late_model).
Proof.
  apply (same_bucket_trade_accepted ln_series late_model 90 5).
  - exact late_model_wf.
  - vm_compute. discriminate.
  - vm_compute. reflexivity.
Defined.

(** The older trade is taken: the front candle runs from 90 to 100 and the
    last trade is the one of time 5, after the one of time 10. *)
Example older_trade_in_same_bucket :
  standard_price_model.last_trade_ late_model = Some {| price_ := 100; time_ := 10 |} /\
  exists m',
    standard_price_model.add_trade (candle_model.tracker ln_series)
      {| price_ := 90; time_ := 5 |} late_model = Ok m' /\
    standard_price_model.last_trade_ m' = Some {| price_ := 90; time_ := 5 |} /\
    front_candle (standard_price_model.volatility_model_ m')
    = {| start := 0; high := 100%float; low := 90%float |}.
Proof.
  split; [reflexivity|]. eexists. split; [vm_compute; reflexivity|].
  split; vm_compute; reflexivity.
Qed.

Lemma reevaluation_drops_range_term_witness :
  exists vol,
    candle_model.eval_volatility ln_series
      (standard_price_model.volatility_model_ primed_model) = Ok vol /\
    est_price_ {| est_price_ := 100; conf_ := 0x1.9c9a2fa764712p-7%float |}
    = price_ {| price_ := 100; time_ := 0 |} /\
    let years :=
      (as_interval (Z.max (diff_times 0%Z (time_ {| price_ := 100%Z; time_ := 0%Z |}))
                          (standard_price_model.min_slot_ns_ primed_model))
       / as_interval NS_PER_YEAR)%float in
    let conf :=
      fmax (value_or vol (standard_price_model.init_volatility_ primed_model)
            * sqrt years * as_interval (price_ {| price_ := 100%Z; time_ := 0%Z |}))%float
           (standard_price_model.min_interval_ primed_model) in
    standard_price_model.eval_at_time (candle_model.tracker ln_series) 0 drained_model
    = Ok (Some {| est_price_ :=
                    est_price_ {| est_price_ := 100;
                                  conf_ := 0x1.9c9a2fa764712p-7%float |};
                  conf_ := conf |}, drained_model) /\
    (0 <= price_ {| price_ := 100; time_ := 0 |} ->
     conf = reevaluation_conf
              (value_or vol (standard_price_model.init_volatility_ primed_model))
              (diff_times 0 (time_ {| price_ := 100; time_ := 0 |}))
              (standard_price_model.min_slot_ns_ primed_model)
              (price_ {| price_ := 100; time_ := 0 |})
              (standard_price_model.min_interval_ primed_model)).
Proof.
  apply (reevaluation_drops_range_term ln_series primed_model drained_model 0
           {| price_ := 100; time_ := 0 |}
           {| est_price_ := 100; conf_ := 0x1.9c9a2fa764712p-7%float |}).
  - reflexivity.
  - vm_compute. reflexivity.
Defined.

(** C8, as the claim states it, fails for a negative price: after the trade
    [(-100, 0)] the first evaluation at 0 returns an estimate, the second
    returns the floor 0.01, and the claim's
    [max( vol * sqrt( years ) * |price|, min_interval )] is about 0.01259. *)
Lemma reevaluation_drops_range_term_counterexample :
  (m0 <- default_price_model ;; feed [ {| price_ := -100; time_ := 0 |} ] m0)
  = Ok short_model /\
  standard_price_model.eval_at_time (candle_model.tracker ln_series) 0 short_model
  = Ok (Some {| est_price_ := -100; conf_ := double_0_01 |}, short_model_drained) /\
  standard_price_model.eval_at_time (candle_model.tracker ln_series) 0 short_model_drained
  = Ok (Some {| est_price_ := -100; conf_ := double_0_01 |}, short_model_drained) /\
  candle_model.eval_volatility ln_series
    (standard_price_model.volatility_model_ short_model_drained) = Ok None /\
  reevaluation_conf standard_price_model.DEFAULT_VOLATILITY 0
    standard_price_model.DEFAULT_MIN_SLOT (-100) standard_price_model.DEFAULT_MIN_INTERVAL
  = 0x1.9c9a2fa764712p-7%float /\
  (double_0_01 <? 0x1.9c9a2fa764712p-7)%float = true.
Proof.
  vm_compute. repeat split; reflexivity.
Qed.

(** C6, as the claim states it, fails: the confidence is not the floor 0.01
    but the volatility term, a quarter above it. *)
Lemma default_single_trade_estimate_counterexample :
  (m0 <- default_price_model ;; feed [ {| price_ := 100; time_ := 0 |} ] m0)
  = Ok primed_model /\
  standard_price_model.eval_at_time (candle_model.tracker ln_series) 0 primed_model
  = Ok (Some {| est_price_ := 100; conf_ := 0x1.9c9a2fa764712p-7%float |}, drained_model) /\
  standard_price_model.min_interval_ primed_model = double_0_01 /\
  (double_0_01 * 1.25 <? 0x1.9c9a2fa764712p-7)%float = true /\
  (0x1.9c9a2fa764712p-7 =? double_0_01)%float = false.
Proof.
  vm_compute. repeat split; reflexivity.
Qed.

(** ** The replay driver *)

Lemma zrange_app (i : Z) (n n' : nat) :
  zrange i (n + n') = zrange i n ++ zrange (i + Z.of_nat n) n'.
Proof.
  revert i. induction n as [|n IH]; intros i.
  - simpl. rewrite Z.add_0_r. reflexivity.
  - cbn [Nat.add zrange app]. rewrite IH. do 3 f_equal. lia.
Qed.

Lemma in_zrange (i : Z) (n : nat) (x : Z) :
  In x (zrange i n) <-> i <= x < i + Z.of_nat n.
Proof.
  revert i. induction n as [|n IH]; intros i; simpl.
  - lia.
  - rewrite IH. lia.
Qed.

Lemma cons_split {A : Type} (x e : A) (l pre post : list A) :
  x :: l = pre ++ e :: post ->
  (pre = [] /\ x = e /\ l = post) \/
  (exists pre', pre = x :: pre' /\ l = pre' ++ e :: post).
Proof.
  destruct pre as [|y pre']; simpl; intros [= -> ->]; eauto.
Qed.

Lemma for_range_ok (n : nat) (i : Z) (body : Z -> result unit) :
  price_model_test.for_range n i body = Ok tt ->
  forall k, i <= k < i + Z.of_nat n -> body k = Ok tt.
Proof.
  revert i. induction n as [|n IH]; intros i E k Hk; [lia|].
  simpl in E. destruct (body i) as [[]|e] eqn:Ei; cbn [bind] in E; [|discriminate].
  destruct (Z.eq_dec k i) as [->|Hne]; [exact Ei|].
  apply (IH (i + 1) E). lia.
Qed.

(** Adjacent entries in order give a column in order. *)
Lemma adjacent_sorted (f : Z -> Z) (n : Z) :
  (forall i, 1 <= i < n -> f (i - 1) <= f i) ->
  forall i j, 0 <= i -> i <= j -> j < n -> f i <= f j.
Proof.
  intros Hadj i j Hi Hij Hj.
  replace j with (i + Z.of_nat (Z.to_nat (j - i))) in * by lia.
  induction (Z.to_nat (j - i)) as [|d IH]; [rewrite Z.add_0_r; lia|].
  specialize (Hadj (i + Z.of_nat (S d)) ltac:(lia)).
  replace (i + Z.of_nat (S d) - 1) with (i + Z.of_nat d) in Hadj by lia.
  specialize (IH ltac:(lia) ltac:(lia)). lia.
Qed.

Section Driver.

Context {V : Type} (VM : volatility_model V).
Variable a : price_model_test.t.

Let trade_time (i : Z) : timestamp := price_model_test.at_ 0 (price_model_test.trade_times_ a) i.
Let eval_time_at (j : Z) : timestamp := price_model_test.at_ 0 (price_model_test.eval_times_ a) j.

Hypothesis trades_in_order :
  forall i j, 0 <= i -> i <= j -> j < price_model_test.trade_count a ->
    trade_time i <= trade_time j.
Hypothesis evals_in_order :
  forall i j, 0 <= i -> i <= j -> j < price_model_test.eval_count a ->
    eval_time_at i <= eval_time_at j.

Lemma next_action_feed (s : price_model_test.state V) :
  price_model_test.next_action a s = price_model_test.feed_trade ->
  price_model_test.trade_idx s < price_model_test.trade_count a /\
  trade_time (price_model_test.trade_idx s) < price_model_test.eval_time a s.
Proof.
  unfold price_model_test.next_action, trade_time.
  destruct (Z.ltb_spec (price_model_test.trade_idx s) (price_model_test.trade_count a));
    cbn [andb].
  - destruct (Z.gtb_spec (price_model_test.eval_time a s)
                (price_model_test.at_ 0 (price_model_test.trade_times_ a)
                   (price_model_test.trade_idx s))).
    + intros _. lia.
    + destruct (_ <? _); discriminate.
  - destruct (_ <? _); discriminate.
Qed.

Lemma next_action_evaluate (s : price_model_test.state V) :
  price_model_test.next_action a s = price_model_test.evaluate ->
  price_model_test.eval_idx s < price_model_test.eval_count a /\
  price_model_test.eval_time a s = eval_time_at (price_model_test.eval_idx s) /\
  (price_model_test.trade_idx s < price_model_test.trade_count a ->
   price_model_test.eval_time a s <= trade_time (price_model_test.trade_idx s)).
Proof.
  unfold price_model_test.next_action, trade_time, eval_time_at, price_model_test.eval_time.
  destruct (Z.ltb_spec (price_model_test.eval_idx s) (price_model_test.eval_count a))
    as [He|He].
  2:{ destruct (_ && _); discriminate. }
  destruct (Z.ltb_spec (price_model_test.trade_idx s) (price_model_test.trade_count a));
    cbn [andb].
  - destruct (Z.gtb_spec (price_model_test.at_ 0 (price_model_test.eval_times_ a)
                            (price_model_test.eval_idx s))
                (price_model_test.at_ 0 (price_model_test.trade_times_ a)
                   (price_model_test.trade_idx s))); [discriminate|].
    intros _. repeat split; lia.
  - intros _. repeat split; lia.
Qed.

Lemma loop_turn (fuel : nat) (s : price_model_test.state V)
  (evs : list price_model_test.event) (r : option (result (price_model_test.state V))) :
  price_model_test.loop VM a (S fuel) s = (evs, r) -> turn VM a fuel s evs r.
Proof.
  cbn [price_model_test.loop].
  destruct (price_model_test.next_action a s) eqn:Hact.
  - destruct (standard_price_model.add_trade VM _ _) as [m|e] eqn:Eadd.
    + destruct (price_model_test.loop VM a fuel _) as [evs' r'] eqn:E'.
      intros [= <- <-]. eapply turn_fed; eauto.
    + intros [= <- <-]. apply turn_last_trade; auto.
  - destruct (standard_price_model.eval_at_time VM _ _) as [[actual m]|e] eqn:Eev.
    + destruct (price_model_test.check_eval a s actual).
      * destruct (price_model_test.loop VM a fuel _) as [evs' r'] eqn:E'.
        intros [= <- <-]. eapply turn_evaluated; eauto.
      * intros [= <- <-]. apply turn_last_eval; auto.
        unfold observe. rewrite Eev. reflexivity.
    + intros [= <- <-]. apply turn_last_eval; auto.
      unfold observe. rewrite Eev. reflexivity.
  - intros [= <- <-]. apply turn_stop. reflexivity.
Qed.

(** The trades a run of the loop feeds are the next ones of the column. *)
Lemma loop_trades (fuel : nat) :
  forall s evs r,
  price_model_test.loop VM a fuel s = (evs, r) ->
  0 <= price_model_test.trade_idx s <= price_model_test.trade_count a ->
  exists n,
    price_model_test.trade_idx s + Z.of_nat n <= price_model_test.trade_count a /\
    trades_of evs
    = map (price_model_test.trade_at a) (zrange (price_model_test.trade_idx s) n).
Proof.
  induction fuel as [|fuel IH]; intros s evs r E Hti.
  - simpl in E. injection E as <- <-. exists O. simpl. split; [lia|reflexivity].
  - destruct (loop_turn _ _ _ _ E) as [m evs' Hact _ E' ->|actual m evs' _ _ E' ->
                                      |Hact ->| _ ->| ->].
    + destruct (next_action_feed s Hact) as [Hlt _].
      destruct (IH _ _ _ E') as (n & Hn & Ht); [simpl; lia|].
      simpl in Hn, Ht. exists (S n). split; [lia|]. simpl. rewrite Ht. reflexivity.
    + destruct (IH _ _ _ E') as (n & Hn & Ht); [simpl; lia|].
      exists n. split; [exact Hn|exact Ht].
    + destruct (next_action_feed s Hact) as [Hlt _].
      exists 1%nat. simpl. split; [lia|reflexivity].
    + exists O. simpl. split; [lia|reflexivity].
    + exists O. simpl. split; [lia|reflexivity].
Qed.

(** Where an evaluation sits in the calls of a run of the loop: the trades
    fed before it are strictly earlier, those left are not, and it observes
    the model that the calls before it leave. *)
Lemma loop_trace (fuel : nat) :
  forall s evs r,
  price_model_test.loop VM a fuel s = (evs, r) ->
  0 <= price_model_test.trade_idx s <= price_model_test.trade_count a ->
  0 <= price_model_test.eval_idx s ->
  forall pre now actual post,
  evs = pre ++ price_model_test.ev_eval now actual :: post ->
  exists (n n' : nat) (j : Z) (m : standard_price_model.t V),
    price_model_test.trade_idx s + Z.of_nat n + Z.of_nat n'
    <= price_model_test.trade_count a /\
    trades_of pre
    = map (price_model_test.trade_at a) (zrange (price_model_test.trade_idx s) n) /\
    trades_of post
    = map (price_model_test.trade_at a)
          (zrange (price_model_test.trade_idx s + Z.of_nat n) n') /\
    (forall i, price_model_test.trade_idx s <= i < price_model_test.trade_idx s + Z.of_nat n ->
               trade_time i < now) /\
    (forall i, price_model_test.trade_idx s + Z.of_nat n <= i < price_model_test.trade_count a ->
               now <= trade_time i) /\
    price_model_test.eval_idx s <= j < price_model_test.eval_count a /\
    now = eval_time_at j /\
    replay VM pre (price_model_test.model s) = Ok m /\
    actual = observe VM now m.
Proof.
  induction fuel as [|fuel IH]; intros s evs r E Hti Hei pre now actual post Hsplit.
  - simpl in E. injection E as <- <-. destruct pre; discriminate.
  - destruct (loop_turn _ _ _ _ E) as [m evs' Hact Eadd E' ->|actual0 m evs' Hact Eev E' ->
                                      |Hact ->|Hact ->| ->].
    + (* a trade is fed, and the loop goes on *)
      destruct (next_action_feed s Hact) as [Hlt Hbefore].
      destruct (cons_split _ _ _ _ _ Hsplit) as [(_ & Habs & _)|(pre' & -> & Hsplit')];
        [discriminate|].
      destruct (IH _ _ _ E' ltac:(simpl; lia) ltac:(simpl; lia) _ _ _ _ Hsplit')
        as (n & n' & j & m' & Hn & Hpre & Hpost & Hlt' & Hge & Hj & Hnow & Hrep & Hobs).
      cbn [price_model_test.trade_idx price_model_test.eval_idx price_model_test.model] in *.
      exists (S n), n', j, m'.
      replace (price_model_test.trade_idx s + Z.of_nat (S n))
        with (price_model_test.trade_idx s + 1 + Z.of_nat n) by lia.
      repeat split; try assumption; try lia.
      * simpl. rewrite Hpre. reflexivity.
      * intros i Hi. destruct (Z.eq_dec i (price_model_test.trade_idx s)) as [->|Hne].
        -- assert (Hev : price_model_test.eval_time a s
                         = eval_time_at (price_model_test.eval_idx s)).
           { unfold price_model_test.eval_time, eval_time_at.
             destruct (Z.ltb_spec (price_model_test.eval_idx s)
                         (price_model_test.eval_count a)); [reflexivity|lia]. }
           pose proof (evals_in_order (price_model_test.eval_idx s) j). lia.
        -- apply Hlt'. lia.
      * simpl. rewrite Eadd. cbn [bind]. exact Hrep.
    + (* an evaluation, and the loop goes on *)
      destruct (next_action_evaluate s Hact) as (He & Hev & Hnext).
      destruct (cons_split _ _ _ _ _ Hsplit) as [(-> & Heq & <-)|(pre' & -> & Hsplit')].
      * injection Heq as <- <-.
        destruct (loop_trades fuel _ _ _ E' ltac:(simpl; lia)) as (n' & Hn' & Hpost).
        cbn [price_model_test.trade_idx] in *.
        exists O, n', (price_model_test.eval_idx s), (price_model_test.model s).
        rewrite Z.add_0_r.
        repeat split; try assumption; try lia.
        -- intros i Hi. pose proof (trades_in_order (price_model_test.trade_idx s) i). lia.
        -- unfold observe. rewrite Eev. reflexivity.
      * destruct (IH _ _ _ E' ltac:(simpl; lia) ltac:(simpl; lia) _ _ _ _ Hsplit')
          as (n & n' & j & m' & Hn & Hpre & Hpost & Hlt' & Hge & Hj & Hnow & Hrep & Hobs).
        cbn [price_model_test.trade_idx price_model_test.eval_idx price_model_test.model] in *.
        exists n, n', j, m'.
        repeat split; try assumption; try lia.
        simpl. rewrite Eev. cbn [bind]. exact Hrep.
    + (* the trade throws *)
      destruct (cons_split _ _ _ _ _ Hsplit) as [(_ & Habs & _)|(pre' & _ & Habs)];
        [discriminate|destruct pre'; discriminate].
    + (* the evaluation throws, or its comparison does *)
      destruct (next_action_evaluate s Hact) as (He & Hev & Hnext).
      destruct (cons_split _ _ _ _ _ Hsplit) as [(-> & Heq & <-)|(pre' & _ & Habs)];
        [|destruct pre'; discriminate].
      injection Heq as <- <-.
      exists O, O, (price_model_test.eval_idx s), (price_model_test.model s).
      rewrite !Z.add_0_r.
      repeat split; try assumption; try reflexivity; try lia.
      intros i Hi. pose proof (trades_in_order (price_model_test.trade_idx s) i). lia.
    + destruct pre; discriminate.
Qed.

(** The fuel the driver is given is enough: the loop reaches its [break] or
    a throw. *)
Lemma loop_ends (fuel : nat) :
  forall s,
  0 <= price_model_test.trade_idx s <= price_model_test.trade_count a ->
  0 <= price_model_test.eval_idx s <= price_model_test.eval_count a ->
  (Z.to_nat (price_model_test.trade_count a - price_model_test.trade_idx s
             + (price_model_test.eval_count a - price_model_test.eval_idx s)) < fuel)%nat ->
  snd (price_model_test.loop VM a fuel s) <> None.
Proof.
  induction fuel as [|fuel IH]; intros s Hti Hei Hfuel; [lia|].
  cbn [price_model_test.loop].
  destruct (price_model_test.next_action a s) eqn:Hact.
  - destruct (next_action_feed s Hact) as [Hlt _].
    destruct (standard_price_model.add_trade VM _ _) as [m|e]; [|simpl; discriminate].
    match goal with
    | |- context [price_model_test.loop VM a fuel ?s'] =>
        pose proof (IH s' ltac:(simpl; lia) ltac:(simpl; lia) ltac:(simpl; lia)) as Hs;
        destruct (price_model_test.loop VM a fuel s') as [evs r]
    end.
    exact Hs.
  - destruct (next_action_evaluate s Hact) as (He & _ & _).
    destruct (standard_price_model.eval_at_time VM _ _) as [[actual m]|e];
      [|simpl; discriminate].
    destruct (price_model_test.check_eval a s actual); [|simpl; discriminate].
    match goal with
    | |- context [price_model_test.loop VM a fuel ?s'] =>
        pose proof (IH s' ltac:(simpl; lia) ltac:(simpl; lia) ltac:(simpl; lia)) as Hs;
        destruct (price_model_test.loop VM a fuel s') as [evs r]
    end.
    exact Hs.
  - simpl. discriminate.
Qed.

End Driver.

Lemma assert_ok (b : bool) (expr : string) : PC_ASSERT b expr = Ok tt -> b = true.
Proof. destruct b; [reflexivity|discriminate]. Qed.

Lemma bind_ok {A B : Type} (r : result A) (k : A -> result B) (b : B) :
  bind r k = Ok b -> exists x, r = Ok x /\ k x = Ok b.
Proof. destruct r as [x|e]; simpl; [eauto|discriminate]. Qed.

(** What the two loops before the model is made have checked. *)
Lemma check_columns_sorted (a : price_model_test.t) :
  price_model_test.check_columns a = Ok tt ->
  (forall i j, 0 <= i -> i <= j -> j < price_model_test.trade_count a ->
     price_model_test.at_ 0 (price_model_test.trade_times_ a) i
     <= price_model_test.at_ 0 (price_model_test.trade_times_ a) j) /\
  (forall i j, 0 <= i -> i <= j -> j < price_model_test.eval_count a ->
     price_model_test.at_ 0 (price_model_test.eval_times_ a) i
     <= price_model_test.at_ 0 (price_model_test.eval_times_ a) j).
Proof.
  unfold price_model_test.check_columns. intros E.
  apply bind_ok in E. destruct E as ([] & Et & Ee).
  split.
  - apply (adjacent_sorted (price_model_test.at_ 0 (price_model_test.trade_times_ a))).
    intros i Hi. pose proof (for_range_ok _ _ _ Et i ltac:(lia)) as Hb.
    apply assert_ok in Hb. lia.
  - apply (adjacent_sorted (price_model_test.at_ 0 (price_model_test.eval_times_ a))).
    intros i Hi. pose proof (for_range_ok _ _ _ Ee i ltac:(lia)) as Hb.
    apply bind_ok in Hb. destruct Hb as ([] & Hb & _).
    apply assert_ok in Hb. lia.
Qed.

Lemma filter_all {A : Type} (f : A -> bool) (l : list A) :
  (forall x, In x l -> f x = true) -> filter f l = l.
Proof.
  induction l as [|x l IH]; intros H; simpl; [reflexivity|].
  rewrite (H x) by (left; reflexivity). f_equal. apply IH.
  intros y Hy. apply H. right. exact Hy.
Qed.

Lemma filter_none {A : Type} (f : A -> bool) (l : list A) :
  (forall x, In x l -> f x = false) -> filter f l = [].
Proof.
  induction l as [|x l IH]; intros H; simpl; [reflexivity|].
  rewrite (H x) by (left; reflexivity). apply IH.
  intros y Hy. apply H. right. exact Hy.
Qed.

(** C5: in a run of the replay driver, an evaluation at the time [now] comes
    after exactly the trades whose time is strictly less than [now]: a trade
    at the time [now] itself is fed after it.  So the evaluation observes the
    model that the calls before it leave, and the trades among those calls
    are the trades strictly earlier than [now]; every trade fed afterwards
    has a time of [now] or later. *)
Theorem replay_evaluates_before_trades_of_same_time
  {V : Type} (VM : volatility_model V)
  (make_vol_model : price_model_test.t -> result V) (a : price_model_test.t)
  (pre post : list price_model_test.event) (now : timestamp)
  (actual : result (option price_estimate)) :
  fst (price_model_test.run VM make_vol_model a)
  = pre ++ price_model_test.ev_eval now actual :: post ->
  exists m0 m,
    price_model_test.make_price_model make_vol_model a = Ok m0 /\
    replay VM pre m0 = Ok m /\
    actual = observe VM now m /\
    trades_of pre = filter (fun trade => time_ trade <? now) (all_trades a) /\
    Forall (fun trade => now <= time_ trade) (trades_of post).
Proof.
  unfold price_model_test.run. intros Hrun.
  destruct (bind (price_model_test.validate_args a) _) as [m0|e] eqn:Einit.
  2:{ simpl in Hrun. destruct pre; discriminate. }
  apply bind_ok in Einit. destruct Einit as ([] & _ & Einit).
  apply bind_ok in Einit. destruct Einit as ([] & Echeck & Emodel).
  destruct (check_columns_sorted a Echeck) as [Htr Hev].
  destruct (price_model_test.loop VM a (price_model_test.enough_fuel a)
              (price_model_test.initial m0)) as [evs r] eqn:Eloop.
  assert (Hevs : evs = pre ++ price_model_test.ev_eval now actual :: post).
  { destruct r as [[s|e]|]; exact Hrun. }
  clear Hrun.
  assert (Htc : 0 <= price_model_test.trade_count a)
    by (unfold price_model_test.trade_count, price_model_test.size; lia).
  destruct (loop_trace VM a Htr Hev _ _ _ _ Eloop ltac:(simpl; lia) ltac:(simpl; lia)
              _ _ _ _ Hevs)
    as (n & n' & j & m & Hn & Hpre & Hpost & Hlt & Hge & Hj & Hnow & Hrep & Hobs).
  cbn [price_model_test.initial price_model_test.trade_idx price_model_test.model] in *.
  rewrite Z.add_0_l in *.
  exists m0, m. repeat split; try assumption.
  - rewrite Hpre. unfold all_trades.
    replace (Z.to_nat (price_model_test.trade_count a))
      with (n + (Z.to_nat (price_model_test.trade_count a) - n))%nat by lia.
    rewrite zrange_app, map_app, filter_app, Z.add_0_l.
    rewrite filter_all, filter_none, app_nil_r; [reflexivity| |].
    + intros x Hx. apply in_map_iff in Hx. destruct Hx as (i & <- & Hi).
      apply in_zrange in Hi. apply Z.ltb_ge. apply Hge. lia.
    + intros x Hx. apply in_map_iff in Hx. destruct Hx as (i & <- & Hi).
      apply in_zrange in Hi. apply Z.ltb_lt. apply Hlt. lia.
  - rewrite Hpost. apply Forall_forall. intros x Hx.
    apply in_map_iff in Hx. destruct Hx as (i & <- & Hi).
    apply in_zrange in Hi. apply Hge. lia.
Qed.

(** [run()] ends: with [enough_fuel] the loop never stops for lack of it. *)
Lemma run_ends {V : Type} (VM : volatility_model V)
  (make_vol_model : price_model_test.t -> result V) (a : price_model_test.t) :
  snd (price_model_test.run VM make_vol_model a) <> None.
Proof.
  unfold price_model_test.run.
  destruct (bind (price_model_test.validate_args a) _) as [m0|e]; [|simpl; discriminate].
  assert (Htc : 0 <= price_model_test.trade_count a)
    by (unfold price_model_test.trade_count, price_model_test.size; lia).
  assert (Hec : 0 <= price_model_test.eval_count a)
    by (unfold price_model_test.eval_count, price_model_test.size; lia).
  pose proof (loop_ends VM a (price_model_test.enough_fuel a) (price_model_test.initial m0)
                ltac:(simpl; lia) ltac:(simpl; lia)
                ltac:(unfold price_model_test.enough_fuel; simpl; lia)) as Hs.
  destruct (price_model_test.loop VM a _ _) as [evs [[s|e]|]]; simpl in *;
    congruence.
Qed.

Example tie_test_run :
  price_model_test.run (candle_model.tracker ln_series)
    price_model_test.make_candle_model tie_test
  = ([ price_model_test.ev_trade {| price_ := 100; time_ := 1 * NS_PER_SEC |};
       price_model_test.ev_eval (2 * NS_PER_SEC)
         (Ok (Some {| est_price_ := 100; conf_ := 0x1.23c0fe14394d6p-6%float |}));
       price_model_test.ev_trade {| price_ := 110; time_ := 2 * NS_PER_SEC |} ],
     Some (Ok tt)).
Proof. vm_compute. reflexivity. Qed.

Lemma replay_evaluates_before_trades_of_same_time_witness :
  exists m0 m,
    price_model_test.make_price_model price_model_test.make_candle_model tie_test = Ok m0 /\
    replay (candle_model.tracker ln_series)
      [price_model_test.ev_trade {| price_ := 100; time_ := 1 * NS_PER_SEC |}] m0 = Ok m /\
    Ok (Some {| est_price_ := 100; conf_ := 0x1.23c0fe14394d6p-6%float |})
    = observe (candle_model.tracker ln_series) (2 * NS_PER_SEC) m /\
    trades_of [price_model_test.ev_trade {| price_ := 100; time_ := 1 * NS_PER_SEC |}]
    = filter (fun trade => time_ trade <? 2 * NS_PER_SEC) (all_trades tie_test) /\
    Forall (fun trade => 2 * NS_PER_SEC <= time_ trade)
      (trades_of [price_model_test.ev_trade {| price_ := 110; time_ := 2 * NS_PER_SEC |}]).
Proof.
  apply (replay_evaluates_before_trades_of_same_time (candle_model.tracker ln_series)
           price_model_test.make_candle_model tie_test
           [price_model_test.ev_trade {| price_ := 100; time_ := 1 * NS_PER_SEC |}]
           [price_model_test.ev_trade {| price_ := 110; time_ := 2 * NS_PER_SEC |}]
           (2 * NS_PER_SEC)
           (Ok (Some {| est_price_ := 100; conf_ := 0x1.23c0fe14394d6p-6%float |}))).
  vm_compute. reflexivity.
Defined.

(** ** The scenarios of the specification, run *)

Example warm_up_trades_monotone : monotone warm_up_trades /\ monotone zero_trades.
Proof.
  cbv [monotone monotone_from warm_up_trades zero_trades time_
       NS_PER_MIN NS_PER_SEC NS_PER_MS NS_PER_US].
  lia.
Qed.

Example warm_up_trades_signed : signed_times warm_up_trades /\ signed_times zero_trades.
Proof.
  split; repeat constructor;
    cbv [time_ NS_PER_MIN NS_PER_SEC NS_PER_MS NS_PER_US]; lia.
Qed.

(** The unit test: no trade, no evaluation, nothing thrown. *)
Example test_empty :
  price_model_test.run stub_volatility_model.tracker (make_stub None) empty_test
  = ([], Some (Ok tt)).
Proof. vm_compute. reflexivity. Qed.

(** Scenario 1: no trade, one evaluation at 0: no estimate. *)
Example no_trade_no_estimate :
  (m0 <- default_price_model ;;
   observe (candle_model.tracker ln_series) 0 m0) = Ok None.
Proof. vm_compute. reflexivity. Qed.

(** Scenario 3: trades [(100, t0)] and [(110, t0 + 1 s)], evaluation at
    [t0 + 1 s]: the price is 110 and the confidence is the half range 5. *)
Example range_term_dominates :
  (m0 <- default_price_model ;;
   m1 <- feed [ {| price_ := 100; time_ := 7 * NS_PER_SEC |};
                {| price_ := 110; time_ := 8 * NS_PER_SEC |} ] m0 ;;
   observe (candle_model.tracker ln_series) (8 * NS_PER_SEC) m1)
  = Ok (Some {| est_price_ := 110; conf_ := 5%float |}).
Proof. vm_compute. reflexivity. Qed.

(** Scenario 5: with [lookback = 2] the volatility is absent after two
    buckets and there after the third. *)
Example warm_up_after_third_bucket :
  (m <- add_trades (firstn 2 warm_up_trades) fresh_ring_3 ;;
   candle_model.eval_volatility ln_series m) = Ok None /\
  (m <- add_trades warm_up_trades fresh_ring_3 ;;
   candle_model.eval_volatility ln_series m)
  = Ok (Some (parkinson_volatility ln_series warm_ring)).
Proof. vm_compute. split; reflexivity. Qed.

(** The boundary of the timeout: at [timeout_ns] an estimate, one
    nanosecond later none. *)
Example timeout_boundary :
  (exists est,
     observe (candle_model.tracker ln_series) NS_PER_MIN primed_model = Ok (Some est)) /\
  observe (candle_model.tracker ln_series) (NS_PER_MIN + 1) primed_model = Ok None.
Proof. split; [eexists|]; vm_compute; reflexivity. Qed.

(** A trade that falls before the front candle's bucket is refused. *)
Example earlier_bucket_refused :
  (m <- add_trades [ {| price_ := 100; time_ := 70 * NS_PER_SEC |} ] fresh_ring_3 ;;
   candle_model.add_trade {| price_ := 100; time_ := 5 * NS_PER_SEC |} m)
  = Throw (assertion_error "start == starts_[ front_ ]").
Proof. vm_compute. reflexivity. Qed.

(** * Further properties of the code *)

(** ** Time primitives: casts, sums and differences *)

Lemma to_i64_range (x : Z) : is_i64 (to_i64 x).
Proof.
  unfold is_i64, to_i64. pose proof (Z.mod_pos_bound (x + 2 ^ 63) (2 ^ 64)). lia.
Qed.

Lemma to_u64_range (x : Z) : is_u64 (to_u64 x).
Proof.
  unfold is_u64, to_u64. pose proof (Z.mod_pos_bound x (2 ^ 64)). lia.
Qed.

Lemma to_i64_unique (x y : Z) :
  is_i64 y -> (exists k, y = x + k * 2 ^ 64) -> to_i64 x = y.
Proof.
  intros Hy [k Hk]. unfold is_i64, to_i64 in *.
  replace (x + 2 ^ 63) with (y + 2 ^ 63 + (- k) * 2 ^ 64) by lia.
  rewrite Z_mod_plus_full, Z.mod_small; lia.
Qed.

Lemma to_u64_unique (x y : Z) :
  is_u64 y -> (exists k, y = x + k * 2 ^ 64) -> to_u64 x = y.
Proof.
  intros Hy [k Hk]. unfold is_u64, to_u64 in *.
  replace x with (y + (- k) * 2 ^ 64) by lia.
  rewrite Z_mod_plus_full, Z.mod_small; lia.
Qed.

Lemma to_i64_congruent (x : Z) : exists k, to_i64 x = x + k * 2 ^ 64.
Proof.
  unfold to_i64. exists (- ((x + 2 ^ 63) / 2 ^ 64)).
  pose proof (Z.div_mod (x + 2 ^ 63) (2 ^ 64)). lia.
Qed.

Lemma to_u64_congruent (x : Z) : exists k, to_u64 x = x + k * 2 ^ 64.
Proof.
  unfold to_u64. exists (- (x / 2 ^ 64)).
  pose proof (Z.div_mod x (2 ^ 64)). lia.
Qed.

(** X1: on 64-bit values [add_time] and [diff_times] undo each other, wrap
    included: the difference of [ts + ns] and [ts] is [ns], and adding the
    difference of two timestamps to the second gives the first. *)
Theorem add_time_diff_times_round_trip (ts ts' : timestamp) (ns : nsecs) :
  is_u64 ts -> is_u64 ts' -> is_i64 ns ->
  diff_times (add_time ts ns) ts = ns /\
  add_time ts (diff_times ts' ts) = ts'.
Proof.
  intros Hts Hts' Hns. unfold diff_times, add_time, as_ns. split.
  - apply to_i64_unique; [assumption|].
    destruct (to_i64_congruent ts) as [k1 E1].
    destruct (to_i64_congruent (to_i64 ts + ns)) as [k2 E2].
    destruct (to_u64_congruent (to_i64 (to_i64 ts + ns))) as [k3 E3].
    destruct (to_i64_congruent (to_u64 (to_i64 (to_i64 ts + ns)))) as [k4 E4].
    exists (- (k2 + k3 + k4)). lia.
  - apply to_u64_unique; [assumption|].
    destruct (to_i64_congruent ts) as [k1 E1].
    destruct (to_i64_congruent ts') as [k2 E2].
    destruct (to_i64_congruent (to_i64 ts' - to_i64 ts)) as [k3 E3].
    destruct (to_i64_congruent (to_i64 ts + to_i64 (to_i64 ts' - to_i64 ts))) as [k4 E4].
    exists (- (k2 + k3 + k4)). lia.
Qed.

Lemma add_time_diff_times_round_trip_witness :
  diff_times (add_time (2 ^ 64 - 5) 7) (2 ^ 64 - 5) = 7 /\
  add_time (2 ^ 64 - 5) (diff_times 2 (2 ^ 64 - 5)) = 2.
Proof.
  apply (add_time_diff_times_round_trip (2 ^ 64 - 5) 2 7);
    unfold is_u64, is_i64; lia.
Defined.

(** X2: below [2^63], [diff_times] is the plain difference and [add_time]
    the plain sum as long as the sum stays below [2^63]; so an evaluation
    at or after the last trade has a non-negative age. *)
Theorem diff_times_in_signed_range (ts1 ts2 : timestamp) (ns : nsecs) :
  0 <= ts1 < 2 ^ 63 -> 0 <= ts2 < 2 ^ 63 -> 0 <= ts1 + ns < 2 ^ 63 ->
  diff_times ts1 ts2 = ts1 - ts2 /\
  add_time ts1 ns = ts1 + ns /\
  (ts2 <= ts1 -> 0 <= diff_times ts1 ts2).
Proof.
  intros H1 H2 Hs. unfold diff_times, add_time.
  rewrite (as_ns_small ts1), (as_ns_small ts2) by assumption.
  rewrite (to_i64_id (ts1 - ts2)) by (unfold is_i64; lia).
  rewrite (to_i64_id (ts1 + ns)) by (unfold is_i64; lia).
  rewrite to_u64_id by (unfold is_u64; lia).
  repeat split; lia.
Qed.

Lemma diff_times_in_signed_range_witness :
  diff_times 130 70 = 130 - 70 /\ add_time 130 (-30) = 130 + -30 /\
  (70 <= 130 -> 0 <= diff_times 130 70).
Proof.
  apply (diff_times_in_signed_range 130 70 (-30)); lia.
Defined.

(** X3: below [2^63] and for an interval [> 0], [floor_time] is monotone and
    idempotent, the timestamp lies less than one interval after its floor,
    and every timestamp between the floor and the timestamp has the same
    floor. *)
Theorem floor_time_buckets (ts ts' : timestamp) (interval : nsecs) :
  0 <= ts -> ts <= ts' -> ts' < 2 ^ 63 -> 0 < interval ->
  floor_time ts interval <= floor_time ts' interval /\
  floor_time (floor_time ts' interval) interval = floor_time ts' interval /\
  floor_time ts' interval <= ts' < floor_time ts' interval + interval /\
  (floor_time ts' interval <= ts -> floor_time ts interval = floor_time ts' interval).
Proof.
  intros H0 Hle H1 Hi.
  pose proof (floor_time_monotone ts ts' interval H0 Hle H1 Hi) as Hmono.
  rewrite (floor_time_small ts') in * by lia.
  rewrite (floor_time_small ts) in * by lia.
  pose proof (Z.mod_pos_bound ts interval Hi) as Hm.
  pose proof (Z.mod_pos_bound ts' interval Hi) as Hm'.
  pose proof (Z.div_mod ts interval ltac:(lia)) as Hd.
  pose proof (Z.div_mod ts' interval ltac:(lia)) as Hd'.
  assert (Hfloor : ts' - ts' mod interval = interval * (ts' / interval)) by lia.
  assert (Hpos : 0 <= interval * (ts' / interval)).
  { apply Z.mul_nonneg_nonneg; [lia|apply Z.div_pos; lia]. }
  repeat split; try lia.
  - rewrite floor_time_small by lia.
    replace (ts' - ts' mod interval) with (ts' / interval * interval) by lia.
    rewrite Z.mod_mul by lia. lia.
  - intros Hin.
    assert (Hq : ts / interval = ts' / interval).
    { assert (ts' / interval <= ts / interval).
      { apply Z.div_le_lower_bound; lia. }
      pose proof (Z.div_le_mono ts ts' interval Hi Hle). lia. }
    nia.
Qed.

Lemma floor_time_buckets_witness :
  floor_time 125 60 <= floor_time 170 60 /\
  floor_time (floor_time 170 60) 60 = floor_time 170 60 /\
  floor_time 170 60 <= 170 < floor_time 170 60 + 60 /\
  (floor_time 170 60 <= 125 -> floor_time 125 60 = floor_time 170 60).
Proof.
  apply (floor_time_buckets 125 170 60); lia.
Defined.

(** ** Doubles: order and numbers *)

Lemma SFcompare_irrefl (a : spec_float) : cmp_lt (SFcompare a a) = false.
Proof.
  destruct a as [sa|sa| |sa ma ea]; sf_cases.
Qed.

Lemma SFcompare_asym (a b : spec_float) :
  cmp_lt (SFcompare a b) = true -> cmp_lt (SFcompare b a) = false.
Proof.
  destruct a as [sa|sa| |sa ma ea], b as [sb|sb| |sb mb eb]; sf_cases.
Qed.

Lemma SFcompare_total (a b : spec_float) :
  a <> S754_nan -> b <> S754_nan ->
  cmp_lt (SFcompare a b) = false -> cmp_le (SFcompare b a) = true.
Proof.
  destruct a as [sa|sa| |sa ma ea], b as [sb|sb| |sb mb eb]; sf_cases; congruence.
Qed.

Lemma SFcompare_refl_eq (a : spec_float) :
  a <> S754_nan -> SFcompare a a = Some Eq.
Proof.
  destruct a as [sa|sa| |sa ma ea]; simpl; intros H; try congruence.
  - destruct sa; reflexivity.
  - destruct sa; rewrite Z.compare_refl;
      change (Pos.compare_cont Eq ma ma) with (Pos.compare ma ma);
      rewrite Pos.compare_refl; reflexivity.
Qed.

(** A double is a number when it is not a NaN: when it equals itself. *)
Lemma number_iff (x : float) : (x =? x)%float = true <-> Prim2SF x <> S754_nan.
Proof.
  rewrite eqb_spec. unfold SFeqb. split.
  - intros H E. rewrite E in H. discriminate.
  - intros H. rewrite SFcompare_refl_eq; auto.
Qed.

Lemma ltb_irrefl (x : float) : (x <? x)%float = false.
Proof. rewrite ltb_cmp. apply SFcompare_irrefl. Qed.

Lemma ltb_asym (x y : float) : (x <? y)%float = true -> (y <? x)%float = false.
Proof. rewrite !ltb_cmp. apply SFcompare_asym. Qed.

Lemma ltb_trans (x y z : float) :
  (x <? y)%float = true -> (y <? z)%float = true -> (x <? z)%float = true.
Proof.
  rewrite !ltb_cmp. intros H1 H2.
  eapply SFcompare_le_lt_trans; [apply cmp_lt_le|]; eassumption.
Qed.

Lemma not_ltb_leb (x y : float) :
  (x =? x)%float = true -> (y =? y)%float = true ->
  (x <? y)%float = false -> (y <=? x)%float = true.
Proof.
  rewrite !number_iff, ltb_cmp, leb_cmp. apply SFcompare_total.
Qed.

Lemma leb_number (x y : float) :
  (x <=? y)%float = true -> (x =? x)%float = true /\ (y =? y)%float = true.
Proof.
  rewrite leb_cmp, !number_iff.
  destruct (Prim2SF x), (Prim2SF y); simpl; intros H; split; congruence.
Qed.

(** X4: the conversion of an integer to a [double] never gives a NaN. *)
Theorem as_interval_is_a_number (x : Z) :
  (as_interval x =? as_interval x)%float = true /\ is_nan (as_interval x) = false.
Proof.
  assert (H : (as_interval x =? as_interval x)%float = true)
    by (apply number_iff, as_interval_not_nan).
  split; [exact H|]. unfold is_nan. rewrite H. reflexivity.
Qed.

(** ** The price range *)

Lemma add_prices_bounds (prices : list price_val) :
  forall r : price_range.t,
  price_range.low_ r <= price_range.high_ r ->
  let r' := add_prices prices r in
  price_range.low_ r' <= price_range.low_ r /\
  price_range.high_ r <= price_range.high_ r' /\
  (forall p, In p prices -> price_range.low_ r' <= p <= price_range.high_ r') /\
  (price_range.high_ r' = price_range.high_ r \/ In (price_range.high_ r') prices) /\
  (price_range.low_ r' = price_range.low_ r \/ In (price_range.low_ r') prices).
Proof.
  induction prices as [|p prices IH]; intros r Hr; cbn [add_prices fold_left].
  - split; [lia|]. split; [lia|]. split; [intros q []|]. split; left; reflexivity.
  - specialize (IH (price_range.add_price p r)).
    fold (add_prices prices (price_range.add_price p r)) in *.
    cbn [price_range.add_price price_range.low_ price_range.high_] in IH.
    destruct (IH ltac:(lia)) as (Hl & Hh & Hin & Hhi & Hlo).
    split; [lia|]. split; [lia|]. split; [|split].
    + intros q [<-|Hq]; [lia|apply Hin, Hq].
    + destruct Hhi as [E|Hi]; [|right; right; exact Hi].
      rewrite E. destruct (Z.max_spec (price_range.high_ r) p) as [[_ ->]|[_ ->]];
        [right; left; reflexivity|left; reflexivity].
    + destruct Hlo as [E|Hi]; [|right; right; exact Hi].
      rewrite E. destruct (Z.min_spec (price_range.low_ r) p) as [[_ ->]|[_ ->]];
        [left; reflexivity|right; left; reflexivity].
Qed.

Lemma price_range_is_min_max_aux (open : price_val) (prices : list price_val) :
  let r := add_prices prices (price_range.open open) in
  price_range.low_ r <= price_range.high_ r /\
  (forall p, In p (open :: prices) -> price_range.low_ r <= p <= price_range.high_ r) /\
  In (price_range.high_ r) (open :: prices) /\
  In (price_range.low_ r) (open :: prices).
Proof.
  intros r.
  destruct (add_prices_bounds prices (price_range.open open) ltac:(simpl; lia))
    as (Hl & Hh & Hin & Hhi & Hlo).
  fold r in Hl, Hh, Hin, Hhi, Hlo.
  cbn [price_range.open price_range.low_ price_range.high_] in *.
  split; [lia|]. split; [|split].
  - intros q [<-|H]; [lia|apply Hin, H].
  - destruct Hhi as [->|H]; [left; reflexivity|right; exact H].
  - destruct Hlo as [->|H]; [left; reflexivity|right; exact H].
Qed.

(** X5: a [price_range] opened at a price and widened with any prices keeps
    [low <= high], holds every one of those prices, and its two ends are
    prices among them: they are the least and the greatest.  Without any
    price added the two ends are the opening price. *)
Theorem price_range_is_min_max (open : price_val) (prices : list price_val) :
  let r := add_prices prices (price_range.open open) in
  price_range.low_ r <= price_range.high_ r /\
  (forall p, In p (open :: prices) -> price_range.low_ r <= p <= price_range.high_ r) /\
  In (price_range.high_ r) (open :: prices) /\
  In (price_range.low_ r) (open :: prices) /\
  (prices = [] -> price_range.high_ r - price_range.low_ r = 0).
Proof.
  intros r.
  destruct (price_range_is_min_max_aux open prices) as (H1 & H2 & H3 & H4).
  fold r in H1, H2, H3, H4.
  split; [exact H1|]. split; [exact H2|]. split; [exact H3|]. split; [exact H4|].
  intros ->. subst r. simpl. lia.
Qed.

(** X6: the half width of a range just opened is 0, and after one price [p]
    is added to a range opened at [open] it is [|p - open| / 2] (the
    difference as a 64-bit integer, then halved in [double]). *)
Theorem price_range_interval (open p : price_val) :
  price_range.interval (price_range.open open) = 0%float /\
  price_range.interval (price_range.add_price p (price_range.open open))
  = (as_interval (to_i64 (Z.abs (p - open))) / 2)%float.
Proof.
  unfold price_range.interval. cbn [price_range.open price_range.add_price
                                    price_range.high_ price_range.low_].
  split.
  - rewrite Z.sub_diag. reflexivity.
  - replace (Z.max open p - Z.min open p) with (Z.abs (p - open)) by lia.
    reflexivity.
Qed.

(** ** Feeding the price model *)

Section PriceModelFeeding.

Context {V : Type} (VM : volatility_model V).

Lemma add_trade_state (trade : price_time) (m m' : standard_price_model.t V) :
  standard_price_model.add_trade VM trade m = Ok m' ->
  standard_price_model.last_trade_ m' = Some trade /\
  standard_price_model.range_since_eval_ m'
  = Some (price_range.add_price (price_ trade) (range_or_open m (price_ trade))) /\
  vol_add_trade trade (standard_price_model.volatility_model_ m)
  = Ok (standard_price_model.volatility_model_ m') /\
  standard_price_model.min_interval_ m' = standard_price_model.min_interval_ m /\
  standard_price_model.init_volatility_ m' = standard_price_model.init_volatility_ m /\
  standard_price_model.timeout_ns_ m' = standard_price_model.timeout_ns_ m /\
  standard_price_model.min_slot_ns_ m' = standard_price_model.min_slot_ns_ m.
Proof.
  unfold standard_price_model.add_trade, range_or_open. intros E.
  destruct (vol_add_trade trade _) as [v|e]; cbn [bind] in E; [|discriminate].
  injection E as <-. destruct m as [v0 mi iv to ms lt [r|]]; simpl; auto 10.
Qed.

Lemma feed_trades_state (trades : list price_time) :
  forall (m m' : standard_price_model.t V) (trade : price_time),
  feed_trades VM (trade :: trades) m = Ok m' ->
  standard_price_model.last_trade_ m' = latest_trade (trade :: trades) /\
  standard_price_model.range_since_eval_ m'
  = Some (add_prices (map price_ (trade :: trades)) (range_or_open m (price_ trade))) /\
  standard_price_model.timeout_ns_ m' = standard_price_model.timeout_ns_ m /\
  standard_price_model.min_slot_ns_ m' = standard_price_model.min_slot_ns_ m /\
  standard_price_model.min_interval_ m' = standard_price_model.min_interval_ m /\
  standard_price_model.init_volatility_ m' = standard_price_model.init_volatility_ m.
Proof.
  induction trades as [|next trades IH]; intros m m' trade E.
  - cbn [feed_trades] in E.
    destruct (standard_price_model.add_trade VM trade m) as [m1|e] eqn:E1;
      cbn [bind] in E; [|discriminate].
    injection E as <-.
    destruct (add_trade_state _ _ _ E1) as (Hl & Hr & _ & Hmi & Hiv & Hto & Hms).
    simpl. auto 10.
  - change (feed_trades VM (trade :: next :: trades) m)
      with (m1 <- standard_price_model.add_trade VM trade m ;;
            feed_trades VM (next :: trades) m1) in E.
    destruct (standard_price_model.add_trade VM trade m) as [m1|e] eqn:E1;
      cbn [bind] in E; [|discriminate].
    destruct (add_trade_state _ _ _ E1) as (Hl & Hr & _ & Hmi & Hiv & Hto & Hms).
    destruct (IH m1 m' next E) as (Hl' & Hr' & Hto' & Hms' & Hmi' & Hiv').
    repeat split; try congruence.
    + rewrite Hl'. cbn [latest_trade]. destruct (latest_trade trades); reflexivity.
    + rewrite Hr'. unfold range_or_open at 1. rewrite Hr. reflexivity.
Qed.

(** X7: after any trades are fed to a model whose range is empty (a fresh
    model, or one just evaluated), [last_trade] is the latest of them and
    [range_since_eval] runs from the least to the greatest of their prices:
    it holds every price fed and its two ends are prices fed. *)
Theorem range_since_eval_spans_trades
  (m m' : standard_price_model.t V) (trade : price_time) (trades : list price_time) :
  standard_price_model.range_since_eval_ m = None ->
  feed_trades VM (trade :: trades) m = Ok m' ->
  standard_price_model.last_trade_ m' = latest_trade (trade :: trades) /\
  exists r,
    standard_price_model.range_since_eval_ m' = Some r /\
    price_range.low_ r <= price_range.high_ r /\
    (forall fed, In fed (trade :: trades) ->
       price_range.low_ r <= price_ fed <= price_range.high_ r) /\
    In (price_range.high_ r) (map price_ (trade :: trades)) /\
    In (price_range.low_ r) (map price_ (trade :: trades)).
Proof.
  intros Hnone E.
  destruct (feed_trades_state trades m m' trade E) as (Hl & Hr & _).
  split; [exact Hl|].
  unfold range_or_open in Hr. rewrite Hnone in Hr.
  eexists. split; [exact Hr|].
  cbn [map add_prices fold_left].
  fold (add_prices (map price_ trades)
          (price_range.add_price (price_ trade) (price_range.open (price_ trade)))).
  replace (price_range.add_price (price_ trade) (price_range.open (price_ trade)))
    with (price_range.open (price_ trade)).
  2:{ unfold price_range.add_price, price_range.open. simpl.
      rewrite Z.max_id, Z.min_id. reflexivity. }
  destruct (price_range_is_min_max_aux (price_ trade) (map price_ trades))
    as (H1 & H2 & H3 & H4).
  split; [exact H1|]. split; [|split; assumption].
  intros fed Hfed. apply H2. destruct Hfed as [<-|Hfed]; [left; reflexivity|].
  right. apply in_map. exact Hfed.
Qed.

End PriceModelFeeding.

(** ** The estimate *)

Lemma SFdiv_core_binary_nonneg (m1 : positive) (e1 : Z) (m2 : positive) (e2 : Z) :
  0 <= fst (fst (SFdiv_core_binary prec emax (Zpos m1) e1 (Zpos m2) e2)).
Proof.
  unfold SFdiv_core_binary.
  set (s := _ - _ - _). 
  set (m' := match s with Z0 => Zpos m1 | Zpos _ => Z.shiftl (Zpos m1) s | Zneg _ => 0 end).
  assert (Hm' : 0 <= m').
  { subst m'. destruct s; try lia. apply Z.shiftl_nonneg. lia. }
  pose proof (Z_div_mod m' (Zpos m2) ltac:(lia)) as Hdm.
  destruct (Z.div_eucl m' (Zpos m2)) as [q r]. simpl.
  destruct Hdm as [Hq Hr]. nia.
Qed.

Lemma SFdiv_finite_not_nan (x : spec_float) (sy : bool) (my : positive) (ey : Z) :
  x <> S754_nan -> SF64div x (S754_finite sy my ey) <> S754_nan.
Proof.
  intros Hx. unfold SF64div, SFdiv.
  destruct x as [sx|sx| |sx mx ex]; try discriminate; [congruence|].
  pose proof (SFdiv_core_binary_nonneg mx ex my ey) as Hq.
  destruct (SFdiv_core_binary prec emax (Zpos mx) ex (Zpos my) ey) as [[mz ez] lz].
  apply binary_round_aux_not_nan. exact Hq.
Qed.

Lemma interval_is_a_number (r : price_range.t) :
  (price_range.interval r =? price_range.interval r)%float = true.
Proof.
  apply number_iff. unfold price_range.interval. rewrite div_spec.
  change (Prim2SF 2) with (S754_finite false 4503599627370496 (-51)).
  apply SFdiv_finite_not_nan, as_interval_not_nan.
Qed.

Lemma fmax_not_below_right (a b : float) : (fmax a b <? b)%float = false.
Proof.
  unfold fmax. destruct (a <? b)%float eqn:E; [apply ltb_irrefl|exact E].
Qed.

Lemma fmax_not_below (a b c : float) :
  (a <? c)%float = false -> (fmax a b <? c)%float = false.
Proof.
  intros Ha. unfold fmax. destruct (a <? b)%float eqn:E; [|exact Ha].
  destruct (b <? c)%float eqn:E'; [|reflexivity].
  rewrite (ltb_trans a b c E E') in Ha. discriminate.
Qed.

Section Estimate.

Context {V : Type} (VM : volatility_model V).

(** X8: [eval_at_time] returns an estimate exactly when there is a last
    trade, the evaluation is between 0 and [timeout_ns] after it, and the
    volatility query returns.  The estimate's price is the last trade's and
    the state it leaves has an empty range and the same last trade.  When it
    returns no estimate it leaves the state as it was, and either no trade
    was ever fed or the last one is more than [timeout_ns] old. *)
Theorem eval_at_time_outcomes (m : standard_price_model.t V) (now : timestamp) :
  ((exists est m', standard_price_model.eval_at_time VM now m = Ok (Some est, m')) <->
   (exists last,
      standard_price_model.last_trade_ m = Some last /\
      0 <= diff_times now (time_ last) <= standard_price_model.timeout_ns_ m /\
      exists vol v,
        vol_eval_at_time now (standard_price_model.volatility_model_ m) = Ok (vol, v))) /\
  (forall est m',
     standard_price_model.eval_at_time VM now m = Ok (Some est, m') ->
     Some (est_price_ est)
     = option_map price_ (standard_price_model.last_trade_ m) /\
     standard_price_model.range_since_eval_ m' = None /\
     standard_price_model.last_trade_ m' = standard_price_model.last_trade_ m) /\
  (forall m',
     standard_price_model.eval_at_time VM now m = Ok (None, m') ->
     m' = m /\
     (standard_price_model.last_trade_ m = None \/
      exists last,
        standard_price_model.last_trade_ m = Some last /\
        standard_price_model.timeout_ns_ m < diff_times now (time_ last))).
Proof.
  split; [split|split].
  - intros (est & m' & E).
    destruct (standard_price_model.last_trade_ m) as [last|] eqn:Hlast.
    + destruct (eval_at_time_some VM m m' now last est Hlast E) as (Hel & Hq).
      exists last. auto.
    + unfold standard_price_model.eval_at_time in E. rewrite Hlast in E. discriminate.
  - intros (last & Hlast & Hel & vol & v & Hq).
    pose proof (eval_at_time_fresh VM m now last vol v Hlast Hel Hq) as E.
    cbv zeta in E. eauto.
  - intros est m' E.
    destruct (standard_price_model.last_trade_ m) as [last|] eqn:Hlast.
    + destruct (eval_at_time_some VM m m' now last est Hlast E) as (Hel & vol & v & Hq).
      pose proof (eval_at_time_fresh VM m now last vol v Hlast Hel Hq) as F.
      cbv zeta in F. rewrite F in E. injection E as <- <-.
      simpl. auto.
    + unfold standard_price_model.eval_at_time in E. rewrite Hlast in E. discriminate.
  - intros m' E. unfold standard_price_model.eval_at_time, PC_ASSERT in E.
    destruct (standard_price_model.last_trade_ m) as [last|] eqn:Hlast.
    + destruct (Z.geb_spec (diff_times now (time_ last)) 0); cbn [bind] in E;
        [|discriminate].
      destruct (Z.gtb_spec (diff_times now (time_ last))
                  (standard_price_model.timeout_ns_ m)).
      * injection E as <-. split; [reflexivity|]. right. exists last. split; [reflexivity|lia].
      * destruct (vol_eval_at_time now _) as [[vol v]|e]; cbn [bind] in E;
          [|discriminate].
        destruct (standard_price_model.range_since_eval_ _); discriminate.
    + injection E as <-. auto.
Qed.

(** X9: the confidence of an estimate is never below the floor
    [min_interval] and never below the half width of the range since the
    last evaluation; when it is a number (not a NaN) it is at least both.
    ([0 <= min_interval] is what the constructor asserts.) *)
Theorem estimate_conf_bounds
  (m m' : standard_price_model.t V) (now : timestamp) (est : price_estimate) :
  standard_price_model.eval_at_time VM now m = Ok (Some est, m') ->
  (conf_ est <? standard_price_model.min_interval_ m)%float = false /\
  (forall r, standard_price_model.range_since_eval_ m = Some r ->
     (conf_ est <? price_range.interval r)%float = false) /\
  ((conf_ est =? conf_ est)%float = true ->
   (0 <=? standard_price_model.min_interval_ m)%float = true ->
   (standard_price_model.min_interval_ m <=? conf_ est)%float = true /\
   forall r, standard_price_model.range_since_eval_ m = Some r ->
     (price_range.interval r <=? conf_ est)%float = true).
Proof.
  intros E.
  destruct (standard_price_model.last_trade_ m) as [last|] eqn:Hlast.
  2:{ unfold standard_price_model.eval_at_time in E. rewrite Hlast in E. discriminate. }
  destruct (eval_at_time_some VM m m' now last est Hlast E) as (Hel & vol & v & Hq).
  pose proof (eval_at_time_fresh VM m now last vol v Hlast Hel Hq) as F.
  cbv zeta in F. rewrite F in E. injection E as <- _. cbn [conf_].
  set (base := fmax _ (standard_price_model.min_interval_ m)).
  assert (Hbase : (base <? standard_price_model.min_interval_ m)%float = false)
    by apply fmax_not_below_right.
  assert (Hfloor : (match standard_price_model.range_since_eval_ m with
                    | Some range => fmax base (price_range.interval range)
                    | None => base
                    end <? standard_price_model.min_interval_ m)%float = false).
  { destruct (standard_price_model.range_since_eval_ m);
      [apply fmax_not_below|]; exact Hbase. }
  assert (Hrange : forall r, standard_price_model.range_since_eval_ m = Some r ->
            (match standard_price_model.range_since_eval_ m with
             | Some range => fmax base (price_range.interval range)
             | None => base
             end <? price_range.interval r)%float = false).
  { intros r ->. apply fmax_not_below_right. }
  split; [exact Hfloor|]. split; [exact Hrange|].
  intros Hnum Hmi. split.
  - apply not_ltb_leb; [exact Hnum| |exact Hfloor].
    apply (leb_number _ _ Hmi).
  - intros r Hr. apply not_ltb_leb; [exact Hnum|apply interval_is_a_number|].
    apply Hrange, Hr.
Qed.

End Estimate.

(** ** The states of the price model *)

Section PriceModelStates.

Context {V : Type} (VM : volatility_model V).

Lemma eval_at_time_state (m m' : standard_price_model.t V) (now : timestamp)
  (actual : option price_estimate) :
  standard_price_model.eval_at_time VM now m = Ok (actual, m') ->
  standard_price_model.last_trade_ m' = standard_price_model.last_trade_ m /\
  (standard_price_model.range_since_eval_ m' = None \/
   standard_price_model.range_since_eval_ m' = standard_price_model.range_since_eval_ m) /\
  standard_price_model.min_interval_ m' = standard_price_model.min_interval_ m /\
  standard_price_model.init_volatility_ m' = standard_price_model.init_volatility_ m /\
  standard_price_model.timeout_ns_ m' = standard_price_model.timeout_ns_ m /\
  standard_price_model.min_slot_ns_ m' = standard_price_model.min_slot_ns_ m.
Proof.
  unfold standard_price_model.eval_at_time, PC_ASSERT. intros E.
  destruct (standard_price_model.last_trade_ m) as [last|] eqn:Hlast.
  - destruct (diff_times now (time_ last) >=? 0); cbn [bind] in E; [|discriminate].
    destruct (diff_times now (time_ last) >? standard_price_model.timeout_ns_ m).
    + injection E as <- <-. rewrite Hlast. auto 10.
    + destruct (vol_eval_at_time now _) as [[vol v]|e]; cbn [bind] in E; [|discriminate].
      destruct m as [v0 mi iv to ms lt [r|]]; simpl in *; injection E as <- <-;
        simpl; auto 10.
  - injection E as <- <-. rewrite Hlast. auto 10.
Qed.

Lemma replay_state (evs : list price_model_test.event) :
  forall m m' : standard_price_model.t V,
  replay VM evs m = Ok m' ->
  (standard_price_model.range_since_eval_ m <> None ->
   standard_price_model.last_trade_ m <> None) ->
  range_ordered m ->
  standard_price_model.last_trade_ m'
  = or_latest (latest_trade (trades_of evs)) (standard_price_model.last_trade_ m) /\
  (standard_price_model.range_since_eval_ m' <> None ->
   standard_price_model.last_trade_ m' <> None) /\
  range_ordered m' /\
  standard_price_model.min_interval_ m' = standard_price_model.min_interval_ m /\
  standard_price_model.init_volatility_ m' = standard_price_model.init_volatility_ m /\
  standard_price_model.timeout_ns_ m' = standard_price_model.timeout_ns_ m /\
  standard_price_model.min_slot_ns_ m' = standard_price_model.min_slot_ns_ m.
Proof.
  induction evs as [|[trade|now actual] evs IH]; intros m m' E Hrl Hord;
    cbn [replay] in E.
  - injection E as <-. simpl. auto 10.
  - destruct (standard_price_model.add_trade VM trade m) as [m1|e] eqn:E1;
      cbn [bind] in E; [|discriminate].
    destruct (add_trade_state VM _ _ _ E1) as (Hl & Hr & _ & Hmi & Hiv & Hto & Hms).
    destruct (IH m1 m' E) as (Hl' & Hrl' & Hord' & Hmi' & Hiv' & Hto' & Hms').
    + rewrite Hl. discriminate.
    + unfold range_ordered. rewrite Hr. unfold range_or_open.
      unfold range_ordered in Hord.
      destruct (standard_price_model.range_since_eval_ m); simpl; lia.
    + split; [|split; [exact Hrl'|split; [exact Hord'|repeat split; congruence]]].
      rewrite Hl', Hl. cbn [trades_of latest_trade].
      destruct (latest_trade (trades_of evs)); reflexivity.
  - destruct (standard_price_model.eval_at_time VM now m) as [[r m1]|e] eqn:E1;
      cbn [bind] in E; [|discriminate].
    destruct (eval_at_time_state _ _ _ _ E1) as (Hl & Hr & Hmi & Hiv & Hto & Hms).
    destruct (IH m1 m' E) as (Hl' & Hrl' & Hord' & Hmi' & Hiv' & Hto' & Hms').
    + rewrite Hl. destruct Hr as [->| ->]; [congruence|exact Hrl].
    + unfold range_ordered. destruct Hr as [->| ->]; [exact I|exact Hord].
    + split; [|split; [exact Hrl'|split; [exact Hord'|repeat split; congruence]]].
      rewrite Hl', Hl. reflexivity.
Qed.


End PriceModelStates.

(** ** What the candle ring holds *)

Lemma zrange_shift {A : Type} (f : Z -> A) (i : Z) (n : nat) :
  map f (zrange (i + 1) n) = map (fun j => f (j + 1)) (zrange i n).
Proof.
  revert i. induction n as [|n IH]; intros i; simpl; [reflexivity|].
  rewrite IH. reflexivity.
Qed.

Lemma firstn_zrange (k n : nat) (i : Z) :
  firstn k (zrange i n) = zrange i (Nat.min k n).
Proof.
  revert i n. induction k as [|k IH]; intros i [|n]; simpl; try reflexivity.
  rewrite IH. reflexivity.
Qed.

Lemma length_zrange (i : Z) (n : nat) : List.length (zrange i n) = n.
Proof.
  revert i. induction n as [|n IH]; intros i; simpl; [reflexivity|].
  rewrite IH. reflexivity.
Qed.

Lemma nodup_app_fresh (x : Z) (l : list Z) :
  ~ In x l -> nodup Z.eq_dec (l ++ [x]) = nodup Z.eq_dec l ++ [x].
Proof.
  induction l as [|a l IH]; intros Hx; simpl; [reflexivity|].
  assert (Ha : a <> x) by (intros ->; apply Hx; left; reflexivity).
  assert (Hl : ~ In x l) by (intros H; apply Hx; right; exact H).
  destruct (in_dec Z.eq_dec a (l ++ [x])) as [Hin|Hin];
    destruct (in_dec Z.eq_dec a l) as [Hin'|Hin']; simpl; auto.
  - apply in_app_or in Hin. destruct Hin as [Hin|[Hin|[]]]; congruence.
  - exfalso. apply Hin, in_or_app. left. exact Hin'.
  - f_equal. apply IH. exact Hl.
Qed.

Lemma nodup_snoc_twice (x : Z) (l : list Z) :
  nodup Z.eq_dec ((l ++ [x]) ++ [x]) = nodup Z.eq_dec (l ++ [x]).
Proof.
  induction l as [|a l IH]; simpl.
  - destruct (Z.eq_dec x x); [reflexivity|congruence].
  - destruct (in_dec Z.eq_dec a ((l ++ [x]) ++ [x])) as [Hin|Hin];
      destruct (in_dec Z.eq_dec a (l ++ [x])) as [Hin'|Hin']; simpl.
    + exact IH.
    + exfalso. apply Hin'. apply in_app_or in Hin.
      destruct Hin as [Hin|[Hin|[]]]; [exact Hin|].
      apply in_or_app. right. left. exact Hin.
    + exfalso. apply Hin, in_or_app. left. exact Hin'.
    + f_equal. exact IH.
Qed.

Lemma summarize_snoc (candle_ns : nsecs) (b : timestamp) (seen : list price_time)
  (trade : price_time) :
  summarize candle_ns b (seen ++ [trade])
  = summarize_step candle_ns b (summarize candle_ns b seen) trade.
Proof. unfold summarize. rewrite fold_left_app. reflexivity. Qed.

Lemma summarize_absent (candle_ns : nsecs) (b : timestamp) (seen : list price_time) :
  ~ In b (buckets candle_ns seen) -> summarize candle_ns b seen = None.
Proof.
  induction seen as [|trade seen IH] using rev_ind; intros Hb; [reflexivity|].
  rewrite summarize_snoc. rewrite buckets_snoc in Hb.
  unfold summarize_step.
  destruct (Z.eqb_spec (floor_time (time_ trade) candle_ns) b) as [E|E].
  - exfalso. apply Hb, in_or_app. right. left. exact E.
  - apply IH. intros H. apply Hb, in_or_app. left. exact H.
Qed.

Lemma new_contents_inv (lookback : option Z) (candle_ns : option nsecs)
  (m0 : candle_model.t) :
  candle_model.new lookback candle_ns = Ok m0 -> contents_inv m0 [].
Proof.
  intros E. destruct (new_ok _ _ _ E) as (Hwf & Hc & _).
  constructor.
  - unfold ring_candles, recent_buckets. rewrite Hc. simpl.
    rewrite firstn_nil. reflexivity.
  - intros i Hi. lia.
  - left. reflexivity.
Qed.

Lemma summarize_present (candle_ns : nsecs) (b : timestamp) (seen : list price_time)
  (c : candle) :
  summarize candle_ns b seen = Some c -> In b (buckets candle_ns seen).
Proof.
  intros E. destruct (in_dec Z.eq_dec b (buckets candle_ns seen)) as [H|H]; [exact H|].
  rewrite (summarize_absent _ _ _ H) in E. discriminate.
Qed.

Lemma ring_candles_cons (m : candle_model.t) :
  0 < candle_model.count_ m ->
  ring_candles m
  = nth_newest m 0
    :: map (fun j => nth_newest m (j + 1))
           (zrange 0 (Z.to_nat (candle_model.count_ m - 1))).
Proof.
  intros H. unfold ring_candles.
  replace (Z.to_nat (candle_model.count_ m))
    with (S (Z.to_nat (candle_model.count_ m - 1))) by lia.
  cbn [zrange map]. rewrite zrange_shift. reflexivity.
Qed.

Lemma add_trade_contents (trade : price_time) (latest : option price_time)
  (seen : list price_time) (m m' : candle_model.t) :
  ring_inv m latest -> count_inv m seen -> contents_inv m seen ->
  candle_model.add_trade trade m = Ok m' ->
  contents_inv m' (seen ++ [trade]).
Proof.
  intros Hinv [Hcnt Hbelow Hfront] [Hstarts Hcandles Hlast] E.
  pose proof (inv_wf _ _ Hinv) as Hwf.
  pose proof (inv_decreasing _ _ Hinv) as Hdec.
  destruct (add_trade_frame _ _ _ Hwf E) as [Hns Hcap].
  pose proof (add_trade_cases _ _ _ Hwf E) as Hcases.
  set (p := as_interval (price_ trade)) in *.
  set (cns := candle_model.candle_ns_ m) in *.
  set (s := floor_time (time_ trade) cns) in *.
  pose proof Hwf as Hwf0. wf_facts Hwf0.
  assert (Hd0 : 0 <= distinct_buckets cns seen) by (unfold distinct_buckets; lia).
  destruct Hcases as [[Hnew ->]|(Hc & Hs & ->)].
  - (* a new front candle *)
    pose proof (prepend_wf m p s Hwf) as Hwf1.
    assert (Hcnt' : candle_model.count_ (candle_model.widen p (candle_model.prepend p s m))
                    = Z.min (candle_model.count_ m + 1) (candle_model.capacity_ m))
      by exact (prepend_count m p s Hwf).
    assert (H0 : nth_newest (candle_model.widen p (candle_model.prepend p s m)) 0
                 = {| start := s; high := p; low := p |}).
    { rewrite widen_nth_newest_0 by assumption. unfold front_candle.
      rewrite prepend_nth_newest_0 by assumption. cbn [start high low].
      rewrite fmax_same, fmin_same. reflexivity. }
    assert (HS : forall i, 1 <= i < candle_model.capacity_ m ->
                 nth_newest (candle_model.widen p (candle_model.prepend p s m)) i
                 = nth_newest m (i - 1)).
    { intros i Hi. rewrite widen_nth_newest_other by (assumption || (simpl; lia)).
      apply prepend_nth_newest_succ; assumption. }
    assert (Hfresh : ~ In s (buckets cns seen)).
    { intros Hin. destruct Hnew as [Hz|Hlt].
      - rewrite Hz in Hcnt.
        assert (Hnil : seen = []) by (apply (distinct_zero cns); lia).
        subst seen. destruct Hin.
      - apply Hbelow in Hin. lia. }
    constructor; rewrite ?Hns, ?Hcap; fold cns.
    + rewrite ring_candles_cons by lia. rewrite Hcnt', H0. cbn [map start].
      unfold recent_buckets. rewrite buckets_snoc. fold s.
      rewrite nodup_app_fresh, rev_unit by assumption.
      replace (Z.to_nat (candle_model.capacity_ m))
        with (S (Z.to_nat (candle_model.capacity_ m - 1))) by lia.
      cbn [firstn]. f_equal.
      replace (Z.to_nat (Z.min (candle_model.count_ m + 1) (candle_model.capacity_ m) - 1))
        with (Nat.min (Z.to_nat (candle_model.capacity_ m - 1))
                      (Z.to_nat (candle_model.count_ m))) by lia.
      rewrite map_map.
      rewrite (map_ext_in _ (fun j => start (nth_newest m j))).
      2:{ intros j Hj. apply in_zrange in Hj. rewrite HS by lia.
          do 2 f_equal. lia. }
      replace (map (fun j => start (nth_newest m j))
                 (zrange 0 (Nat.min (Z.to_nat (candle_model.capacity_ m - 1))
                                    (Z.to_nat (candle_model.count_ m)))))
        with (firstn (Z.to_nat (candle_model.capacity_ m - 1))
                (map start (ring_candles m))).
      2:{ unfold ring_candles. rewrite map_map, firstn_map, firstn_zrange. reflexivity. }
      transitivity (firstn (Z.to_nat (candle_model.capacity_ m - 1))
                      (recent_buckets cns seen (candle_model.capacity_ m)));
        [f_equal; exact Hstarts|].
      unfold recent_buckets. rewrite firstn_firstn. f_equal. lia.
    + intros i Hi. rewrite Hcnt' in Hi.
      destruct (Z.eq_dec i 0) as [->|Hne].
      * rewrite H0. cbn [start]. rewrite summarize_snoc, (summarize_absent _ _ _ Hfresh).
        unfold summarize_step. fold s. rewrite Z.eqb_refl. reflexivity.
      * rewrite (HS i) by lia.
        pose proof (Hcandles (i - 1) ltac:(lia)) as Hi1.
        rewrite summarize_snoc, Hi1. unfold summarize_step. fold s.
        destruct (Z.eqb_spec s (start (nth_newest m (i - 1)))) as [Eq|_]; [|reflexivity].
        exfalso. apply Hfresh. rewrite Eq. eapply summarize_present. exact Hi1.
    + right. exists (buckets cns seen). rewrite buckets_snoc. fold s.
      unfold front_candle. rewrite H0. reflexivity.
  - (* the front candle widened *)
    assert (H0 : nth_newest (candle_model.widen p m) 0
                 = {| start := s; high := fmax (high (front_candle m)) p;
                      low := fmin (low (front_candle m)) p |}).
    { rewrite widen_nth_newest_0 by assumption. rewrite Hs. reflexivity. }
    assert (HS : forall i, 1 <= i < candle_model.capacity_ m ->
                 nth_newest (candle_model.widen p m) i = nth_newest m i).
    { intros i Hi. apply widen_nth_newest_other; assumption. }
    assert (Hseen : seen <> []).
    { intros ->. unfold distinct_buckets, buckets in Hcnt. simpl in Hcnt. lia. }
    constructor; cbn [candle_model.candle_ns_ candle_model.capacity_
                        candle_model.count_ candle_model.widen]; fold cns.
    + unfold ring_candles.
      cbn [candle_model.count_ candle_model.widen].
      rewrite map_map.
      rewrite (map_ext_in _ (fun j => start (nth_newest m j))).
      2:{ intros j Hj. apply in_zrange in Hj.
          destruct (Z.eq_dec j 0) as [->|Hne].
          - rewrite H0. cbn [start]. exact Hs.
          - rewrite HS by lia. reflexivity. }
      rewrite <- (map_map (nth_newest m) start). fold (ring_candles m).
      transitivity (recent_buckets cns seen (candle_model.capacity_ m));
        [exact Hstarts|].
      unfold recent_buckets. rewrite buckets_snoc. fold s.
      destruct Hlast as [->|[older Hold]]; [congruence|].
      fold cns in Hold. rewrite Hold, <- Hs, nodup_snoc_twice. reflexivity.
    + intros i Hi.
      destruct (Z.eq_dec i 0) as [->|Hne].
      * rewrite H0. cbn [start].
        pose proof (Hcandles 0 ltac:(lia)) as Hc0.
        fold (front_candle m) in Hc0. rewrite <- Hs in Hc0.
        rewrite summarize_snoc, Hc0. unfold summarize_step. fold s.
        rewrite Z.eqb_refl. reflexivity.
      * rewrite (HS i) by lia.
        pose proof (Hcandles i ltac:(lia)) as Hci.
        rewrite summarize_snoc, Hci. unfold summarize_step. fold s.
        destruct (Z.eqb_spec s (start (nth_newest m i))) as [Eq|_]; [|reflexivity].
        exfalso. pose proof (Hdec 0 i ltac:(lia) ltac:(lia) ltac:(lia)) as Hlt.
        fold (front_candle m) in Hlt. lia.
    + right. exists (buckets cns seen). rewrite buckets_snoc. fold s.
      unfold front_candle. rewrite H0. reflexivity.
Qed.

Lemma add_trades_contents (rest : list price_time) :
  forall (m m' : candle_model.t) (latest : option price_time) (seen : list price_time),
  ring_inv m latest -> count_inv m seen -> contents_inv m seen ->
  add_trades rest m = Ok m' ->
  contents_inv m' (seen ++ rest) /\ count_inv m' (seen ++ rest).
Proof.
  induction rest as [|trade rest IH]; intros m m' latest seen Hinv Hcnt Hcont E;
    simpl in E.
  - injection E as <-. rewrite app_nil_r. auto.
  - destruct (candle_model.add_trade trade m) as [m1|e] eqn:E1; simpl in E; [|discriminate].
    replace (seen ++ trade :: rest) with ((seen ++ [trade]) ++ rest)
      by (rewrite <- app_assoc; reflexivity).
    apply (IH m1 m' (Some trade)).
    + eapply add_trade_inv; eassumption.
    + eapply add_trade_count; eassumption.
    + eapply add_trade_contents; eassumption.
    + exact E.
Qed.

Lemma add_trades_frame (trades : list price_time) :
  forall m m' : candle_model.t,
  ring_wf m -> add_trades trades m = Ok m' ->
  candle_model.candle_ns_ m' = candle_model.candle_ns_ m /\
  candle_model.capacity_ m' = candle_model.capacity_ m /\ ring_wf m'.
Proof.
  induction trades as [|x l IH]; intros m m' Hm E; simpl in E.
  - injection E as <-. auto.
  - destruct (candle_model.add_trade x m) as [m1|e] eqn:E1; simpl in E; [|discriminate].
    destruct (add_trade_frame _ _ _ Hm E1) as [<- <-].
    assert (Hm1 : ring_wf m1).
    { destruct (add_trade_cases _ _ _ Hm E1) as [[_ ->]|(_ & _ & ->)];
        auto using widen_wf, prepend_wf. }
    apply IH; assumption.
Qed.

(** X11: after any sequence of trades that the candle model took whole, the
    ring holds, newest first, the most recent distinct buckets of the trades,
    as many as its capacity [lookback + 1] allows ([count_] is the lesser of
    the number of distinct buckets and the capacity), and the candle of each
    is the summary of the trades of that bucket: its start, and the high and
    low of their prices taken in order with [std::max] and [std::min]. *)
Theorem ring_summarizes_recent_buckets
  (lookback : option Z) (candle_ns : option nsecs)
  (trades : list price_time) (m0 m : candle_model.t) :
  candle_model.new lookback candle_ns = Ok m0 ->
  add_trades trades m0 = Ok m ->
  let ns := value_or candle_ns candle_model.DEFAULT_DURATION in
  let capacity := candle_model.capacity_ m0 in
  candle_model.count_ m = Z.min (distinct_buckets ns trades) capacity /\
  map start (ring_candles m) = recent_buckets ns trades capacity /\
  map Some (ring_candles m)
  = map (fun b => summarize ns b trades) (recent_buckets ns trades capacity).
Proof.
  intros Enew E ns capacity.
  destruct (new_ok _ _ _ Enew) as (Hwf0 & _ & _ & Hns0).
  destruct (add_trades_frame trades m0 m Hwf0 E) as (Hns & Hcap & Hwf).
  destruct (add_trades_contents trades m0 m None [] (new_inv _ _ _ Enew)
              (new_count_inv _ _ _ Enew) (new_contents_inv _ _ _ Enew) E)
    as [[Hstarts Hcandles _] [Hcnt _ _]].
  simpl in Hstarts, Hcandles, Hcnt.
  rewrite Hns, Hns0 in Hstarts, Hcandles, Hcnt. rewrite Hcap in Hstarts, Hcnt.
  fold ns capacity in Hstarts, Hcandles, Hcnt.
  split; [exact Hcnt|]. split; [exact Hstarts|].
  rewrite <- Hstarts, map_map. unfold ring_candles. rewrite !map_map.
  apply map_ext_in. intros i Hi. apply in_zrange in Hi.
  symmetry. apply Hcandles. lia.
Qed.

(** ** The assertions of [eval_volatility] on the rings that trades build *)

Lemma leb_trans (x y z : float) :
  (x <=? y)%float = true -> (y <=? z)%float = true -> (x <=? z)%float = true.
Proof.
  intros Hxy Hyz.
  destruct (leb_number _ _ Hxy) as [Hx Hy]. destruct (leb_number _ _ Hyz) as [_ Hz].
  destruct (z <? x)%float eqn:E; [|apply not_ltb_leb; assumption].
  exfalso. rewrite leb_cmp in Hxy, Hyz. rewrite ltb_cmp in E.
  pose proof (SFcompare_lt_le_trans _ _ _ E Hxy) as Hzy.
  pose proof (SFcompare_lt_le_trans _ _ _ Hzy Hyz) as Hzz.
  rewrite SFcompare_irrefl in Hzz. discriminate.
Qed.

Lemma ltb_leb (x y : float) : (x <? y)%float = true -> (x <=? y)%float = true.
Proof. rewrite ltb_cmp, leb_cmp. apply cmp_lt_le. Qed.

Lemma fmin_leb_left (a b : float) :
  (a =? a)%float = true -> (fmin a b <=? a)%float = true.
Proof.
  intros Ha. unfold fmin. destruct (b <? a)%float eqn:E; [apply ltb_leb, E|].
  apply leb_refl, number_iff, Ha.
Qed.

Lemma fmax_leb_left (a b : float) :
  (a =? a)%float = true -> (a <=? fmax a b)%float = true.
Proof.
  intros Ha. unfold fmax. destruct (a <? b)%float eqn:E; [apply ltb_leb, E|].
  apply leb_refl, number_iff, Ha.
Qed.

(** The least low of two ordered candles is at most their greatest high. *)
Lemma min_low_below_max_high (l1 h1 l2 h2 : float) :
  (l1 <=? h1)%float = true -> (l2 <=? h2)%float = true ->
  (fmin l1 l2 <=? fmax h1 h2)%float = true.
Proof.
  intros H1 H2. destruct (leb_number _ _ H1) as [Hl1 Hh1].
  eapply leb_trans; [apply fmin_leb_left, Hl1|].
  eapply leb_trans; [exact H1|apply fmax_leb_left, Hh1].
Qed.

Section ReachableEval.

Variable std_log : float -> float.

Lemma eval_pair_low_only (m : candle_model.t) (k : nat) (numer denom : float) :
  ring_wf m -> Z.of_nat k + 1 < candle_model.capacity_ m ->
  (let '(cur, prev) := pair_at m k in
   (fmin (low cur) (low prev) <=? fmax (high cur) (high prev))%float = true /\
   add_time (start cur) (candle_model.candle_ns_ m) > start prev) ->
  candle_model.eval_pair std_log m (Z.of_nat k) (numer, denom) =
  if lows_positive (pair_at m k)
  then Ok ((numer + log_ratio_squared std_log (pair_at m k))%float,
           (denom + span_ns (candle_model.candle_ns_ m) (pair_at m k))%float)
  else Throw (assertion_error "min_low > 0").
Proof.
  intros H Hk. wf_facts H.
  unfold candle_model.eval_pair, pair_at, lows_positive, log_ratio_squared, span_ns,
    nth_newest.
  cbn [start high low].
  rewrite (to_u64_id (candle_model.front_ m + Z.of_nat k)) by (unfold is_u64; lia).
  set (cur := (candle_model.front_ m + Z.of_nat k) mod candle_model.capacity_ m).
  assert (Hcur : 0 <= cur < candle_model.capacity_ m)
    by (apply Z.mod_pos_bound; lia).
  rewrite (to_u64_id (cur + 1)) by (unfold is_u64; lia).
  replace ((candle_model.front_ m + (Z.of_nat k + 1)) mod candle_model.capacity_ m)
    with ((cur + 1) mod candle_model.capacity_ m).
  2:{ subst cur. rewrite Z.add_mod_idemp_l by lia. f_equal. lia. }
  intros [Hle Hgt]. unfold PC_ASSERT.
  destruct (0 <? fmin _ _)%float; cbn [bind]; [|reflexivity].
  rewrite Hle. cbn [bind].
  destruct (Z.gtb_spec (add_time (vget 0 (candle_model.starts_ m) cur)
                          (candle_model.candle_ns_ m))
              (vget 0 (candle_model.starts_ m) ((cur + 1) mod candle_model.capacity_ m)));
    [reflexivity|lia].
Qed.

Lemma eval_loop_low_only (m : candle_model.t) (n : nat) :
  ring_wf m ->
  forall (k : nat) (numer denom : float),
  Z.of_nat k + Z.of_nat n < candle_model.capacity_ m ->
  (forall j, (k <= j < k + n)%nat ->
     let '(cur, prev) := pair_at m j in
     (fmin (low cur) (low prev) <=? fmax (high cur) (high prev))%float = true /\
     add_time (start cur) (candle_model.candle_ns_ m) > start prev) ->
  let pairs := map (pair_at m) (seq k n) in
  candle_model.eval_loop std_log m n (Z.of_nat k) (numer, denom) =
  if forallb lows_positive pairs
  then Ok (fold_left PrimFloat.add (map (log_ratio_squared std_log) pairs) numer,
           fold_left PrimFloat.add
             (map (span_ns (candle_model.candle_ns_ m)) pairs) denom)
  else Throw (assertion_error "min_low > 0").
Proof.
  intros H. induction n as [|n IH]; intros k numer denom Hk Hpairs pairs; subst pairs.
  - reflexivity.
  - cbn [seq map forallb candle_model.eval_loop fold_left].
    rewrite (eval_pair_low_only m k numer denom H ltac:(lia) (Hpairs k ltac:(lia))).
    destruct (lows_positive (pair_at m k)); cbn [andb bind]; [|reflexivity].
    replace (Z.of_nat k + 1) with (Z.of_nat (S k)) by lia.
    apply IH; [lia|]. intros j Hj. apply Hpairs. lia.
Qed.

End ReachableEval.

Lemma add_time_small (ts : timestamp) (ns : nsecs) :
  0 <= ts < 2 ^ 63 -> 0 <= ts + ns < 2 ^ 63 -> add_time ts ns = ts + ns.
Proof.
  intros Hts Hs. unfold add_time. rewrite (as_ns_small ts) by assumption.
  rewrite to_i64_id by (unfold is_i64; lia).
  apply to_u64_id. unfold is_u64. lia.
Qed.

Lemma bucket_bounds (candle_ns : nsecs) (trades : list price_time) (b : timestamp) :
  0 < candle_ns ->
  (forall trade, In trade trades ->
     0 <= time_ trade /\ time_ trade + candle_ns < 2 ^ 63) ->
  In b (buckets candle_ns trades) ->
  0 <= b /\ b + candle_ns < 2 ^ 63.
Proof.
  intros Hns Htimes Hb. unfold buckets in Hb. apply in_map_iff in Hb.
  destruct Hb as (trade & <- & Hin). destruct (Htimes trade Hin) as [H0 H1].
  rewrite floor_time_small by lia.
  pose proof (Z.mod_pos_bound (time_ trade) candle_ns Hns).
  pose proof (Z.div_mod (time_ trade) candle_ns ltac:(lia)).
  assert (0 <= candle_ns * (time_ trade / candle_ns)).
  { apply Z.mul_nonneg_nonneg; [lia|apply Z.div_pos; lia]. }
  lia.
Qed.

(** What [eval_volatility] does on a ring that trades built. *)
Lemma eval_volatility_built
  (std_log : float -> float) (lookback : option Z) (candle_ns : option nsecs)
  (trades : list price_time) (m0 m : candle_model.t) :
  candle_model.new lookback candle_ns = Ok m0 ->
  add_trades trades m0 = Ok m ->
  (forall trade, In trade trades ->
     0 <= time_ trade /\
     time_ trade + value_or candle_ns candle_model.DEFAULT_DURATION < 2 ^ 63) ->
  candle_model.eval_volatility std_log m =
  if candle_model.count_ m <? candle_model.capacity_ m then Ok None
  else if forallb lows_positive (adjacent_pairs m)
       then Ok (Some (parkinson_volatility std_log m))
       else Throw (assertion_error "min_low > 0").
Proof.
  intros Enew E Htimes.
  destruct (new_ok _ _ _ Enew) as (Hwf0 & _ & _ & Hns0).
  destruct (add_trades_frame trades m0 m Hwf0 E) as (Hns & Hcap & Hwf).
  destruct (add_trades_inv trades m0 m None (new_inv _ _ _ Enew) E)
    as [_ Hdec Hlh _].
  destruct (add_trades_contents trades m0 m None [] (new_inv _ _ _ Enew)
              (new_count_inv _ _ _ Enew) (new_contents_inv _ _ _ Enew) E)
    as [[_ Hcandles _] _].
  cbn [app] in Hcandles. rewrite <- Hns0, <- Hns in Htimes.
  pose proof Hwf as Hwf'. wf_facts Hwf'.
  unfold candle_model.eval_volatility, PC_ASSERT.
  destruct (Z.leb_spec (candle_model.count_ m) (candle_model.capacity_ m)); [|lia].
  cbn [bind].
  destruct (Z.ltb_spec (candle_model.count_ m) (candle_model.capacity_ m));
    [reflexivity|].
  pose proof (eval_loop_low_only std_log m (Z.to_nat (candle_model.count_ m - 1)) Hwf
                O 0%float 0%float ltac:(lia)) as Hloop.
  change (Z.of_nat 0) with 0 in Hloop. cbv zeta in Hloop.
  rewrite Hloop; clear Hloop.
  - rewrite <- adjacent_pairs_seq.
    destruct (forallb lows_positive (adjacent_pairs m)); cbn [bind]; [|reflexivity].
    unfold parkinson_volatility, fsum. rewrite (fmul_comm 4%float (std_log 2%float)). reflexivity.
  - intros j Hj. unfold pair_at. split.
    + apply min_low_below_max_high; apply Hlh; lia.
    + pose proof (Hdec (Z.of_nat j) (Z.of_nat j + 1) ltac:(lia) ltac:(lia) ltac:(lia))
        as Hlt.
      pose proof (Hcandles (Z.of_nat j) ltac:(lia)) as Hc.
      apply summarize_present in Hc.
      destruct (bucket_bounds _ _ _ Hns1 Htimes Hc) as [Hb0 Hb1].
      rewrite add_time_small by lia. lia.
Qed.

(** X12: on a ring that trades built (with times for which a bucket's end
    stays below [2^63]), [eval_volatility] can fail one assertion only,
    [min_low > 0]: it returns nothing while the ring warms up, then the
    Parkinson volatility when every adjacent pair has a positive least low,
    and throws on [min_low > 0] otherwise.  The assertions
    [min_low <= max_high] and [cur_end > prev_start] never fail. *)
Theorem eval_volatility_on_built_ring
  (std_log : float -> float) (lookback : option Z) (candle_ns : option nsecs)
  (trades : list price_time) (m0 m : candle_model.t) :
  candle_model.new lookback candle_ns = Ok m0 ->
  add_trades trades m0 = Ok m ->
  (forall trade, In trade trades ->
     0 <= time_ trade /\
     time_ trade + value_or candle_ns candle_model.DEFAULT_DURATION < 2 ^ 63) ->
  candle_model.eval_volatility std_log m =
  if candle_model.count_ m <? candle_model.capacity_ m then Ok None
  else if forallb lows_positive (adjacent_pairs m)
       then Ok (Some (parkinson_volatility std_log m))
       else Throw (assertion_error "min_low > 0").
Proof. exact (eval_volatility_built std_log lookback candle_ns trades m0 m). Qed.

(** ** Runs of the driver *)

Lemma check_eval_ok {V : Type} (a : price_model_test.t) (s : price_model_test.state V)
  (actual : option price_estimate) :
  price_model_test.check_eval a s actual = Ok tt ->
  expected_ok a (price_model_test.eval_idx s) actual.
Proof.
  unfold price_model_test.check_eval, expected_ok, PC_ASSERT.
  destruct actual as [est|].
  - destruct (Z.eqb_spec (est_price_ est)
                (price_model_test.at_ 0 (price_model_test.eval_prices_ a)
                   (price_model_test.eval_idx s))); cbn [bind]; [|discriminate].
    destruct (_ <=? conf_ est)%float; cbn [bind]; [|discriminate].
    destruct (conf_ est <=? _)%float; [auto|discriminate].
  - destruct (Z.eqb_spec (price_model_test.at_ 0 (price_model_test.eval_prices_ a)
                            (price_model_test.eval_idx s)) 0); cbn [bind]; [|discriminate].
    destruct (_ =? 0)%float; [auto|discriminate].
Qed.

Section CompleteRun.

Context {V : Type} (VM : volatility_model V).
Variable a : price_model_test.t.

(** A run of the loop that reaches the [break]: what it fed and evaluated
    on the way. *)
Lemma loop_complete (fuel : nat) :
  forall s evs s',
  price_model_test.loop VM a fuel s = (evs, Some (Ok s')) ->
  0 <= price_model_test.trade_idx s ->
  0 <= price_model_test.eval_idx s ->
  price_model_test.next_action a s' = price_model_test.stop /\
  price_model_test.trade_idx s <= price_model_test.trade_idx s' /\
  price_model_test.eval_idx s <= price_model_test.eval_idx s' /\
  trades_of evs
  = map (price_model_test.trade_at a)
        (zrange (price_model_test.trade_idx s)
           (Z.to_nat (price_model_test.trade_idx s' - price_model_test.trade_idx s))) /\
  Forall2 (eval_passed a)
    (zrange (price_model_test.eval_idx s)
       (Z.to_nat (price_model_test.eval_idx s' - price_model_test.eval_idx s)))
    (evals_of evs).
Proof.
  induction fuel as [|fuel IH]; intros s evs s' E Hti Hei; [discriminate|].
  cbn [price_model_test.loop] in E.
  destruct (price_model_test.next_action a s) eqn:Hact.
  - destruct (standard_price_model.add_trade VM _ _) as [m|e]; [|discriminate].
    destruct (price_model_test.loop VM a fuel _) as [evs' r] eqn:E'.
    injection E as <- ->.
    destruct (IH _ _ _ E' ltac:(simpl; lia) ltac:(simpl; lia))
      as (Hstop & Ht & He & Htr & Hev).
    cbn [price_model_test.trade_idx price_model_test.eval_idx] in *.
    split; [exact Hstop|]. split; [lia|]. split; [lia|]. split.
    + replace (Z.to_nat (price_model_test.trade_idx s' - price_model_test.trade_idx s))
        with (S (Z.to_nat (price_model_test.trade_idx s'
                           - (price_model_test.trade_idx s + 1)))) by lia.
      cbn [trades_of zrange map]. rewrite Htr. reflexivity.
    + exact Hev.
  - destruct (standard_price_model.eval_at_time VM _ _) as [[actual m]|e];
      [|discriminate].
    destruct (price_model_test.check_eval a s actual) as [[]|e] eqn:Echeck;
      [|discriminate].
    destruct (price_model_test.loop VM a fuel _) as [evs' r] eqn:E'.
    injection E as <- ->.
    destruct (IH _ _ _ E' ltac:(simpl; lia) ltac:(simpl; lia))
      as (Hstop & Ht & He & Htr & Hev).
    cbn [price_model_test.trade_idx price_model_test.eval_idx] in *.
    split; [exact Hstop|]. split; [lia|]. split; [lia|]. split; [exact Htr|].
    replace (Z.to_nat (price_model_test.eval_idx s' - price_model_test.eval_idx s))
      with (S (Z.to_nat (price_model_test.eval_idx s'
                         - (price_model_test.eval_idx s + 1)))) by lia.
    cbn [evals_of zrange]. constructor; [|exact Hev].
    exists actual. split; [|apply (check_eval_ok a s), Echeck].
    unfold price_model_test.eval_time.
    unfold price_model_test.next_action in Hact.
    destruct (price_model_test.eval_idx s <? price_model_test.eval_count a);
      [reflexivity|].
    destruct (_ && _); discriminate.
  - injection E as <- <-. rewrite !Z.sub_diag. simpl.
    split; [exact Hact|]. split; [lia|]. split; [lia|]. split; [reflexivity|constructor].
Qed.

End CompleteRun.

(** X13: a run of the driver that passes has fed every trade of the columns,
    in their order, and has made every evaluation of the columns, in their
    order, each returning without a throw something the comparison accepts:
    the expected price and a confidence within the tolerance of the expected
    one, or no estimate where [(0, 0)] is expected. *)
Theorem passed_run_covers_columns
  {V : Type} (VM : volatility_model V)
  (make_vol_model : price_model_test.t -> result V) (a : price_model_test.t)
  (evs : list price_model_test.event) :
  price_model_test.run VM make_vol_model a = (evs, Some (Ok tt)) ->
  trades_of evs = all_trades a /\
  Forall2 (eval_passed a)
    (zrange 0 (Z.to_nat (price_model_test.eval_count a))) (evals_of evs).
Proof.
  unfold price_model_test.run. intros Hrun.
  destruct (bind (price_model_test.validate_args a) _) as [m0|e]; [|discriminate].
  destruct (price_model_test.loop VM a (price_model_test.enough_fuel a)
              (price_model_test.initial m0)) as [evs' [[s|e]|]] eqn:Eloop;
    try discriminate.
  injection Hrun as -> Hfinal.
  destruct (loop_complete VM a _ _ _ _ Eloop ltac:(simpl; lia) ltac:(simpl; lia))
    as (_ & _ & _ & Htr & Hev).
  cbn [price_model_test.initial price_model_test.trade_idx price_model_test.eval_idx] in *.
  unfold PC_ASSERT in Hfinal.
  destruct (Z.eqb_spec (price_model_test.trade_idx s) (price_model_test.trade_count a))
    as [Ht|]; cbn [bind] in Hfinal; [|discriminate].
  destruct (Z.eqb_spec (price_model_test.eval_idx s) (price_model_test.eval_count a))
    as [He|]; [|discriminate].
  rewrite Ht, He, Z.sub_0_r in *. split; [exact Htr|exact Hev].
Qed.

(** ** The properties above at concrete inputs *)

Lemma range_since_eval_spans_trades_witness :
  standard_price_model.last_trade_ refed_model = latest_trade refed_trades /\
  exists r,
    standard_price_model.range_since_eval_ refed_model = Some r /\
    price_range.low_ r <= price_range.high_ r /\
    (forall fed, In fed refed_trades ->
       price_range.low_ r <= price_ fed <= price_range.high_ r) /\
    In (price_range.high_ r) (map price_ refed_trades) /\
    In (price_range.low_ r) (map price_ refed_trades).
Proof.
  apply (range_since_eval_spans_trades (candle_model.tracker ln_series)
           drained_model refed_model
           {| price_ := 104; time_ := 10 |} [ {| price_ := 98; time_ := 20 |} ]).
  - reflexivity.
  - vm_compute. reflexivity.
Defined.

Lemma estimate_conf_bounds_witness :
  (0x1.9c9a2fa764712p-7 <? standard_price_model.min_interval_ primed_model)%float = false /\
  (forall r, standard_price_model.range_since_eval_ primed_model = Some r ->
     (0x1.9c9a2fa764712p-7 <? price_range.interval r)%float = false) /\
  ((0x1.9c9a2fa764712p-7 =? 0x1.9c9a2fa764712p-7)%float = true ->
   (0 <=? standard_price_model.min_interval_ primed_model)%float = true ->
   (standard_price_model.min_interval_ primed_model <=? 0x1.9c9a2fa764712p-7)%float = true /\
   forall r, standard_price_model.range_since_eval_ primed_model = Some r ->
     (price_range.interval r <=? 0x1.9c9a2fa764712p-7)%float = true).
Proof.
  apply (estimate_conf_bounds (candle_model.tracker ln_series) primed_model drained_model 0
           {| est_price_ := 100; conf_ := 0x1.9c9a2fa764712p-7%float |}).
  vm_compute. reflexivity.
Defined.


Lemma ring_summarizes_recent_buckets_witness :
  candle_model.count_ warm_ring
  = Z.min (distinct_buckets NS_PER_MIN warm_up_trades) 3 /\
  map start (ring_candles warm_ring) = recent_buckets NS_PER_MIN warm_up_trades 3 /\
  map Some (ring_candles warm_ring)
  = map (fun b => summarize NS_PER_MIN b warm_up_trades)
        (recent_buckets NS_PER_MIN warm_up_trades 3).
Proof.
  apply (ring_summarizes_recent_buckets (Some 2) None warm_up_trades
           fresh_ring_3 warm_ring).
  - reflexivity.
  - vm_compute. reflexivity.
Defined.

Lemma eval_volatility_on_built_ring_witness :
  candle_model.eval_volatility ln_series warm_ring
  = Ok (Some (parkinson_volatility ln_series warm_ring)).
Proof.
  apply (eval_volatility_on_built_ring ln_series (Some 2) None warm_up_trades
           fresh_ring_3 warm_ring).
  - reflexivity.
  - vm_compute. reflexivity.
  - intros trade [<-|[<-|[<-|[]]]]; vm_compute; split; congruence.
Defined.

Lemma passed_run_covers_columns_witness :
  trades_of
    [ price_model_test.ev_trade {| price_ := 100; time_ := 1 * NS_PER_SEC |};
      price_model_test.ev_eval (2 * NS_PER_SEC)
        (Ok (Some {| est_price_ := 100; conf_ := 0x1.23c0fe14394d6p-6%float |}));
      price_model_test.ev_trade {| price_ := 110; time_ := 2 * NS_PER_SEC |} ]
  = all_trades tie_test /\
  Forall2 (eval_passed tie_test)
    (zrange 0 (Z.to_nat (price_model_test.eval_count tie_test)))
    (evals_of
       [ price_model_test.ev_trade {| price_ := 100; time_ := 1 * NS_PER_SEC |};
         price_model_test.ev_eval (2 * NS_PER_SEC)
           (Ok (Some {| est_price_ := 100; conf_ := 0x1.23c0fe14394d6p-6%float |}));
         price_model_test.ev_trade {| price_ := 110; time_ := 2 * NS_PER_SEC |} ]).
Proof.
  apply (passed_run_covers_columns (candle_model.tracker ln_series)
           price_model_test.make_candle_model tie_test).
  vm_compute. reflexivity.
Defined.

(** ** Runs of the driver that fail *)

Lemma expected_ok_check {V : Type} (a : price_model_test.t) (s : price_model_test.state V)
  (actual : option price_estimate) :
  expected_ok a (price_model_test.eval_idx s) actual ->
  price_model_test.check_eval a s actual = Ok tt.
Proof.
  unfold price_model_test.check_eval, expected_ok, PC_ASSERT.
  destruct actual as [est|].
  - intros (-> & -> & ->). rewrite Z.eqb_refl. reflexivity.
  - intros (-> & ->). reflexivity.
Qed.

Lemma vget_default_or_in {A : Type} (d : A) (v : list A) (i : Z) :
  vget d v i = d \/ In (vget d v i) v.
Proof.
  unfold vget. destruct (nth_in_or_default (Z.to_nat i) v d); auto.
Qed.

Section FailedRun.

Context {V : Type} (VM : volatility_model V).
Variable a : price_model_test.t.

Lemma next_action_bounds (s : price_model_test.state V) :
  match price_model_test.next_action a s with
  | price_model_test.feed_trade =>
    price_model_test.trade_idx s < price_model_test.trade_count a /\
    price_model_test.at_ 0 (price_model_test.trade_times_ a) (price_model_test.trade_idx s)
    < price_model_test.eval_time a s
  | price_model_test.evaluate =>
    price_model_test.eval_idx s < price_model_test.eval_count a
  | price_model_test.stop =>
    price_model_test.eval_count a <= price_model_test.eval_idx s /\
    (price_model_test.trade_idx s < price_model_test.trade_count a ->
     2 ^ 64 - 1
     <= price_model_test.at_ 0 (price_model_test.trade_times_ a)
          (price_model_test.trade_idx s))
  end.
Proof.
  unfold price_model_test.next_action, price_model_test.eval_time.
  destruct (Z.ltb_spec (price_model_test.trade_idx s) (price_model_test.trade_count a));
    cbn [andb].
  - destruct (Z.ltb_spec (price_model_test.eval_idx s) (price_model_test.eval_count a)).
    + destruct (Z.gtb_spec
                  (price_model_test.at_ 0 (price_model_test.eval_times_ a)
                     (price_model_test.eval_idx s))
                  (price_model_test.at_ 0 (price_model_test.trade_times_ a)
                     (price_model_test.trade_idx s))); [split|]; lia.
    + destruct (Z.gtb_spec (2 ^ 64 - 1)
                  (price_model_test.at_ 0 (price_model_test.trade_times_ a)
                     (price_model_test.trade_idx s))); [split|split; [|intros _]]; lia.
  - destruct (Z.ltb_spec (price_model_test.eval_idx s) (price_model_test.eval_count a));
      [|split]; lia.
Qed.

(** A run of the loop that throws: the calls before the last one went
    through, and the last one is where it failed. *)
Lemma loop_failed (fuel : nat) :
  forall s evs e,
  price_model_test.loop VM a fuel s = (evs, Some (Throw e)) ->
  exists evs' last m,
    evs = evs' ++ [last] /\
    replay VM evs' (price_model_test.model s) = Ok m /\
    call_failed VM a m
      (price_model_test.eval_idx s + Z.of_nat (List.length (evals_of evs'))) last e.
Proof.
  induction fuel as [|fuel IH]; intros s evs e E; [discriminate|].
  cbn [price_model_test.loop] in E.
  destruct (price_model_test.next_action a s) eqn:Hact.
  - destruct (standard_price_model.add_trade VM _ _) as [m1|e1] eqn:E1.
    + destruct (price_model_test.loop VM a fuel _) as [evs1 r] eqn:E'.
      injection E as <- ->.
      destruct (IH _ _ _ E') as (evs' & last & m & -> & Hre & Hlast).
      cbn [price_model_test.model price_model_test.eval_idx] in Hre, Hlast.
      exists (price_model_test.ev_trade
                (price_model_test.trade_at a (price_model_test.trade_idx s)) :: evs'),
        last, m.
      split; [reflexivity|]. split; [|exact Hlast].
      cbn [replay]. rewrite E1. exact Hre.
    + injection E as <- <-.
      exists [], (price_model_test.ev_trade
                    (price_model_test.trade_at a (price_model_test.trade_idx s))),
        (price_model_test.model s).
      split; [reflexivity|]. split; [reflexivity|exact E1].
  - destruct (standard_price_model.eval_at_time VM _ _) as [[actual m1]|e1] eqn:E1.
    + destruct (price_model_test.check_eval a s actual) as [[]|e2] eqn:Echeck.
      * destruct (price_model_test.loop VM a fuel _) as [evs1 r] eqn:E'.
        injection E as <- ->.
        destruct (IH _ _ _ E') as (evs' & last & m & -> & Hre & Hlast).
        cbn [price_model_test.model price_model_test.eval_idx] in Hre, Hlast.
        exists (price_model_test.ev_eval (price_model_test.eval_time a s) (Ok actual)
                :: evs'), last, m.
        split; [reflexivity|]. split.
        -- cbn [replay]. rewrite E1. exact Hre.
        -- cbn [evals_of List.length].
           replace (price_model_test.eval_idx s
                    + Z.of_nat (S (List.length (evals_of evs'))))
             with (price_model_test.eval_idx s + 1
                   + Z.of_nat (List.length (evals_of evs'))) by lia.
           exact Hlast.
      * injection E as <- <-.
        exists [], (price_model_test.ev_eval (price_model_test.eval_time a s) (Ok actual)),
          (price_model_test.model s).
        split; [reflexivity|]. split; [reflexivity|].
        cbn [call_failed evals_of List.length]. rewrite Z.add_0_r.
        split; [eauto|].
        intros Hok. apply (expected_ok_check a s) in Hok. congruence.
    + injection E as <- <-.
      exists [], (price_model_test.ev_eval (price_model_test.eval_time a s) (Throw e1)),
        (price_model_test.model s).
      split; [reflexivity|]. split; [reflexivity|]. split; [reflexivity|exact E1].
  - discriminate.
Qed.

(** Where the loop stands at its [break]: every evaluation made, and every
    trade fed but one at the largest timestamp. *)
Lemma loop_break (fuel : nat) :
  forall s evs s',
  price_model_test.loop VM a fuel s = (evs, Some (Ok s')) ->
  price_model_test.trade_idx s <= price_model_test.trade_count a ->
  price_model_test.eval_idx s <= price_model_test.eval_count a ->
  price_model_test.eval_idx s' = price_model_test.eval_count a /\
  price_model_test.trade_idx s' <= price_model_test.trade_count a /\
  (price_model_test.trade_idx s' < price_model_test.trade_count a ->
   2 ^ 64 - 1
   <= price_model_test.at_ 0 (price_model_test.trade_times_ a)
        (price_model_test.trade_idx s')).
Proof.
  induction fuel as [|fuel IH]; intros s evs s' E Hti Hei; [discriminate|].
  cbn [price_model_test.loop] in E.
  pose proof (next_action_bounds s) as Hb.
  destruct (price_model_test.next_action a s).
  - destruct (standard_price_model.add_trade VM _ _) as [m1|e1]; [|discriminate].
    destruct (price_model_test.loop VM a fuel _) as [evs1 r] eqn:E'.
    injection E as <- ->.
    apply (IH _ _ _ E'); simpl; lia.
  - destruct (standard_price_model.eval_at_time VM _ _) as [[actual m1]|e1];
      [|discriminate].
    destruct (price_model_test.check_eval a s actual) as [[]|e2]; [|discriminate].
    destruct (price_model_test.loop VM a fuel _) as [evs1 r] eqn:E'.
    injection E as <- ->.
    apply (IH _ _ _ E'); simpl; lia.
  - injection E as <- <-. destruct Hb as [Hb1 Hb2].
    split; [lia|]. split; [lia|exact Hb2].
Qed.

(** The trades the loop feeds come before the time of an evaluation. *)
Lemma loop_feeds_below_max (fuel : nat) :
  Forall (fun t => t <= 2 ^ 64 - 1) (value_or (price_model_test.eval_times_ a) []) ->
  forall s evs r,
  price_model_test.loop VM a fuel s = (evs, r) ->
  Forall (fun trade => time_ trade < 2 ^ 64 - 1) (trades_of evs).
Proof.
  intros Hev.
  assert (Het : forall s : price_model_test.state V,
            price_model_test.eval_time a s <= 2 ^ 64 - 1).
  { intros s. unfold price_model_test.eval_time.
    destruct (price_model_test.eval_idx s <? price_model_test.eval_count a); [|lia].
    unfold price_model_test.at_.
    destruct (@vget_default_or_in Z 0
                (value_or (price_model_test.eval_times_ a) [])
                (price_model_test.eval_idx s)) as [H0|Hin].
    - unfold timestamp in *. lia.
    - rewrite Forall_forall in Hev. apply Hev, Hin. }
  induction fuel as [|fuel IH]; intros s evs r E.
  - injection E as <- _. constructor.
  - cbn [price_model_test.loop] in E.
    pose proof (next_action_bounds s) as Hb. specialize (Het s).
    destruct (price_model_test.next_action a s).
    + assert (Hlt : time_ (price_model_test.trade_at a (price_model_test.trade_idx s))
                    < 2 ^ 64 - 1).
      { unfold price_model_test.trade_at. cbn [time_]. lia. }
      destruct (standard_price_model.add_trade VM _ _) as [m1|e1].
      * destruct (price_model_test.loop VM a fuel _) as [evs1 r1] eqn:E'.
        injection E as <- _. cbn [trades_of].
        constructor; [exact Hlt|apply (IH _ _ _ E')].
      * injection E as <- _. cbn [trades_of]. constructor; [exact Hlt|constructor].
    + destruct (standard_price_model.eval_at_time VM _ _) as [[actual m1]|e1].
      * destruct (price_model_test.check_eval a s actual) as [[]|e2].
        -- destruct (price_model_test.loop VM a fuel _) as [evs1 r1] eqn:E'.
           injection E as <- _. cbn [trades_of]. apply (IH _ _ _ E').
        -- injection E as <- _. constructor.
      * injection E as <- _. constructor.
    + injection E as <- _. constructor.
Qed.

End FailedRun.

(** A run over trade times below the largest timestamp throws before the
    loop or in it, not after it. *)
Lemma run_throws {V : Type} (VM : volatility_model V)
  (make_vol_model : price_model_test.t -> result V) (a : price_model_test.t)
  (evs : list price_model_test.event) (e : exception) :
  Forall (fun t => t < 2 ^ 64 - 1) (value_or (price_model_test.trade_times_ a) []) ->
  price_model_test.run VM make_vol_model a = (evs, Some (Throw e)) ->
  (evs = [] /\
   (price_model_test.validate_args a ;;; price_model_test.check_columns a ;;;
    price_model_test.make_price_model make_vol_model a) = Throw e) \/
  (exists m0,
     price_model_test.validate_args a = Ok tt /\
     price_model_test.check_columns a = Ok tt /\
     price_model_test.make_price_model make_vol_model a = Ok m0 /\
     price_model_test.loop VM a (price_model_test.enough_fuel a)
       (price_model_test.initial m0) = (evs, Some (Throw e))).
Proof.
  intros Htimes Hrun. unfold price_model_test.run in Hrun.
  destruct (bind (price_model_test.validate_args a) _) as [m0|e0] eqn:Epre.
  2:{ injection Hrun as <- <-. left. split; reflexivity. }
  right. exists m0.
  apply bind_ok in Epre. destruct Epre as ([] & Hval & Epre).
  apply bind_ok in Epre. destruct Epre as ([] & Hcols & Hmake).
  split; [exact Hval|]. split; [exact Hcols|]. split; [exact Hmake|].
  destruct (price_model_test.loop VM a (price_model_test.enough_fuel a)
              (price_model_test.initial m0)) as [evs0 [[s|e0]|]] eqn:Eloop;
    try discriminate.
  - exfalso. injection Hrun as _ Hfinal.
    assert (Htc : 0 <= price_model_test.trade_count a)
      by (unfold price_model_test.trade_count, price_model_test.size; lia).
    assert (Hec : 0 <= price_model_test.eval_count a)
      by (unfold price_model_test.eval_count, price_model_test.size; lia).
    destruct (loop_break VM a _ _ _ _ Eloop Htc Hec) as (He & Ht & Hleft).
    rewrite He, Z.eqb_refl in Hfinal.
    destruct (Z.eqb_spec (price_model_test.trade_idx s) (price_model_test.trade_count a))
      as [_|Hne]; [discriminate|].
    specialize (Hleft ltac:(lia)).
    unfold price_model_test.at_ in Hleft.
    destruct (@vget_default_or_in Z 0
                (value_or (price_model_test.trade_times_ a) [])
                (price_model_test.trade_idx s)) as [H0|Hin].
    + unfold timestamp in *. lia.
    + rewrite Forall_forall in Htimes. specialize (Htimes _ Hin).
      unfold timestamp in *. lia.
  - injection Hrun as <- <-. reflexivity.
Qed.

(** X14: a run of the driver over trade times below the largest timestamp
    [2^64 - 1] fails in one of two ways only.  Either the checks of the
    arguments and columns or a constructor threw, and no call was made on the
    model; or the last call made is where it failed: the calls before it
    went through, and the last one threw in the model or returned something
    the comparison does not accept.  The closing assertions
    [trade_idx == trade_count] and [eval_idx == eval_count] never fail. *)
Theorem failed_run_reason
  {V : Type} (VM : volatility_model V)
  (make_vol_model : price_model_test.t -> result V) (a : price_model_test.t)
  (evs : list price_model_test.event) (e : exception) :
  Forall (fun t => t < 2 ^ 64 - 1) (value_or (price_model_test.trade_times_ a) []) ->
  price_model_test.run VM make_vol_model a = (evs, Some (Throw e)) ->
  (evs = [] /\
   (price_model_test.validate_args a ;;; price_model_test.check_columns a ;;;
    price_model_test.make_price_model make_vol_model a) = Throw e) \/
  (exists m0 evs' last m,
     price_model_test.make_price_model make_vol_model a = Ok m0 /\
     evs = evs' ++ [last] /\
     replay VM evs' m0 = Ok m /\
     call_failed VM a m (Z.of_nat (List.length (evals_of evs'))) last e).
Proof.
  intros Htimes Hrun.
  destruct (run_throws VM make_vol_model a evs e Htimes Hrun)
    as [Hpre|(m0 & _ & _ & Hmake & Eloop)]; [left; exact Hpre|right].
  destruct (loop_failed VM a _ _ _ _ Eloop) as (evs' & last & m & -> & Hre & Hlast).
  exists m0, evs', last, m. auto.
Qed.

Lemma failed_run_reason_witness :
  ([ price_model_test.ev_trade {| price_ := 100; time_ := 1 * NS_PER_SEC |};
     price_model_test.ev_eval (2 * NS_PER_SEC)
       (Ok (Some {| est_price_ := 100; conf_ := 0x1.23c0fe14394d6p-6%float |})) ] = [] /\
   (price_model_test.validate_args failing_test ;;;
    price_model_test.check_columns failing_test ;;;
    price_model_test.make_price_model price_model_test.make_candle_model failing_test)
   = Throw (assertion_error "actual->price_ == expected_price")) \/
  (exists m0 evs' last m,
     price_model_test.make_price_model price_model_test.make_candle_model failing_test
     = Ok m0 /\
     [ price_model_test.ev_trade {| price_ := 100; time_ := 1 * NS_PER_SEC |};
       price_model_test.ev_eval (2 * NS_PER_SEC)
         (Ok (Some {| est_price_ := 100; conf_ := 0x1.23c0fe14394d6p-6%float |})) ]
     = evs' ++ [last] /\
     replay (candle_model.tracker ln_series) evs' m0 = Ok m /\
     call_failed (candle_model.tracker ln_series) failing_test m
       (Z.of_nat (List.length (evals_of evs'))) last
       (assertion_error "actual->price_ == expected_price")).
Proof.
  apply (failed_run_reason (candle_model.tracker ln_series)
           price_model_test.make_candle_model failing_test).
  - repeat constructor.
  - vm_compute. reflexivity.
Defined.

(** X15: the driver never feeds a trade at the largest timestamp [2^64 - 1]:
    with evaluation times that are 64-bit values, every trade it feeds is
    earlier.  So a run whose columns hold such a trade does not pass. *)
Theorem trade_at_max_time_never_fed
  {V : Type} (VM : volatility_model V)
  (make_vol_model : price_model_test.t -> result V) (a : price_model_test.t)
  (evs : list price_model_test.event) (r : option (result unit)) :
  Forall (fun t => t <= 2 ^ 64 - 1) (value_or (price_model_test.eval_times_ a) []) ->
  price_model_test.run VM make_vol_model a = (evs, r) ->
  Forall (fun trade => time_ trade < 2 ^ 64 - 1) (trades_of evs) /\
  (r = Some (Ok tt) ->
   Forall (fun trade => time_ trade < 2 ^ 64 - 1) (all_trades a)).
Proof.
  intros Hev Hrun. unfold price_model_test.run in Hrun.
  destruct (bind (price_model_test.validate_args a) _) as [m0|e0].
  2:{ injection Hrun as <- <-. split; [constructor|discriminate]. }
  destruct (price_model_test.loop VM a (price_model_test.enough_fuel a)
              (price_model_test.initial m0)) as [evs0 r0] eqn:Eloop.
  pose proof (loop_feeds_below_max VM a _ Hev _ _ _ Eloop) as Hfed.
  assert (Hevs : evs = evs0) by (destruct r0 as [[s|e0]|]; congruence).
  subst evs0. split; [exact Hfed|].
  intros ->. destruct r0 as [[s|e0]|]; try discriminate.
  injection Hrun as Hfinal.
  destruct (loop_complete VM a _ _ _ _ Eloop ltac:(simpl; lia) ltac:(simpl; lia))
    as (_ & _ & _ & Htr & _).
  cbn [price_model_test.initial price_model_test.trade_idx] in Htr.
  unfold PC_ASSERT in Hfinal.
  destruct (Z.eqb_spec (price_model_test.trade_idx s) (price_model_test.trade_count a))
    as [Ht|]; [|discriminate].
  rewrite Ht, Z.sub_0_r in Htr. unfold all_trades. rewrite <- Htr. exact Hfed.
Qed.

Lemma trade_at_max_time_never_fed_witness :
  Forall (fun trade => time_ trade < 2 ^ 64 - 1)
    (trades_of
       [ price_model_test.ev_trade {| price_ := 100; time_ := 1 * NS_PER_SEC |};
         price_model_test.ev_eval (2 * NS_PER_SEC)
           (Ok (Some {| est_price_ := 100; conf_ := 0x1.23c0fe14394d6p-6%float |}));
         price_model_test.ev_trade {| price_ := 110; time_ := 2 * NS_PER_SEC |} ]) /\
  (Some (Ok tt) = Some (Ok tt) ->
   Forall (fun trade => time_ trade < 2 ^ 64 - 1) (all_trades tie_test)).
Proof.
  apply (trade_at_max_time_never_fed (candle_model.tracker ln_series)
           price_model_test.make_candle_model tie_test).
  - repeat constructor. vm_compute. discriminate.
  - vm_compute. reflexivity.
Defined.

(** ** The arguments and the constructors *)

Lemma validate_args_ok (a : price_model_test.t) :
  price_model_test.validate_args a = Ok tt ->
  price_model_test.size (price_model_test.trade_times_ a)
  = price_model_test.size (price_model_test.trade_prices_ a) /\
  price_model_test.size (price_model_test.eval_times_ a)
  = price_model_test.size (price_model_test.eval_prices_ a) /\
  price_model_test.size (price_model_test.eval_times_ a)
  = price_model_test.size (price_model_test.eval_intervals_ a) /\
  (0 <=? value_or (price_model_test.init_volatility_ a) 0)%float = true /\
  (0 <=? value_or (price_model_test.min_interval_ a) 0)%float = true /\
  0 <= value_or (price_model_test.min_slot_ns_ a) 0 /\
  0 < value_or (price_model_test.timeout_ns_ a) 1 /\
  0 < value_or (price_model_test.candle_ns_ a) 1 /\
  0 < value_or (price_model_test.lookback_candles_ a) 1.
Proof.
  unfold price_model_test.validate_args. intros E.
  apply bind_ok in E. destruct E as ([] & _ & E).
  apply bind_ok in E. destruct E as ([] & _ & E).
  apply bind_ok in E. destruct E as ([] & H1 & E). apply assert_ok in H1.
  apply bind_ok in E. destruct E as ([] & H2 & E). apply assert_ok in H2.
  apply bind_ok in E. destruct E as ([] & H3 & E). apply assert_ok in H3.
  apply bind_ok in E. destruct E as ([] & H4 & E). apply assert_ok in H4.
  apply bind_ok in E. destruct E as ([] & H5 & E). apply assert_ok in H5.
  apply bind_ok in E. destruct E as ([] & H6 & E). apply assert_ok in H6.
  apply bind_ok in E. destruct E as ([] & H7 & E). apply assert_ok in H7.
  apply bind_ok in E. destruct E as ([] & H8 & E). apply assert_ok in H8.
  apply bind_ok in E. destruct E as ([] & H9 & E). apply assert_ok in H9.
  apply Z.eqb_eq in H1, H2, H3. apply Z.geb_le in H6.
  apply Z.gtb_lt in H7, H8, H9.
  repeat split; try assumption; lia.
Qed.

(** X16: for arguments that [validate_args] accepts, no assertion of the
    [candle_model] constructor fails (unless the lookback is the largest
    [size_t], which wraps the capacity to 0), and once the candle model is
    made, of the assertions of the [standard_price_model] constructor only
    [min_slot_ns_ < timeout_ns_] can still fail: [validate_args] checks each
    of the two against 0, not one against the other.  When it holds the
    model is made with the given values, or the defaults, and neither a
    trade nor a range. *)
Theorem validated_args_construct (a : price_model_test.t) :
  price_model_test.validate_args a = Ok tt ->
  (value_or (price_model_test.lookback_candles_ a) 1 <= 2 ^ 64 - 2 ->
   forall expr,
     price_model_test.make_candle_model a <> Throw (assertion_error expr)) /\
  (forall c,
     price_model_test.make_candle_model a = Ok c ->
     price_model_test.make_price_model price_model_test.make_candle_model a
     = if value_or (price_model_test.min_slot_ns_ a) standard_price_model.DEFAULT_MIN_SLOT
          <? value_or (price_model_test.timeout_ns_ a) standard_price_model.DEFAULT_TIMEOUT
       then Ok {| standard_price_model.volatility_model_ := c;
                  standard_price_model.min_interval_ :=
                    value_or (price_model_test.min_interval_ a)
                      standard_price_model.DEFAULT_MIN_INTERVAL;
                  standard_price_model.init_volatility_ :=
                    value_or (price_model_test.init_volatility_ a)
                      standard_price_model.DEFAULT_VOLATILITY;
                  standard_price_model.timeout_ns_ :=
                    value_or (price_model_test.timeout_ns_ a)
                      standard_price_model.DEFAULT_TIMEOUT;
                  standard_price_model.min_slot_ns_ :=
                    value_or (price_model_test.min_slot_ns_ a)
                      standard_price_model.DEFAULT_MIN_SLOT;
                  standard_price_model.last_trade_ := None;
                  standard_price_model.range_since_eval_ := None |}
       else Throw (assertion_error "min_slot_ns_ < timeout_ns_")).
Proof.
  intros Hval.
  destruct (validate_args_ok a Hval) as (_ & _ & _ & Hiv & Hmi & Hms & Hto & Hns & Hlb).
  split.
  - intros Hlook expr.
    unfold price_model_test.make_candle_model, candle_model.new, PC_ASSERT.
    assert (Hcap : to_u64 (1 + value_or (price_model_test.lookback_candles_ a)
                                 candle_model.DEFAULT_LOOKBACK)
                   = 1 + value_or (price_model_test.lookback_candles_ a)
                           candle_model.DEFAULT_LOOKBACK).
    { apply to_u64_id. unfold is_u64.
      destruct (price_model_test.lookback_candles_ a); cbn [value_or] in *;
        unfold candle_model.DEFAULT_LOOKBACK; lia. }
    rewrite Hcap.
    assert (Hl : 0 < value_or (price_model_test.lookback_candles_ a)
                       candle_model.DEFAULT_LOOKBACK).
    { destruct (price_model_test.lookback_candles_ a); cbn [value_or] in *;
        unfold candle_model.DEFAULT_LOOKBACK; lia. }
    assert (Hn : 0 < value_or (price_model_test.candle_ns_ a) candle_model.DEFAULT_DURATION).
    { destruct (price_model_test.candle_ns_ a); cbn [value_or] in *; [lia|].
      unfold candle_model.DEFAULT_DURATION, NS_PER_MIN, NS_PER_SEC, NS_PER_MS, NS_PER_US.
      lia. }
    destruct (Z.gtb_spec (1 + value_or (price_model_test.lookback_candles_ a)
                                candle_model.DEFAULT_LOOKBACK) 1); [|lia].
    destruct (Z.gtb_spec (value_or (price_model_test.candle_ns_ a)
                            candle_model.DEFAULT_DURATION) 0); [|lia].
    cbn [bind].
    destruct (_ >? VECTOR_MAX_SIZE); discriminate.
  - intros c Hc.
    unfold price_model_test.make_price_model. rewrite Hc. cbn [bind].
    unfold standard_price_model.new, PC_ASSERT.
    assert (Hmi' : (0 <=? value_or (price_model_test.min_interval_ a)
                            standard_price_model.DEFAULT_MIN_INTERVAL)%float = true).
    { destruct (price_model_test.min_interval_ a); [exact Hmi|reflexivity]. }
    assert (Hiv' : (0 <=? value_or (price_model_test.init_volatility_ a)
                            standard_price_model.DEFAULT_VOLATILITY)%float = true).
    { destruct (price_model_test.init_volatility_ a); [exact Hiv|reflexivity]. }
    rewrite Hmi', Hiv'. cbn [bind].
    assert (Hms' : 0 <= value_or (price_model_test.min_slot_ns_ a)
                          standard_price_model.DEFAULT_MIN_SLOT).
    { destruct (price_model_test.min_slot_ns_ a); cbn [value_or] in *; [lia|].
      unfold standard_price_model.DEFAULT_MIN_SLOT, NS_PER_MS, NS_PER_US. lia. }
    destruct (Z.geb_spec (value_or (price_model_test.min_slot_ns_ a)
                            standard_price_model.DEFAULT_MIN_SLOT) 0); [|lia].
    cbn [bind].
    destruct (_ <? _); reflexivity.
Qed.

Lemma validated_args_construct_witness :
  (value_or (price_model_test.lookback_candles_ explicit_test) 1 <= 2 ^ 64 - 2 ->
   forall expr,
     price_model_test.make_candle_model explicit_test <> Throw (assertion_error expr)) /\
  (forall c,
     price_model_test.make_candle_model explicit_test = Ok c ->
     price_model_test.make_price_model price_model_test.make_candle_model explicit_test
     = if value_or (price_model_test.min_slot_ns_ explicit_test)
            standard_price_model.DEFAULT_MIN_SLOT
          <? value_or (price_model_test.timeout_ns_ explicit_test)
               standard_price_model.DEFAULT_TIMEOUT
       then Ok {| standard_price_model.volatility_model_ := c;
                  standard_price_model.min_interval_ :=
                    value_or (price_model_test.min_interval_ explicit_test)
                      standard_price_model.DEFAULT_MIN_INTERVAL;
                  standard_price_model.init_volatility_ :=
                    value_or (price_model_test.init_volatility_ explicit_test)
                      standard_price_model.DEFAULT_VOLATILITY;
                  standard_price_model.timeout_ns_ :=
                    value_or (price_model_test.timeout_ns_ explicit_test)
                      standard_price_model.DEFAULT_TIMEOUT;
                  standard_price_model.min_slot_ns_ :=
                    value_or (price_model_test.min_slot_ns_ explicit_test)
                      standard_price_model.DEFAULT_MIN_SLOT;
                  standard_price_model.last_trade_ := None;
                  standard_price_model.range_since_eval_ := None |}
       else Throw (assertion_error "min_slot_ns_ < timeout_ns_")).
Proof.
  apply (validated_args_construct explicit_test).
  vm_compute. reflexivity.
Defined.

(** ** The driver over the candle model *)

Lemma trades_of_app (l1 l2 : list price_model_test.event) :
  trades_of (l1 ++ l2) = trades_of l1 ++ trades_of l2.
Proof.
  induction l1 as [|[trade|now actual] l1 IH]; simpl; [reflexivity| |exact IH].
  rewrite IH. reflexivity.
Qed.

Lemma add_trades_app (l1 l2 : list price_time) :
  forall m, add_trades (l1 ++ l2) m = (m' <- add_trades l1 m ;; add_trades l2 m').
Proof.
  induction l1 as [|trade l1 IH]; intros m; simpl; [reflexivity|].
  destruct (candle_model.add_trade trade m) as [m1|e]; simpl; [apply IH|reflexivity].
Qed.

Lemma at_in {A : Type} (d : A) (c : option (list A)) (i : Z) :
  0 <= i < price_model_test.size c ->
  In (price_model_test.at_ d c i) (value_or c []).
Proof.
  unfold price_model_test.size, price_model_test.at_, vget. intros H.
  apply nth_In. lia.
Qed.

Lemma latest_trade_snoc (l : list price_time) (trade : price_time) :
  latest_trade (l ++ [trade]) = Some trade.
Proof.
  induction l as [|x l IH]; simpl; [reflexivity|]. rewrite IH. reflexivity.
Qed.

Lemma zrange_snoc (i : Z) (n : nat) :
  zrange i (S n) = zrange i n ++ [i + Z.of_nat n].
Proof.
  revert i. induction n as [|n IH]; intros i.
  - simpl. rewrite Z.add_0_r. reflexivity.
  - change (zrange i (S (S n))) with (i :: zrange (i + 1) (S n)).
    rewrite IH. simpl. do 3 f_equal. lia.
Qed.

Lemma diff_times_small (t1 t2 : Z) :
  0 <= t2 -> t2 <= t1 -> t1 < 2 ^ 63 -> diff_times t1 t2 = t1 - t2.
Proof.
  intros H2 H12 H1. unfold diff_times.
  rewrite (as_ns_small t1), (as_ns_small t2) by lia.
  apply to_i64_id. unfold is_i64. lia.
Qed.

Section CandleRun.

Variable std_log : float -> float.
Variable a : price_model_test.t.

(** The candle model inside the price model is the one the trades fed so
    far have built: an evaluation leaves it as it is. *)
Lemma replay_candle (evs : list price_model_test.event) :
  forall m m' : standard_price_model.t candle_model.t,
  replay (candle_model.tracker std_log) evs m = Ok m' ->
  add_trades (trades_of evs) (standard_price_model.volatility_model_ m)
  = Ok (standard_price_model.volatility_model_ m').
Proof.
  induction evs as [|[trade|now actual] evs IH]; intros m m' E; cbn [replay] in E.
  - injection E as <-. reflexivity.
  - destruct (standard_price_model.add_trade _ trade m) as [m1|e] eqn:E1;
      cbn [bind] in E; [|discriminate].
    destruct (add_trade_state _ _ _ _ E1) as (_ & _ & Hv & _).
    cbn [vol_add_trade candle_model.tracker] in Hv.
    cbn [trades_of add_trades]. rewrite Hv. cbn [bind]. apply IH, E.
  - destruct (standard_price_model.eval_at_time _ now m) as [[r m1]|e] eqn:E1;
      cbn [bind] in E; [|discriminate].
    cbn [trades_of]. rewrite <- (IH m1 m' E). f_equal.
    unfold standard_price_model.eval_at_time in E1.
    destruct (standard_price_model.last_trade_ m) as [last|];
      [|injection E1 as _ <-; reflexivity].
    destruct (PC_ASSERT _ _); cbn [bind] in E1; [|discriminate].
    destruct (_ >? _); [injection E1 as _ <-; reflexivity|].
    cbn [vol_eval_at_time candle_model.tracker] in E1.
    unfold candle_model.eval_at_time in E1.
    destruct (candle_model.eval_volatility std_log _) as [v|e]; cbn [bind] in E1;
      [|discriminate].
    destruct (standard_price_model.range_since_eval_ _);
      injection E1 as _ <-; reflexivity.
Qed.

Hypothesis trades_in_order :
  forall i j, 0 <= i -> i <= j -> j < price_model_test.trade_count a ->
    price_model_test.at_ 0 (price_model_test.trade_times_ a) i
    <= price_model_test.at_ 0 (price_model_test.trade_times_ a) j.
Hypothesis trades_in_range :
  forall i, 0 <= i < price_model_test.trade_count a ->
    0 <= price_model_test.at_ 0 (price_model_test.trade_times_ a) i /\
    price_model_test.at_ 0 (price_model_test.trade_times_ a) i
    + value_or (price_model_test.candle_ns_ a) candle_model.DEFAULT_DURATION < 2 ^ 63.
Hypothesis candle_ns_positive :
  0 < value_or (price_model_test.candle_ns_ a) candle_model.DEFAULT_DURATION.

Lemma column_monotone (n : nat) :
  forall i t0,
  0 <= i -> i + Z.of_nat n <= price_model_test.trade_count a ->
  (0 < Z.of_nat n -> t0 <= price_model_test.at_ 0 (price_model_test.trade_times_ a) i) ->
  monotone_from t0 (map (price_model_test.trade_at a) (zrange i n)).
Proof.
  induction n as [|n IH]; intros i t0 Hi Hn Ht0; [exact I|].
  cbn [zrange map monotone_from]. unfold price_model_test.trade_at at 1 2. cbn [time_].
  destruct (trades_in_range i ltac:(lia)) as [H0 H1].
  split; [specialize (Ht0 ltac:(lia)); lia|].
  apply IH; [lia|lia|]. intros Hpos. apply trades_in_order; lia.
Qed.

(** Every prefix of the trade column goes into a fresh candle model. *)
Lemma column_prefix_accepted (c0 : candle_model.t) (n : nat) :
  ring_inv c0 None ->
  Z.of_nat n <= price_model_test.trade_count a ->
  exists c, add_trades (map (price_model_test.trade_at a) (zrange 0 n)) c0 = Ok c.
Proof.
  intros Hinv Hn.
  apply (add_trades_returns _ c0 None 0 Hinv); [lia|discriminate| |].
  - apply column_monotone; [lia|lia|].
    intros Hpos. apply trades_in_range. lia.
  - apply Forall_forall. intros trade Hin. apply in_map_iff in Hin.
    destruct Hin as (i & <- & Hi). apply in_zrange in Hi.
    unfold price_model_test.trade_at. cbn [time_].
    destruct (trades_in_range i ltac:(lia)) as [H0 H1]. lia.
Qed.

End CandleRun.

(** X17: over the candle model, with trade times that leave room for a
    candle below [2^63] and evaluation times below [2^63], the driver keeps
    the models' preconditions on times: no [add_trade] throws, and of the
    assertions of [eval_at_time] and [eval_volatility] only [min_low > 0]
    can fail.  A run fails before the first call, at an evaluation on
    [min_low > 0], or at an evaluation whose result the comparison does not
    accept. *)
Theorem candle_run_failures
  (std_log : float -> float) (a : price_model_test.t)
  (evs : list price_model_test.event) (e : exception) :
  Forall (fun t => 0 <= t /\
                   t + value_or (price_model_test.candle_ns_ a)
                         candle_model.DEFAULT_DURATION < 2 ^ 63)
    (value_or (price_model_test.trade_times_ a) []) ->
  Forall (fun t => t < 2 ^ 63) (value_or (price_model_test.eval_times_ a) []) ->
  price_model_test.run (candle_model.tracker std_log)
    price_model_test.make_candle_model a = (evs, Some (Throw e)) ->
  (evs = [] /\
   (price_model_test.validate_args a ;;; price_model_test.check_columns a ;;;
    price_model_test.make_price_model price_model_test.make_candle_model a) = Throw e) \/
  (exists evs' now,
     evs = evs' ++ [price_model_test.ev_eval now (Throw e)] /\
     e = assertion_error "min_low > 0") \/
  (exists evs' now actual,
     evs = evs' ++ [price_model_test.ev_eval now (Ok actual)] /\
     ~ expected_ok a (Z.of_nat (List.length (evals_of evs'))) actual).
Proof.
  intros Htr Hev Hrun.
  destruct (Z.ltb_spec 0 (value_or (price_model_test.candle_ns_ a)
                            candle_model.DEFAULT_DURATION)) as [Hns|Hns].
  2:{ (* no candle model is made *)
      left. unfold price_model_test.run in Hrun.
      destruct (bind (price_model_test.validate_args a) _) as [m0|e0] eqn:Epre.
      2:{ injection Hrun as <- <-. split; reflexivity. }
      exfalso.
      apply bind_ok in Epre. destruct Epre as ([] & _ & Epre).
      apply bind_ok in Epre. destruct Epre as ([] & _ & Hmake).
      unfold price_model_test.make_price_model, price_model_test.make_candle_model
        in Hmake.
      apply bind_ok in Hmake. destruct Hmake as (c0 & Hc0 & _).
      destruct (new_ok _ _ _ Hc0) as (Hwf & _ & _ & Hcns).
      pose proof (wf_candle_ns _ Hwf). lia. }
  assert (Htimes : Forall (fun t => t < 2 ^ 64 - 1)
                     (value_or (price_model_test.trade_times_ a) [])).
  { rewrite Forall_forall in *. intros t Ht. specialize (Htr t Ht). lia. }
  destruct (run_throws _ _ a evs e Htimes Hrun)
    as [Hpre|(m0 & Hval & Hcols & Hmake & Eloop)]; [left; exact Hpre|right].
  destruct (validate_args_ok a Hval) as (Hs1 & Hs2 & _).
  destruct (check_columns_sorted a Hcols) as [Hsort_tr Hsort_ev].
  (* the models made *)
  unfold price_model_test.make_price_model, price_model_test.make_candle_model in Hmake.
  apply bind_ok in Hmake. destruct Hmake as (c0 & Hc0 & Hm0).
  destruct (new_config _ _ _ _ _ _ Hm0) as (_ & Hl0 & Hr0).
  assert (Hv0 : standard_price_model.volatility_model_ m0 = c0).
  { unfold standard_price_model.new in Hm0.
    repeat (destruct (PC_ASSERT _ _); cbn [bind] in Hm0; [|discriminate]).
    injection Hm0 as <-. reflexivity. }
  (* the columns *)
  assert (Hrange : forall i, 0 <= i < price_model_test.trade_count a ->
            0 <= price_model_test.at_ 0 (price_model_test.trade_times_ a) i /\
            price_model_test.at_ 0 (price_model_test.trade_times_ a) i
            + value_or (price_model_test.candle_ns_ a) candle_model.DEFAULT_DURATION
            < 2 ^ 63).
  { intros i Hi. rewrite Forall_forall in Htr. apply Htr.
    apply at_in. unfold price_model_test.trade_count in Hi.
    unfold timestamp, price_val in *. lia. }
  assert (Htc : 0 <= price_model_test.trade_count a)
    by (unfold price_model_test.trade_count, price_model_test.size; lia).
  destruct (loop_failed _ a _ _ _ _ Eloop) as (evs' & last & m & -> & Hre & Hlast).
  cbn [price_model_test.initial price_model_test.model price_model_test.eval_idx]
    in Hre, Hlast.
  pose proof (replay_candle std_log evs' m0 m Hre) as Hring. rewrite Hv0 in Hring.
  destruct last as [trade|now [actual|e']]; cbn [call_failed] in Hlast.
  - (* a trade: it goes in *)
    exfalso.
    destruct (loop_trades _ a _ _ _ _ Eloop ltac:(simpl; lia)) as (n & Hn & Hfed).
    cbn [price_model_test.initial price_model_test.trade_idx] in Hn, Hfed.
    destruct (column_prefix_accepted a Hsort_tr Hrange Hns c0 n (new_inv _ _ _ Hc0)
                ltac:(lia)) as [c Hc].
    rewrite <- Hfed, trades_of_app, add_trades_app, Hring in Hc.
    cbn [bind trades_of add_trades] in Hc.
    unfold standard_price_model.add_trade in Hlast.
    cbn [vol_add_trade candle_model.tracker] in Hlast.
    destruct (candle_model.add_trade trade (standard_price_model.volatility_model_ m));
      [discriminate Hlast|discriminate Hc].
  - (* an evaluation that returned *)
    right. exists evs', now, actual. split; [reflexivity|].
    rewrite Z.add_0_l in Hlast. apply Hlast.
  - (* an evaluation that threw *)
    left. destruct Hlast as [-> Hthrow]. exists evs', now. split; [reflexivity|].
    destruct (loop_trace _ a Hsort_tr Hsort_ev _ _ _ _ Eloop ltac:(simpl; lia)
                ltac:(simpl; lia) evs' now (Throw e) [] eq_refl)
      as (n & n' & j & m_ & Hn & Hpre & _ & Hbefore & _ & Hj & Hnow & Hre_ & _).
    cbn [price_model_test.initial price_model_test.trade_idx price_model_test.eval_idx
         price_model_test.model] in Hn, Hpre, Hbefore, Hj, Hre_.
    assert (Hnow63 : now < 2 ^ 63).
    { rewrite Forall_forall in Hev. rewrite Hnow. apply Hev, at_in.
      unfold price_model_test.eval_count in Hj.
      unfold timestamp, price_val in *. lia. }
    destruct (replay_state _ evs' m0 m Hre) as (Hlast_trade & _).
    { rewrite Hr0. congruence. }
    { unfold range_ordered. rewrite Hr0. exact I. }
    rewrite Hl0, Hpre in Hlast_trade.
    assert (Hbuilt : candle_model.eval_volatility std_log
                       (standard_price_model.volatility_model_ m)
                     = if candle_model.count_ (standard_price_model.volatility_model_ m)
                          <? candle_model.capacity_ (standard_price_model.volatility_model_ m)
                       then Ok None
                       else if forallb lows_positive
                                 (adjacent_pairs (standard_price_model.volatility_model_ m))
                       then Ok (Some (parkinson_volatility std_log
                                        (standard_price_model.volatility_model_ m)))
                       else Throw (assertion_error "min_low > 0")).
    { apply (eval_volatility_built std_log _ _ (trades_of evs') c0 _ Hc0 Hring).
      intros trade Hin. rewrite Hpre in Hin. apply in_map_iff in Hin.
      destruct Hin as (i & <- & Hi). apply in_zrange in Hi.
      unfold price_model_test.trade_at. cbn [time_]. apply Hrange. lia. }
    unfold standard_price_model.eval_at_time in Hthrow.
    destruct n as [|k].
    { cbn [zrange map latest_trade or_latest] in Hlast_trade.
      rewrite Hlast_trade in Hthrow. discriminate. }
    rewrite zrange_snoc, map_app in Hlast_trade. cbn [map] in Hlast_trade.
    rewrite latest_trade_snoc in Hlast_trade. cbn [or_latest] in Hlast_trade.
    rewrite Hlast_trade in Hthrow.
    unfold price_model_test.trade_at in Hthrow at 1. cbn [time_] in Hthrow.
    destruct (Hrange (0 + Z.of_nat k) ltac:(lia)) as [Hk0 _].
    specialize (Hbefore (0 + Z.of_nat k) ltac:(lia)). cbv beta in Hbefore.
    rewrite diff_times_small in Hthrow by lia.
    unfold PC_ASSERT in Hthrow.
    destruct (Z.geb_spec (now - price_model_test.at_ 0 (price_model_test.trade_times_ a)
                                  (0 + Z.of_nat k)) 0); [|lia].
    cbn [bind] in Hthrow.
    destruct (_ >? _); [discriminate|].
    cbn [vol_eval_at_time candle_model.tracker] in Hthrow.
    unfold candle_model.eval_at_time in Hthrow. rewrite Hbuilt in Hthrow.
    destruct (_ <? _); cbn [bind] in Hthrow.
    { destruct (standard_price_model.range_since_eval_
                  (standard_price_model.set_volatility_model _ m)); discriminate. }
    destruct (forallb _ _); cbn [bind] in Hthrow.
    { destruct (standard_price_model.range_since_eval_
                  (standard_price_model.set_volatility_model _ m)); discriminate. }
    injection Hthrow as <-. reflexivity.
Qed.

Lemma candle_run_failures_witness :
  ([ price_model_test.ev_trade {| price_ := 100; time_ := 1 * NS_PER_SEC |};
     price_model_test.ev_eval (2 * NS_PER_SEC)
       (Ok (Some {| est_price_ := 100; conf_ := 0x1.23c0fe14394d6p-6%float |})) ] = [] /\
   (price_model_test.validate_args failing_test ;;;
    price_model_test.check_columns failing_test ;;;
    price_model_test.make_price_model price_model_test.make_candle_model failing_test)
   = Throw (assertion_error "actual->price_ == expected_price")) \/
  (exists evs' now,
     [ price_model_test.ev_trade {| price_ := 100; time_ := 1 * NS_PER_SEC |};
       price_model_test.ev_eval (2 * NS_PER_SEC)
         (Ok (Some {| est_price_ := 100; conf_ := 0x1.23c0fe14394d6p-6%float |})) ]
     = evs' ++ [price_model_test.ev_eval now
                  (Throw (assertion_error "actual->price_ == expected_price"))] /\
     assertion_error "actual->price_ == expected_price"
     = assertion_error "min_low > 0") \/
  (exists evs' now actual,
     [ price_model_test.ev_trade {| price_ := 100; time_ := 1 * NS_PER_SEC |};
       price_model_test.ev_eval (2 * NS_PER_SEC)
         (Ok (Some {| est_price_ := 100; conf_ := 0x1.23c0fe14394d6p-6%float |})) ]
     = evs' ++ [price_model_test.ev_eval now (Ok actual)] /\
     ~ expected_ok failing_test (Z.of_nat (List.length (evals_of evs'))) actual).
Proof.
  apply (candle_run_failures ln_series failing_test).
  - apply Forall_cons; [vm_compute; split; congruence|].
    apply Forall_cons; [vm_compute; split; congruence|]. apply Forall_nil.
  - apply Forall_cons; [vm_compute; reflexivity|]. apply Forall_nil.
  - vm_compute. reflexivity.
Defined.
